(** * ISO/RTO calendar aggregation: ICS block parsing, merging and validation

    A shallow embedding of the Python scripts [fetch_*_calendar.py] and
    [validate_feeds.py], followed by the properties of the block parser, the
    deduplicating merge, the document builder, the JSON adapters and the
    validator.

    Python strings are modelled as lists of characters.  A character is a
    code point below 256 ([ascii]); on that range [str.strip] and the regular
    expression class [\d] are as defined below. *)

From Stdlib Require Import Ascii String ZArith Lia.
From stdpp Require Import base decidable option list gmap strings pretty.

(** ** Python built-ins used by the scripts *)

Module Py.

Abbreviation str := (list ascii).

Definition lit (s : string) : str := list_ascii_of_string s.

Definition LF : ascii := "010"%char.
Definition CR : ascii := "013"%char.

(** [s.startswith(p)] *)
Fixpoint startswith (s p : str) {struct p} : bool :=
  match p with
  | [] => true
  | a :: p' =>
      match s with
      | [] => false
      | b :: s' => Ascii.eqb a b && startswith s' p'
      end
  end.

(** [s.endswith(p)] *)
Definition endswith (s p : str) : bool := startswith (rev s) (rev p).

(** [sub in s] *)
Fixpoint contains (sub s : str) : bool :=
  startswith s sub ||
  match s with
  | [] => false
  | _ :: s' => contains sub s'
  end.

(** [s.find(sub)]: index of the leftmost occurrence. *)
Fixpoint find (s sub : str) : option nat :=
  if startswith s sub then Some 0
  else match s with
       | [] => None
       | _ :: s' => S <$> find s' sub
       end.

(** The scanning built-ins walk the string from the left; after a match of a
    non-empty pattern they resume behind it, which [skip] counts down. *)
Fixpoint count_from (skip : nat) (s sub : str) : nat :=
  match s with
  | [] => 0
  | _ :: s' =>
      match skip with
      | S k => count_from k s' sub
      | O => if startswith s sub
             then S (count_from (length sub - 1) s' sub)
             else count_from 0 s' sub
      end
  end.

(** [s.count(sub)] for a non-empty [sub]: non-overlapping occurrences. *)
Definition count (s sub : str) : nat := count_from 0 s sub.

Fixpoint replace_from (skip : nat) (s old new : str) : str :=
  match s with
  | [] => []
  | c :: s' =>
      match skip with
      | S k => replace_from k s' old new
      | O => if startswith s old
             then new ++ replace_from (length old - 1) s' old new
             else c :: replace_from 0 s' old new
      end
  end.

(** [s.replace(old, new)] for a non-empty [old]. *)
Definition replace (s old new : str) : str := replace_from 0 s old new.

(** [split_from skip cur s sep]: [cur] is the piece being collected. *)
Fixpoint split_from (skip : nat) (cur : str) (s sep : str) : list str :=
  match s with
  | [] => [cur]
  | c :: s' =>
      match skip with
      | S k => split_from k cur s' sep
      | O => if startswith s sep
             then cur :: split_from (length sep - 1) [] s' sep
             else split_from 0 (cur ++ [c]) s' sep
      end
  end.

(** [s.split(sep)] for a non-empty [sep]; never the empty list. *)
Definition split (s sep : str) : list str := split_from 0 [] s sep.

(** [sep.join(parts)] *)
Fixpoint join (sep : str) (parts : list str) : str :=
  match parts with
  | [] => []
  | [p] => p
  | p :: rest => p ++ sep ++ join sep rest
  end.

(** Whitespace of [str.strip()] among the code points below 256. *)
Definition is_space (c : ascii) : bool :=
  let n := nat_of_ascii c in
  ((9 <=? n) && (n <=? 13)) || ((28 <=? n) && (n <=? 32))
  || (n =? 133) || (n =? 160).

Fixpoint lstrip (s : str) : str :=
  match s with
  | [] => []
  | c :: s' => if is_space c then lstrip s' else s
  end.

Definition rstrip (s : str) : str := rev (lstrip (rev s)).

(** [s.strip()] *)
Definition strip (s : str) : str := rstrip (lstrip s).

(** Truthiness of a string, and of an optional string ([None] is falsy). *)
Definition truthy (s : str) : bool :=
  match s with [] => false | _ => true end.

Definition truthy_opt (o : option str) : bool :=
  match o with Some s => truthy s | None => false end.

(** [str(n)] for a non-negative integer. *)
Definition str_of_nat (n : nat) : str := lit (pretty n).

(** Lexicographic order on strings by code point, as [<] and [<=]. *)
Fixpoint str_lt (a b : str) : bool :=
  match a, b with
  | [], [] => false
  | [], _ :: _ => true
  | _ :: _, [] => false
  | x :: a', y :: b' =>
      (nat_of_ascii x <? nat_of_ascii y)
      || ((nat_of_ascii x =? nat_of_ascii y) && str_lt a' b')
  end.

Definition str_le (a b : str) : bool := negb (str_lt b a).

(** The decimal digit of [n mod 10]. *)
Definition digit (n : Z) : ascii := ascii_of_nat (48 + Z.to_nat (n mod 10)).

(** The last [width] decimal digits of [n], zero-padded. *)
Fixpoint zero_padded (width : nat) (n : Z) : str :=
  match width with
  | O => []
  | S w => zero_padded w (n / 10) ++ [digit n]
  end.

(** [range(start, stop, step)] for a positive [step]: at most [stop - start]
    values. *)
Fixpoint range_from (fuel : nat) (i stop step : nat) : list nat :=
  match fuel with
  | O => []
  | S fuel' =>
      if i <? stop then i :: range_from fuel' (i + step) stop step else []
  end.

Definition range (start stop step : nat) : list nat :=
  range_from (stop - start) start stop step.

(** [date(year, month, day).strftime("%Y%m%d")] for a year of four digits. *)
Definition strftime_Ymd (year month day : Z) : str :=
  zero_padded 4 year ++ zero_padded 2 month ++ zero_padded 2 day.

(** Text read from a pipe in text mode, as [subprocess.run(..., text=True)]
    returns it: the line endings CR LF and CR are translated to LF. *)
Definition universal_newlines (raw : str) : str :=
  replace (replace raw [CR; LF] [LF]) [CR] [LF].

(** [date(year, month, day).isoformat()] *)
Definition isoformat (year month day : Z) : str :=
  zero_padded 4 year ++ lit "-" ++ zero_padded 2 month ++ lit "-"
  ++ zero_padded 2 day.

End Py.

Import Py.

(** The line separator every script uses. *)
Definition CRLF : str := [CR; LF].

(** [ics_text.replace("\r\n", "\n").replace("\r", "\n").split("\n")] *)
Definition normalized_lines (ics_text : str) : list str :=
  split (replace (replace ics_text [CR; LF] [LF]) [CR] [LF]) [LF].

(** [line.strip() == marker] *)
Definition is_marker (marker : string) (line : str) : bool :=
  bool_decide (strip line = lit marker).

(** How a run of a script's [main] ends: [sys.exit(code)], or the document
    written to the output file. *)
Inductive run := Exits (code : nat) | Writes (doc : str).

(** ** fetch_ercot_calendar.py *)

Module Ercot.

(** [date_range], given the year and month of [today]: the first day of this
    month and of the month [months_ahead] later, in ISO format.
    [date.replace] raises [ValueError], here [None], for a year outside 1 to
    9999. *)
Definition date_range (today_year today_month : Z) (months_ahead : Z)
  : option (str * str) :=
  let start_year := today_year in
  let start_month := today_month in
  let month := (start_month + months_ahead)%Z in
  let year := (start_year + (month - 1) / 12)%Z in
  let month := ((month - 1) mod 12 + 1)%Z in
  if ((1 <=? year) && (year <=? 9999))%Z
  then Some (isoformat start_year start_month 1, isoformat year month 1)
  else None.

(** The three loop variables of [extract_vevents]. *)
Record scan := Scan { vevents : list str; buf : list str; inside : bool }.

(** One iteration of the [for line in lines] loop. *)
Definition scan_line (st : scan) (line : str) : scan :=
  let st1 :=
    if is_marker "BEGIN:VEVENT" line
    then Scan (vevents st) [] true
    else st in
  let st2 :=
    if inside st1
    then Scan (vevents st1) (buf st1 ++ [line]) true
    else st1 in
  if inside st2 && is_marker "END:VEVENT" line
  then Scan (vevents st2 ++ [join CRLF (buf st2)]) (buf st2) false
  else st2.

Definition extract_vevents (ics_text : str) : list str :=
  vevents (fold_left scan_line (normalized_lines ics_text) (Scan [] [] false)).

Definition BATCH_SIZE : nat := 50.

(** The list that [build_merged_ics] joins into its header. *)
Definition header_lines : list str :=
  map lit
    [ "BEGIN:VCALENDAR"; "VERSION:2.0"; "PRODID:-//ERCOT Calendar Sync//EN";
      "CALSCALE:GREGORIAN"; "METHOD:PUBLISH"; "X-WR-CALNAME:ERCOT Events";
      "X-WR-TIMEZONE:America/Chicago"; "BEGIN:VTIMEZONE"; "TZID:America/Chicago";
      "BEGIN:STANDARD"; "DTSTART:19701101T020000";
      "RRULE:FREQ=YEARLY;BYMONTH=11;BYDAY=1SU"; "TZOFFSETFROM:-0500";
      "TZOFFSETTO:-0600"; "TZNAME:CST"; "END:STANDARD"; "BEGIN:DAYLIGHT";
      "DTSTART:19700308T020000"; "RRULE:FREQ=YEARLY;BYMONTH=3;BYDAY=2SU";
      "TZOFFSETFROM:-0600"; "TZOFFSETTO:-0500"; "TZNAME:CDT"; "END:DAYLIGHT";
      "END:VTIMEZONE" ].

Definition build_merged_ics (vevents : list str) : str :=
  let header := join CRLF header_lines in
  let footer := lit "END:VCALENDAR" in
  let body := join CRLF vevents in
  header ++ CRLF ++ body ++ CRLF ++ footer ++ CRLF.

(** [uuids[i:i + BATCH_SIZE] for i in range(0, len(uuids), BATCH_SIZE)] *)
Definition batches (uuids : list str) : list (list str) :=
  map (λ i, take BATCH_SIZE (drop i uuids)) (range 0 (length uuids) BATCH_SIZE).

Section Main.

(** What [fetch_ics_batch] returns for a batch of identifiers. *)
Variable fetch_ics_batch : list str → option str.

(** Body of the loop over the batches; [continue] leaves [all_vevents] as it
    is. *)
Definition add_batch (all_vevents : list str) (batch : list str) : list str :=
  let ics_text := fetch_ics_batch batch in
  if negb (truthy_opt ics_text) then all_vevents
  else all_vevents ++ extract_vevents (default [] ics_text).

(** [main] from the scraped identifiers on. *)
Definition main (uuids : list str) : run :=
  match uuids with
  | [] => Exits 0
  | _ =>
      match fold_left add_batch (batches uuids) [] with
      | [] => Exits 1
      | all_vevents => Writes (build_merged_ics all_vevents)
      end
  end.

End Main.

End Ercot.

(** ** fetch_caiso_calendar.py *)

Module Caiso.

(** [date_range], given the year and month of [today]: the first day of this
    month and of the month [months_ahead] later, in ISO format.
    [date.replace] raises [ValueError], here [None], for a year outside 1 to
    9999. *)
Definition date_range (today_year today_month : Z) (months_ahead : Z)
  : option (str * str) :=
  let start_year := today_year in
  let start_month := today_month in
  let month := (start_month + months_ahead)%Z in
  let year := (start_year + (month - 1) / 12)%Z in
  let month := ((month - 1) mod 12 + 1)%Z in
  if ((1 <=? year) && (year <=? 9999))%Z
  then Some (isoformat start_year start_month 1, isoformat year month 1)
  else None.

(** The loop of [extract_vevent], which returns from inside the loop; the
    buffer is never reset and [inside] never cleared. *)
Fixpoint scan_lines (buf : list str) (inside : bool) (lines : list str)
  : option str :=
  match lines with
  | [] => None
  | line :: rest =>
      let inside1 := if is_marker "BEGIN:VEVENT" line then true else inside in
      let buf1 := if inside1 then buf ++ [line] else buf in
      if inside1 && is_marker "END:VEVENT" line
      then Some (join CRLF buf1)
      else scan_lines buf1 inside1 rest
  end.

Definition extract_vevent (ics_text : str) : option str :=
  scan_lines [] false (normalized_lines ics_text).

Definition header : str :=
  join CRLF
    [ lit "BEGIN:VCALENDAR";
      lit "VERSION:2.0";
      lit "PRODID:-//CAISO Calendar Sync//EN";
      lit "CALSCALE:GREGORIAN";
      lit "METHOD:PUBLISH";
      lit "X-WR-CALNAME:CAISO Events";
      lit "X-WR-TIMEZONE:America/Los_Angeles" ].

Definition footer : str := lit "END:VCALENDAR".

Definition build_merged_ics (vevents : list str) : str :=
  let body := join CRLF vevents in
  header ++ CRLF ++ body ++ CRLF ++ footer ++ CRLF.

End Caiso.

(** ** fetch_nyiso_calendar.py *)

Module Nyiso.

(** [extract_vevents] is the same loop as in [fetch_ercot_calendar.py]. *)
Definition extract_vevents (ics_text : str) : list str :=
  Ercot.vevents
    (fold_left Ercot.scan_line (normalized_lines ics_text) (Ercot.Scan [] [] false)).

(** The loop of [extract_uid] over [vevent.split(CRLF)]; [line[4:]] is
    [drop 4 line]. *)
Fixpoint first_uid (lines : list str) : option str :=
  match lines with
  | [] => None
  | line :: rest =>
      if startswith line (lit "UID:") then Some (strip (drop 4 line))
      else first_uid rest
  end.

Definition extract_uid (vevent : str) : option str :=
  first_uid (split vevent CRLF).

(** The loop of [extract_vtimezone]: the buffer is reset at each begin
    marker, and the first closed block is returned. *)
Fixpoint scan_tz (buf : list str) (inside : bool) (lines : list str)
  : option str :=
  match lines with
  | [] => None
  | line :: rest =>
      let begins := is_marker "BEGIN:VTIMEZONE" line in
      let inside1 := if begins then true else inside in
      let buf0 := if begins then [] else buf in
      let buf1 := if inside1 then buf0 ++ [line] else buf0 in
      if inside1 && is_marker "END:VTIMEZONE" line
      then Some (join CRLF buf1)
      else scan_tz buf1 inside1 rest
  end.

Definition extract_vtimezone (ics_text : str) : option str :=
  scan_tz [] false (normalized_lines ics_text).

Definition header : str :=
  join CRLF
    [ lit "BEGIN:VCALENDAR";
      lit "VERSION:2.0";
      lit "PRODID:-//NYISO Calendar Sync//EN";
      lit "CALSCALE:GREGORIAN";
      lit "METHOD:PUBLISH";
      lit "X-WR-CALNAME:NYISO Events";
      lit "X-WR-TIMEZONE:America/New_York" ].

Definition footer : str := lit "END:VCALENDAR".

Definition build_merged_ics (vevents : list str) (vtimezone : option str) : str :=
  let parts := [header] in
  let parts := if truthy_opt vtimezone then parts ++ [default [] vtimezone] else parts in
  let parts := parts ++ vevents in
  let parts := parts ++ [footer] in
  join CRLF parts ++ CRLF.

(** The variables [main] keeps across feeds. *)
Record merge := Merge {
  seen_uids : gset str;
  all_vevents : list str;
  vtimezone : option str
}.

(** Body of [for ve in vevents]. *)
Definition add_vevent (st : merge) (ve : str) : merge :=
  match extract_uid ve with
  | Some uid =>
      if truthy uid && bool_decide (uid ∉ seen_uids st)
      then Merge ({[uid]} ∪ seen_uids st) (all_vevents st ++ [ve]) (vtimezone st)
      else st
  | None => st
  end.

(** Body of [for name, url in NYISO_ICS_FEEDS.items()], given what
    [fetch_ics_feed] returned for the feed. *)
Definition add_feed (st : merge) (fetched : option str) : merge :=
  if negb (truthy_opt fetched) then st
  else
    let ics_text := default [] fetched in
    let st1 :=
      match vtimezone st with
      | None => Merge (seen_uids st) (all_vevents st) (extract_vtimezone ics_text)
      | Some _ => st
      end in
    fold_left add_vevent (extract_vevents ics_text) st1.

Definition merge_feeds (feeds : list (option str)) : merge :=
  fold_left add_feed feeds (Merge ∅ [] None).

(** [main] from the fetched feeds on: [None] stands for [sys.exit(1)]. *)
Definition main (feeds : list (option str)) : option str :=
  let st := merge_feeds feeds in
  match all_vevents st with
  | [] => None
  | _ => Some (build_merged_ics (all_vevents st) (vtimezone st))
  end.

End Nyiso.

(** ** fetch_pjm_calendar.py *)

Module Pjm.

Definition extract_vevents (ics_text : str) : list str :=
  Ercot.vevents
    (fold_left Ercot.scan_line (normalized_lines ics_text) (Ercot.Scan [] [] false)).

Definition extract_uid (vevent : str) : option str :=
  Nyiso.first_uid (split vevent CRLF).

(** [\d] on code points below 256. *)
Definition is_digit (c : ascii) : bool :=
  let n := nat_of_ascii c in (48 <=? n) && (n <=? 57).

(** The greedy [[^:]*]: everything up to the first colon is consumed. *)
Fixpoint skip_non_colon (s : str) : str :=
  match s with
  | [] => []
  | c :: s' => if Ascii.eqb c ":"%char then s else skip_non_colon s'
  end.

(** [re.match(r"DTSTART[^:]*:(\d{8})", line)], returning group 1.  The colon
    of the pattern can only be the first one after the literal prefix, so
    backtracking finds no other match. *)
Definition match_dtstart (line : str) : option str :=
  if startswith line (lit "DTSTART") then
    match skip_non_colon (drop 7 line) with
    | _ :: tail =>
        let d := take 8 tail in
        if (length d =? 8) && forallb is_digit d then Some d else None
    | [] => None
    end
  else None.

Fixpoint first_dtstart (lines : list str) : option str :=
  match lines with
  | [] => None
  | line :: rest =>
      match match_dtstart line with
      | Some d => Some d
      | None => first_dtstart rest
      end
  end.

Definition extract_dtstart_date (vevent : str) : option str :=
  first_dtstart (split vevent CRLF).

(** [date_range], given the year and month of [today]: the first day of this
    month and of the month [months_ahead] later.  [date.replace] raises
    [ValueError], here [None], for a year outside 1 to 9999. *)
Definition date_range (today_year today_month : Z) (months_ahead : Z)
  : option (str * str) :=
  let start_year := today_year in
  let start_month := today_month in
  let month := (start_month + months_ahead)%Z in
  let year := (start_year + (month - 1) / 12)%Z in
  let month := ((month - 1) mod 12 + 1)%Z in
  if ((1 <=? year) && (year <=? 9999))%Z
  then Some (strftime_Ymd start_year start_month 1, strftime_Ymd year month 1)
  else None.

(** [start_yyyymmdd <= dtstart < end_yyyymmdd] on strings. *)
Definition in_window (start_yyyymmdd end_yyyymmdd dtstart : str) : bool :=
  str_le start_yyyymmdd dtstart && str_lt dtstart end_yyyymmdd.

Record merge := Merge { seen_uids : gset str; all_vevents : list str }.

(** Body of [for ve in vevents]; [continue] leaves the state as it is. *)
Definition add_vevent (start_yyyymmdd end_yyyymmdd : str) (st : merge) (ve : str)
  : merge :=
  let uid := extract_uid ve in
  let dtstart := extract_dtstart_date ve in
  match uid with
  | Some u =>
      if truthy u && bool_decide (u ∉ seen_uids st) then
        if truthy_opt dtstart
           && negb (in_window start_yyyymmdd end_yyyymmdd (default [] dtstart))
        then st
        else Merge ({[u]} ∪ seen_uids st) (all_vevents st ++ [ve])
      else st
  | None => st
  end.

Definition add_feed (start_yyyymmdd end_yyyymmdd : str) (st : merge)
  (fetched : option str) : merge :=
  if negb (truthy_opt fetched) then st
  else fold_left (add_vevent start_yyyymmdd end_yyyymmdd)
         (extract_vevents (default [] fetched)) st.

Definition merge_feeds (start_yyyymmdd end_yyyymmdd : str)
  (feeds : list (option str)) : merge :=
  fold_left (add_feed start_yyyymmdd end_yyyymmdd) feeds (Merge ∅ []).

(** The list that [build_merged_ics] joins into its header. *)
Definition header_lines : list str :=
  map lit
    [ "BEGIN:VCALENDAR"; "VERSION:2.0"; "PRODID:-//PJM Calendar Sync//EN";
      "CALSCALE:GREGORIAN"; "METHOD:PUBLISH"; "X-WR-CALNAME:PJM Events";
      "X-WR-TIMEZONE:America/New_York" ].

Definition build_merged_ics (vevents : list str) : str :=
  let header := join CRLF header_lines in
  let footer := lit "END:VCALENDAR" in
  let body := join CRLF vevents in
  header ++ CRLF ++ body ++ CRLF ++ footer ++ CRLF.

(** [main], given the year and month of today and what [fetch_ics_feed]
    returned for each feed; [None] stands for the [ValueError] of
    [date_range]. *)
Definition main (today_year today_month months : Z) (feeds : list (option str))
  : option run :=
  match date_range today_year today_month months with
  | None => None
  | Some (start_yyyymmdd, end_yyyymmdd) =>
      match all_vevents (merge_feeds start_yyyymmdd end_yyyymmdd feeds) with
      | [] => Some (Exits 1)
      | vevents => Some (Writes (build_merged_ics vevents))
      end
  end.

End Pjm.

(** ** JSON event objects and the exceptions the adapters can raise

    Field values are the JSON scalars; numbers are integers. *)

Inductive json := JNull | JBool (b : bool) | JInt (n : Z) | JStr (s : str).

Inductive exn := KeyError | AttributeError | TypeError.

Inductive result (A : Type) := Ok (a : A) | Raise (e : exn).
Arguments Ok {A} a.
Arguments Raise {A} e.

#[global] Instance result_ret : MRet result := λ A a, Ok a.
#[global] Instance result_bind : MBind result := λ A B f r,
  match r with Ok a => f a | Raise e => Raise e end.
#[global] Instance result_fmap : FMap result := λ A B f r,
  match r with Ok a => Ok (f a) | Raise e => Raise e end.

(** [bool(v)] *)
Definition json_truthy (v : json) : bool :=
  match v with
  | JNull => false
  | JBool b => b
  | JInt n => negb (n =? 0)%Z
  | JStr s => truthy s
  end.

(** [a == b]; a boolean equals the integer 0 or 1 it stands for. *)
Definition json_eq (a b : json) : bool :=
  match a, b with
  | JNull, JNull => true
  | JStr s, JStr t => bool_decide (s = t)
  | JBool x, JBool y => Bool.eqb x y
  | JInt n, JInt m => (n =? m)%Z
  | JBool x, JInt n | JInt n, JBool x => ((if x then 1 else 0) =? n)%Z
  | _, _ => false
  end.

(** [str(v)], as an f-string formats a value. *)
Definition py_str (v : json) : str :=
  match v with
  | JNull => lit "None"
  | JBool true => lit "True"
  | JBool false => lit "False"
  | JInt n => lit (pretty n)
  | JStr s => s
  end.

(** A string method called on [v]: only a [str] has it. *)
Definition as_str (v : json) : result str :=
  match v with JStr s => Ok s | _ => Raise AttributeError end.

(** [event.get(key, dflt)] *)
Definition get (event : gmap string json) (key : string) (dflt : json) : json :=
  default dflt (event !! key).

(** [v or ""] *)
Definition or_empty (v : json) : json :=
  if json_truthy v then v else JStr [].

(** [ics_escape], the same function in [fetch_isone_calendar.py] and
    [fetch_spp_calendar.py]. *)
Definition ics_escape (text : str) : str :=
  replace
    (replace
       (replace
          (replace text (lit "\") (lit "\\"))
          (lit ";") (lit "\;"))
       (lit ",") (lit "\,"))
    [LF] (lit "\n").

(** ** fetch_isone_calendar.py *)

Module Isone.

Definition ISONE_BASE : str := lit "https://www.iso-ne.com".

(** [date_range], given the year and month of [today]: the first day of this
    month and of the month [months_ahead] later, each formatted as in
    [f"{start}T00:00:00"].  [date.replace] raises [ValueError], here [None],
    for a year outside 1 to 9999. *)
Definition date_range (today_year today_month : Z) (months_ahead : Z)
  : option (str * str) :=
  let start_year := today_year in
  let start_month := today_month in
  let month := (start_month + months_ahead)%Z in
  let year := (start_year + (month - 1) / 12)%Z in
  let month := ((month - 1) mod 12 + 1)%Z in
  if ((1 <=? year) && (year <=? 9999))%Z
  then Some (isoformat start_year start_month 1 ++ lit "T00:00:00",
             isoformat year month 1 ++ lit "T00:00:00")
  else None.

(** [s.replace("-", "").replace(":", "").replace("T", "T") + "Z"] *)
Definition to_ics_utc (s : str) : str :=
  replace (replace (replace s (lit "-") []) (lit ":") []) (lit "T") (lit "T")
  ++ lit "Z".

Section BuildVevent.

(** [strip_html] rests on [re.sub] and [html.unescape]; it is taken as a
    function on strings.  [now] is the formatted generation stamp. *)
Variable strip_html : str → str.
Variable now : str.

Definition build_vevent (event : gmap string json) : result (option str) :=
  let eid := get event "event_id" (JStr []) in
  let title := get event "event_title" (JStr (lit "ISO-NE Event")) in
  let start_str := get event "event_start_date_gmt_str" (JStr []) in
  let end_str := get event "event_end_date_gmt_str" (JStr []) in
  let location := or_empty (get event "location" (JStr [])) in
  let contact := or_empty (get event "contact_name" (JStr [])) in
  let contact_email := or_empty (get event "contact_email" (JStr [])) in
  let cancelled := json_eq (get event "cancelled_flag" (JStr (lit "N"))) (JStr (lit "Y")) in
  let description_html := or_empty (get event "event_description" (JStr [])) in
  if negb (json_truthy start_str) || negb (json_truthy eid) then Ok None
  else
    dtstart ← to_ics_utc <$> as_str start_str;
    dtend ← (if json_truthy end_str
             then (λ s, Some (to_ics_utc s)) <$> as_str end_str
             else Ok None);
    let desc_parts := if cancelled then [lit "** CANCELLED **"] else [] in
    plain_desc ← match description_html with
                 | JStr s => Ok (strip_html s)
                 | _ => Raise TypeError
                 end;
    let desc_parts := if truthy plain_desc then desc_parts ++ [plain_desc] else desc_parts in
    let desc_parts :=
      if json_truthy contact then
        let contact_line := lit "Contact: " ++ py_str contact in
        let contact_line :=
          if json_truthy contact_email
          then contact_line ++ lit " (" ++ py_str contact_email ++ lit ")"
          else contact_line in
        desc_parts ++ [contact_line]
      else desc_parts in
    let desc_parts :=
      desc_parts ++ [ISONE_BASE ++ lit "/event-details?eventId=" ++ py_str eid] in
    let summary :=
      if cancelled then JStr (lit "[CANCELLED] " ++ py_str title) else title in
    let lines :=
      [ lit "BEGIN:VEVENT";
        lit "UID:" ++ py_str eid ++ lit "@iso-ne.com";
        lit "DTSTAMP:" ++ now;
        lit "DTSTART:" ++ dtstart ] in
    let lines :=
      if truthy_opt dtend then lines ++ [lit "DTEND:" ++ default [] dtend] else lines in
    esc_summary ← ics_escape <$> as_str summary;
    let lines := lines ++ [lit "SUMMARY:" ++ esc_summary] in
    lines ← (if json_truthy location
             then (λ l, lines ++ [lit "LOCATION:" ++ ics_escape l]) <$> as_str location
             else Ok lines);
    let lines := lines ++ [lit "DESCRIPTION:" ++ ics_escape (join [LF] desc_parts)] in
    let lines :=
      lines ++ [lit "URL:" ++ ISONE_BASE ++ lit "/event-details?eventId=" ++ py_str eid] in
    let lines := lines ++ [lit "END:VEVENT"] in
    Ok (Some (join CRLF lines)).

(** The loop of [main] over the events: an exception of [build_vevent]
    leaves the loop and the program. *)
Fixpoint collect (events : list (gmap string json)) (vevents : list str)
  : result (list str) :=
  match events with
  | [] => Ok vevents
  | event :: rest =>
      vevent ← build_vevent event;
      collect rest (if truthy_opt vevent then vevents ++ [default [] vevent] else vevents)
  end.

End BuildVevent.

(** The list that [build_merged_ics] joins into its header. *)
Definition header_lines : list str :=
  map lit
    [ "BEGIN:VCALENDAR"; "VERSION:2.0"; "PRODID:-//ISO-NE Calendar Sync//EN";
      "CALSCALE:GREGORIAN"; "METHOD:PUBLISH"; "X-WR-CALNAME:ISO-NE Events";
      "X-WR-TIMEZONE:America/New_York" ].

Definition build_merged_ics (vevents : list str) : str :=
  let header := join CRLF header_lines in
  let footer := lit "END:VCALENDAR" in
  let body := join CRLF vevents in
  header ++ CRLF ++ body ++ CRLF ++ footer ++ CRLF.

End Isone.

(** ** fetch_spp_calendar.py *)

Module Spp.

Definition SPP_BASE : str := lit "https://www.spp.org".

(** [date_range], given the year and month of [today]: the first day of this
    month and of the month [months_ahead] later, in ISO format.
    [date.replace] raises [ValueError], here [None], for a year outside 1 to
    9999. *)
Definition date_range (today_year today_month : Z) (months_ahead : Z)
  : option (str * str) :=
  let start_year := today_year in
  let start_month := today_month in
  let month := (start_month + months_ahead)%Z in
  let year := (start_year + (month - 1) / 12)%Z in
  let month := ((month - 1) mod 12 + 1)%Z in
  if ((1 <=? year) && (year <=? 9999))%Z
  then Some (isoformat start_year start_month 1, isoformat year month 1)
  else None.

(** [parse_dt]: [dt_str.split(".")[0]], then the two deletions. *)
Definition parse_dt (dt_str : str) : str :=
  let dt_str := default [] (head (split dt_str (lit "."))) in
  replace (replace (replace dt_str (lit "-") []) (lit ":") []) (lit "T") (lit "T").

(** [", ".join(p for p in location_parts if p)]: [join] accepts only
    strings. *)
Fixpoint join_truthy (parts : list json) : result (list str) :=
  match parts with
  | [] => Ok []
  | p :: rest =>
      if json_truthy p then
        match p with
        | JStr s => cons s <$> join_truthy rest
        | _ => Raise TypeError
        end
      else join_truthy rest
  end.

(** The list that [build_merged_ics] joins into its header. *)
Definition header_lines : list str :=
  map lit
    [ "BEGIN:VCALENDAR"; "VERSION:2.0"; "PRODID:-//SPP Calendar Sync//EN";
      "CALSCALE:GREGORIAN"; "METHOD:PUBLISH"; "X-WR-CALNAME:SPP Events";
      "X-WR-TIMEZONE:America/Chicago"; "BEGIN:VTIMEZONE"; "TZID:America/Chicago";
      "BEGIN:STANDARD"; "DTSTART:19701101T020000";
      "RRULE:FREQ=YEARLY;BYMONTH=11;BYDAY=1SU"; "TZOFFSETFROM:-0500";
      "TZOFFSETTO:-0600"; "TZNAME:CST"; "END:STANDARD"; "BEGIN:DAYLIGHT";
      "DTSTART:19700308T020000"; "RRULE:FREQ=YEARLY;BYMONTH=3;BYDAY=2SU";
      "TZOFFSETFROM:-0600"; "TZOFFSETTO:-0500"; "TZNAME:CDT"; "END:DAYLIGHT";
      "END:VTIMEZONE" ].

Definition build_merged_ics (vevents : list str) : str :=
  let header := join CRLF header_lines in
  let footer := lit "END:VCALENDAR" in
  let body := join CRLF vevents in
  header ++ CRLF ++ body ++ CRLF ++ footer ++ CRLF.

Section BuildVevent.

Variable now : str.

Definition build_vevent (event : gmap string json) : result str :=
  eid ← match event !! "id" with Some v => Ok v | None => Raise KeyError end;
  let title := get event "title" (JStr (lit "SPP Event")) in
  let alt_title := get event "alternateTitle" (JStr []) in
  let start := get event "start" (JStr []) in
  let end_ := get event "end" (JStr []) in
  let location_parts :=
    [get event "location" (JStr []); get event "city" (JStr []);
     get event "state" (JStr [])] in
  location ← join (lit ", ") <$> join_truthy location_parts;
  let url := get event "url" (JStr []) in
  url ← (if json_truthy url then
           (λ u, if startswith u (lit "http") then u else SPP_BASE ++ u) <$> as_str url
         else Ok []);
  dtstart ← (if json_truthy start then (λ s, Some (parse_dt s)) <$> as_str start
             else Ok None);
  dtend ← (if json_truthy end_ then (λ s, Some (parse_dt s)) <$> as_str end_
           else Ok None);
  if negb (truthy_opt dtstart) then Ok []
  else
    let lines :=
      [ lit "BEGIN:VEVENT";
        lit "UID:" ++ py_str eid ++ lit "@spp.org";
        lit "DTSTAMP:" ++ now;
        lit "DTSTART;TZID=America/Chicago:" ++ default [] dtstart ] in
    let lines :=
      if truthy_opt dtend
      then lines ++ [lit "DTEND;TZID=America/Chicago:" ++ default [] dtend]
      else lines in
    esc_title ← ics_escape <$> as_str title;
    let lines := lines ++ [lit "SUMMARY:" ++ esc_title] in
    lines ← (if json_truthy alt_title && negb (json_eq alt_title title)
             then (λ a, lines ++ [lit "DESCRIPTION:" ++ ics_escape a]) <$> as_str alt_title
             else Ok lines);
    let lines :=
      if truthy location then lines ++ [lit "LOCATION:" ++ ics_escape location]
      else lines in
    let lines := if truthy url then lines ++ [lit "URL:" ++ url] else lines in
    let lines := lines ++ [lit "END:VEVENT"] in
    Ok (join CRLF lines).

Fixpoint collect (events : list (gmap string json)) (vevents : list str)
  : result (list str) :=
  match events with
  | [] => Ok vevents
  | event :: rest =>
      vevent ← build_vevent event;
      collect rest (if truthy vevent then vevents ++ [vevent] else vevents)
  end.

(** [main] from the decoded list of events on. *)
Definition main (events : list (gmap string json)) : result run :=
  match events with
  | [] => Ok (Exits 0)
  | _ =>
      vevents ← collect events [];
      match vevents with
      | [] => Ok (Exits 1)
      | _ => Ok (Writes (build_merged_ics vevents))
      end
  end.

End BuildVevent.

End Spp.

(** ** fetch_miso_calendar.py *)

Module Miso.

(** The loop of [months_to_fetch], from the month and year of today on;
    [range(months_ahead)] is empty for a count that is not positive. *)
Fixpoint months_loop (n : nat) (m y : Z) : list (Z * Z) :=
  match n with
  | O => []
  | S n' =>
      let m1 := (m + 1)%Z in
      (m, y) :: (if (m1 >? 12)%Z then months_loop n' 1 (y + 1)
                 else months_loop n' m1 y)
  end.

Definition months_to_fetch (today_month today_year : Z) (months_ahead : Z)
  : list (Z * Z) :=
  months_loop (Z.to_nat months_ahead) today_month today_year.

(** [extract_vevent] is the same loop as in [fetch_caiso_calendar.py]. *)
Definition extract_vevent (ics_text : str) : option str :=
  Caiso.scan_lines [] false (normalized_lines ics_text).

(** The list that [build_merged_ics] joins into its header. *)
Definition header_lines : list str :=
  map lit
    [ "BEGIN:VCALENDAR"; "VERSION:2.0"; "PRODID:-//MISO Calendar Sync//EN";
      "CALSCALE:GREGORIAN"; "METHOD:PUBLISH"; "X-WR-CALNAME:MISO Events";
      "X-WR-TIMEZONE:America/New_York" ].

Definition build_merged_ics (vevents : list str) : str :=
  let header := join CRLF header_lines in
  let footer := lit "END:VCALENDAR" in
  let body := join CRLF vevents in
  header ++ CRLF ++ body ++ CRLF ++ footer ++ CRLF.

End Miso.

(** ** validate_feeds.py *)

Module Validate.

(** [re.findall(r"BEGIN:VEVENT.*?END:VEVENT", text, re.DOTALL)]: the leftmost
    begin text, lazily extended to the first end text behind it; the search
    resumes behind the match.  Where no end text follows, no later position
    matches either.  Each match consumes characters, so [length text] bounds
    the number of matches. *)
Fixpoint findall_go (fuel : nat) (text : str) : list str :=
  match fuel with
  | O => []
  | S fuel' =>
      match find text (lit "BEGIN:VEVENT") with
      | None => []
      | Some i =>
          let from_begin := drop i text in
          match find (drop 12 from_begin) (lit "END:VEVENT") with
          | None => []
          | Some j =>
              take (12 + j + 10) from_begin
              :: findall_go fuel' (drop (12 + j + 10) from_begin)
          end
      end
  end.

Definition findall_vevent (text : str) : list str :=
  findall_go (length text) text.

(** [text = r.stdout] for the output [raw] of curl: the pipe is read in text
    mode. *)
Definition stdout_text (raw : str) : str := universal_newlines raw.

Record report := Report {
  events : nat;
  status : str;
  issues : list str
}.

(** Body of the loop over [FEEDS] from the downloaded [text] on. *)
Definition validate (text : str) : report :=
  let events := count text (lit "BEGIN:VEVENT") in
  let events_end := count text (lit "END:VEVENT") in
  let has_vcal_start := startswith (strip text) (lit "BEGIN:VCALENDAR") in
  let has_vcal_end := endswith (strip text) (lit "END:VCALENDAR") in
  let has_version := contains (lit "VERSION:2.0") text in
  let has_prodid := contains (lit "PRODID:") text in
  let vevent_blocks := findall_vevent text in
  let missing_dtstart :=
    length (filter (λ v, contains (lit "DTSTART") v = false) vevent_blocks) in
  let missing_summary :=
    length (filter (λ v, contains (lit "SUMMARY") v = false) vevent_blocks) in
  let issues := [] in
  let issues :=
    if negb has_vcal_start then issues ++ [lit "missing BEGIN:VCALENDAR"] else issues in
  let issues :=
    if negb has_vcal_end then issues ++ [lit "missing END:VCALENDAR"] else issues in
  let issues :=
    if negb has_version then issues ++ [lit "missing VERSION:2.0"] else issues in
  let issues :=
    if negb has_prodid then issues ++ [lit "missing PRODID"] else issues in
  let issues :=
    if negb (events =? events_end)
    then issues ++ [lit "VEVENT mismatch: " ++ str_of_nat events ++ lit " begin vs "
                    ++ str_of_nat events_end ++ lit " end"]
    else issues in
  let issues :=
    if negb (missing_dtstart =? 0)
    then issues ++ [str_of_nat missing_dtstart ++ lit " events missing DTSTART"]
    else issues in
  let issues :=
    if negb (missing_summary =? 0)
    then issues ++ [str_of_nat missing_summary ++ lit " events missing SUMMARY"]
    else issues in
  let status := match issues with [] => lit "PASS" | _ => lit "FAIL" end in
  Report events status issues.

End Validate.

(** ** Reference descriptions of the block scans

    The blocks are described here by position in the list of lines,
    without loop state; the scans above are compared with them. *)

Module BlockSpec.

Definition is_begin (line : str) : bool := is_marker "BEGIN:VEVENT" line.
Definition is_end (line : str) : bool := is_marker "END:VEVENT" line.

(** The lines up to and including the next end marker, when no begin marker
    comes before it. *)
Fixpoint closing (lines : list str) : option (list str) :=
  match lines with
  | [] => None
  | l :: rest =>
      if is_end l then Some [l]
      else if is_begin l then None
      else cons l <$> closing rest
  end.

(** One block per begin-marker line whose next marker line is an end marker:
    the lines from the one to the other, in source order. *)
Fixpoint terminated_blocks (lines : list str) : list (list str) :=
  match lines with
  | [] => []
  | l :: rest =>
      (if is_begin l
       then match closing rest with Some b => [l :: b] | None => [] end
       else [])
      ++ terminated_blocks rest
  end.

(** The lines up to and including the next end marker, whatever lies
    between. *)
Fixpoint upto_end (lines : list str) : option (list str) :=
  match lines with
  | [] => None
  | l :: rest => if is_end l then Some [l] else cons l <$> upto_end rest
  end.

(** From the first begin-marker line to the first end-marker line behind
    it. *)
Fixpoint first_span (lines : list str) : option (list str) :=
  match lines with
  | [] => None
  | l :: rest => if is_begin l then cons l <$> upto_end rest else first_span rest
  end.

(** A block opens with a begin-marker line, closes with an end-marker line
    and has no marker line in between. *)
Definition well_delimited (block : list str) : Prop :=
  ∃ first middle last,
    block = first :: middle ++ [last]
    ∧ is_begin first = true
    ∧ is_end last = true
    ∧ Forall (λ l, is_begin l = false ∧ is_end l = false) middle.

End BlockSpec.

Import BlockSpec.

(** ** Example inputs *)

Module Examples.

(** [lines] joined by a bare line feed. *)
Definition text_of (lines : list string) : str := join [LF] (map lit lines).

(** A begin marker, a content line, a second begin marker, and the end. *)
Definition reopened_block : str :=
  text_of ["BEGIN:VEVENT"; "SUMMARY:first"; "BEGIN:VEVENT"; "SUMMARY:second";
           "END:VEVENT"].

(** An event block with the given UID and summary. *)
Definition event (uid summary : string) : str :=
  join CRLF [lit "BEGIN:VEVENT"; lit "UID:" ++ lit uid;
             lit "SUMMARY:" ++ lit summary; lit "END:VEVENT"].

(** A feed: a calendar around the given blocks. *)
Definition feed (blocks : list str) : str :=
  join CRLF ([lit "BEGIN:VCALENDAR"; lit "VERSION:2.0"] ++ blocks
             ++ [lit "END:VCALENDAR"]) ++ CRLF.

(** Identities a, b, a, c, b over two feeds, with a feed in between that
    could not be fetched. *)
Definition abacb_feeds : list (option str) :=
  [ Some (feed [event "a" "first a"; event "b" "first b"; event "a" "second a"]);
    None;
    Some (feed [event "c" "first c"; event "b" "second b"]) ].

(** An event block with a UID and a start date. *)
Definition dated_event (uid dtstart : string) : str :=
  join CRLF [lit "BEGIN:VEVENT"; lit "UID:" ++ lit uid;
             lit "DTSTART;VALUE=DATE:" ++ lit dtstart;
             lit "SUMMARY:dated"; lit "END:VEVENT"].

(** A timezone-definition block. *)
Definition eastern_timezone : str :=
  join CRLF [lit "BEGIN:VTIMEZONE"; lit "TZID:America/New_York";
             lit "END:VTIMEZONE"].

(** An event block with a UID and a start date but no summary. *)
Definition unnamed_event (uid dtstart : string) : str :=
  join CRLF [lit "BEGIN:VEVENT"; lit "UID:" ++ lit uid;
             lit "DTSTART;VALUE=DATE:" ++ lit dtstart; lit "END:VEVENT"].

(** A document with a header, a timezone block and two complete events. *)
Definition complete_document : str :=
  Nyiso.build_merged_ics
    [dated_event "a" "20260301"; dated_event "b" "20260302"]
    (Some eastern_timezone).

(** The same document with the summary of the second event removed. *)
Definition summary_removed_document : str :=
  Nyiso.build_merged_ics
    [dated_event "a" "20260301"; unnamed_event "b" "20260302"]
    (Some eastern_timezone).

End Examples.

(** ** Reference description of the merge *)

Module MergeSpec.

(** The identity of a block: its UID, when there is one and it is not
    empty. *)
Definition identity (ve : str) : option str :=
  match Nyiso.extract_uid ve with
  | Some uid => if truthy uid then Some uid else None
  | None => None
  end.

(** The payloads whose identity is not among the identities [earlier] of the
    pairs before them. *)
Fixpoint first_occurrences (earlier : list str) (ves : list str) : list str :=
  match ves with
  | [] => []
  | ve :: rest =>
      match identity ve with
      | Some uid =>
          (if bool_decide (uid ∈ earlier) then [] else [ve])
          ++ first_occurrences (earlier ++ [uid]) rest
      | None => first_occurrences earlier rest
      end
  end.

(** The batches of blocks, one per feed that was fetched. *)
Definition batches (feeds : list (option str)) : list (list str) :=
  map (λ fetched, Nyiso.extract_vevents (default [] fetched))
      (filter (λ fetched, truthy_opt fetched = true) feeds).

(** A block passes the date window unless it has a start date outside it. *)
Definition passes_window (start_yyyymmdd end_yyyymmdd : str) (ve : str) : bool :=
  match Pjm.extract_dtstart_date ve with
  | Some d => negb (truthy d) || Pjm.in_window start_yyyymmdd end_yyyymmdd d
  | None => true
  end.

End MergeSpec.

Import MergeSpec.

(** ** Reference descriptions for escaping and timestamps *)

Module TextSpec.

(** What escaping does to one character. *)
Definition escape_char (c : ascii) : str :=
  if Ascii.eqb c "\"%char then lit "\\"
  else if Ascii.eqb c ";"%char then lit "\;"
  else if Ascii.eqb c ","%char then lit "\,"
  else if Ascii.eqb c LF then lit "\n"
  else [c].

(** The inverse unescape that the spec speaks of; the scripts only escape.
    A backslash and the character behind it stand for that character, or for
    a line feed when it is the letter n. *)
Fixpoint ics_unescape (s : str) : str :=
  match s with
  | [] => []
  | c :: rest =>
      if Ascii.eqb c "\"%char then
        match rest with
        | [] => [c]
        | e :: rest' =>
            (if Ascii.eqb e "n"%char then LF else e) :: ics_unescape rest'
        end
      else c :: ics_unescape rest
  end.

(** The part of [s] before the first [c]. *)
Fixpoint before (c : ascii) (s : str) : str :=
  match s with
  | [] => []
  | x :: s' => if Ascii.eqb c x then [] else x :: before c s'
  end.

(** A source timestamp with a fraction of a second. *)
Definition fractional_timestamp : str := lit "2026-02-26T08:30:00.000".

(** An ISO-NE event that starts at [fractional_timestamp]. *)
Definition isone_fractional_event : gmap string json :=
  {[ "event_id" := JInt 7; "event_title" := JStr (lit "Meeting");
     "event_start_date_gmt_str" := JStr fractional_timestamp ]}.

(** An SPP event object with a start and a title but no ["id"] key. *)
Definition spp_event_without_id : gmap string json :=
  {[ "title" := JStr (lit "Board meeting");
     "start" := JStr (lit "2026-02-26T08:30:00.0000000") ]}.

(** A complete SPP event object. *)
Definition spp_event_complete : gmap string json :=
  {[ "id" := JInt 12; "title" := JStr (lit "Board meeting");
     "start" := JStr (lit "2026-02-26T08:30:00.0000000") ]}.

(** An SPP event object whose identity is the empty string. *)
Definition spp_event_empty_id : gmap string json :=
  {[ "id" := JStr []; "start" := JStr (lit "2026-02-26T08:30:00.0000000") ]}.

(** An ISO-NE event object with a start and a title but no ["event_id"]. *)
Definition isone_event_without_id : gmap string json :=
  {[ "event_title" := JStr (lit "Meeting");
     "event_start_date_gmt_str" := JStr (lit "2026-02-26T08:30:00") ]}.

End TextSpec.

Import TextSpec.

(** ** Reference description of well-formed documents *)

Module DocumentSpec.

Definition BEGIN_VEVENT : str := lit "BEGIN:VEVENT".
Definition END_VEVENT : str := lit "END:VEVENT".

(** The text behind a line when [lines] follow it: each of them preceded by
    the separator. *)
Fixpoint tail_text (sep : str) (lines : list str) : str :=
  match lines with
  | [] => []
  | l :: rest => sep ++ l ++ tail_text sep rest
  end.

(** The text behind a line is empty or begins with CR. *)
Definition separated (R : str) : Prop := R = [] ∨ ∃ R', R = CR :: R'.

(** A line without line-ending characters in which the event marker texts
    occur only as the whole line. *)
Definition clean_line (l : str) : Prop :=
  (CR ∉ l) ∧ (LF ∉ l)
  ∧ (l = BEGIN_VEVENT ∨ l = END_VEVENT
     ∨ (contains BEGIN_VEVENT l = false ∧ contains END_VEVENT l = false)).

(** No begin-marker line inside an open block: [open] tells whether a begin
    marker is waiting for its end marker. *)
Fixpoint well_nested (open : bool) (lines : list str) : bool :=
  match lines with
  | [] => true
  | l :: rest =>
      if is_begin l then negb open && well_nested true rest
      else if is_end l then well_nested false rest
      else well_nested open rest
  end.

(** The pattern search of the validator once the begin text has been
    matched and [matched] collected: the lazy extension to the first end
    text in [text], and the search behind it. *)
Definition findall_from_begin (matched text : str) : list str :=
  match find text END_VEVENT with
  | None => []
  | Some j =>
      (matched ++ take (j + 10) text)
      :: Validate.findall_vevent (drop (j + 10) text)
  end.

(** Marker text inside a description line. *)
Definition marker_inside_line : str :=
  lit "DESCRIPTION:between BEGIN:VEVENT and END:VEVENT".

(** One complete event, its lines separated by bare line feeds. *)
Definition line_feed_event : str :=
  Examples.text_of ["BEGIN:VEVENT"; "DTSTART:20260301"; "SUMMARY:x"; "END:VEVENT"].

(** A small calendar as its lines. *)
Definition small_calendar_lines : list str :=
  map lit ["BEGIN:VCALENDAR"; "VERSION:2.0"; "BEGIN:VEVENT"; "DTSTART:20260301";
           "SUMMARY:x"; "END:VEVENT"; "END:VCALENDAR"].

End DocumentSpec.

Import DocumentSpec.

(** ** Reference descriptions for built documents *)

Module BuildSpec.

(** A line that holds no line-ending character. *)
Definition line_safe (l : str) : Prop := (CR ∉ l) ∧ (LF ∉ l).

(** A line that is neither event marker. *)
Definition plain_line (l : str) : Prop := is_begin l = false ∧ is_end l = false.

(** The lines of the body of a document built as header, separator, body:
    without blocks the body is one empty line. *)
Definition body_lines (blocks : list (list str)) : list str :=
  match blocks with
  | [] => [[]]
  | _ => concat blocks
  end.

(** The header lines of [fetch_caiso_calendar.py] and
    [fetch_nyiso_calendar.py]. *)
Definition caiso_header_lines : list str :=
  [ lit "BEGIN:VCALENDAR"; lit "VERSION:2.0";
    lit "PRODID:-//CAISO Calendar Sync//EN"; lit "CALSCALE:GREGORIAN";
    lit "METHOD:PUBLISH"; lit "X-WR-CALNAME:CAISO Events";
    lit "X-WR-TIMEZONE:America/Los_Angeles" ].

Definition nyiso_header_lines : list str :=
  [ lit "BEGIN:VCALENDAR"; lit "VERSION:2.0";
    lit "PRODID:-//NYISO Calendar Sync//EN"; lit "CALSCALE:GREGORIAN";
    lit "METHOD:PUBLISH"; lit "X-WR-CALNAME:NYISO Events";
    lit "X-WR-TIMEZONE:America/New_York" ].

(** Two event blocks as lists of lines, the second with padded markers. *)
Definition two_blocks : list (list str) :=
  [ map lit ["BEGIN:VEVENT"; "UID:a"; "SUMMARY:first"; "END:VEVENT"];
    map lit ["  BEGIN:VEVENT"; "UID:b"; "END:VEVENT  "] ].

(** A line of an event block that holds no line-ending character and no
    event marker text. *)
Definition clean_plain (l : str) : Prop :=
  (CR ∉ l) ∧ (LF ∉ l)
  ∧ contains BEGIN_VEVENT l = false ∧ contains END_VEVENT l = false.

(** An event block whose markers are exactly the marker texts and whose
    other lines are clean. *)
Definition clean_block (b : list str) : Prop :=
  ∃ middle, b = BEGIN_VEVENT :: middle ++ [END_VEVENT] ∧ Forall clean_plain middle.

(** An event block in which the validator finds the two required fields. *)
Definition has_required_fields (b : list str) : Prop :=
  contains (lit "DTSTART") (join CRLF b) = true
  ∧ contains (lit "SUMMARY") (join CRLF b) = true.

(** Two complete event blocks as lists of lines. *)
Definition two_complete_blocks : list (list str) :=
  [ map lit ["BEGIN:VEVENT"; "UID:a"; "DTSTART:20260301T090000Z";
             "SUMMARY:first"; "END:VEVENT"];
    map lit ["BEGIN:VEVENT"; "UID:b"; "DTSTART;VALUE=DATE:20260302";
             "SUMMARY:second"; "END:VEVENT"] ].

(** The lines of a timezone-definition block. *)
Definition eastern_timezone_lines : list str :=
  map lit ["BEGIN:VTIMEZONE"; "TZID:America/New_York"; "END:VTIMEZONE"].

End BuildSpec.

Import BuildSpec.

(** ** Reference description of the timezone scan *)

Module TimezoneSpec.

Definition is_tz_begin (line : str) : bool := is_marker "BEGIN:VTIMEZONE" line.
Definition is_tz_end (line : str) : bool := is_marker "END:VTIMEZONE" line.

(** The lines up to and including the next timezone end marker, when no
    timezone begin marker comes before it. *)
Fixpoint tz_closing (lines : list str) : option (list str) :=
  match lines with
  | [] => None
  | l :: rest =>
      if is_tz_end l then Some [l]
      else if is_tz_begin l then None
      else cons l <$> tz_closing rest
  end.

(** One block per timezone begin marker whose next timezone marker is an end
    marker. *)
Fixpoint tz_blocks (lines : list str) : list (list str) :=
  match lines with
  | [] => []
  | l :: rest =>
      (if is_tz_begin l
       then match tz_closing rest with Some b => [l :: b] | None => [] end
       else [])
      ++ tz_blocks rest
  end.

Definition tz_well_delimited (block : list str) : Prop :=
  ∃ first middle last,
    block = first :: middle ++ [last]
    ∧ is_tz_begin first = true
    ∧ is_tz_end last = true
    ∧ Forall (λ l, is_tz_begin l = false ∧ is_tz_end l = false) middle.

(** The timezone block of the first fetched feed that has one. *)
Fixpoint first_timezone (feeds : list (option str)) : option str :=
  match feeds with
  | [] => None
  | fetched :: rest =>
      if truthy_opt fetched then
        match Nyiso.extract_vtimezone (default [] fetched) with
        | Some tz => Some tz
        | None => first_timezone rest
        end
      else first_timezone rest
  end.

End TimezoneSpec.

Import TimezoneSpec.

(** ** Reference description of dates as numbers *)

Module DateSpec.

(** The number a string of decimal digits denotes, [int(d)]. *)
Fixpoint decimal (d : str) : Z :=
  match d with
  | [] => 0
  | c :: d' =>
      ((Z.of_nat (nat_of_ascii c) - 48) * 10 ^ Z.of_nat (length d') + decimal d')%Z
  end.

(** The number of a date written as year, month and day. *)
Definition yyyymmdd (year month day : Z) : Z :=
  (year * 10000 + month * 100 + day)%Z.

(** A string of the digits 0 to 9. *)
Definition ascii_digits (d : str) : Prop :=
  Forall (λ c, 48 ≤ nat_of_ascii c ≤ 57) d.

(** One feed with one event dated 15 December 2026. *)
Definition december_feeds : list (option str) :=
  [Some (Examples.feed [Examples.dated_event "x" "20261215"])].

End DateSpec.

Import DateSpec.

(** ** Reference description of regular event objects *)

Module AdapterSpec.

Definition VEVENT : str := lit "VEVENT".

(** Text that can stand in a line as it is: it holds no line-ending
    character, and the text VEVENT does not occur in it. *)
Definition line_text (s : str) : Prop :=
  (CR ∉ s) ∧ (LF ∉ s) ∧ contains VEVENT s = false.

(** Text that can stand in a line once escaped: line feeds are allowed. *)
Definition free_text (s : str) : Prop := (CR ∉ s) ∧ contains VEVENT s = false.

(** A timestamp as the sources send it: digits and the characters
    [-], [:], [T] and [.]. *)
Definition stamp_text (s : str) : Prop :=
  Forall (λ c, Pjm.is_digit c = true ∨ c ∈ lit "-:T.") s.

(** The key is absent, or holds a string with the property [P]. *)
Definition field (event : gmap string json) (key : string) (P : str → Prop)
  : Prop :=
  match event !! key with
  | None => True
  | Some (JStr s) => P s
  | Some _ => False
  end.

(** The string under [key], or [dflt]. *)
Definition text_of_field (event : gmap string json) (key : string) (dflt : str)
  : str :=
  match event !! key with
  | Some (JStr s) => s
  | _ => dflt
  end.

(** An SPP event object with an identity, whose other fields, where present,
    are strings of the expected kind. *)
Definition spp_regular (event : gmap string json) : Prop :=
  (∃ eid, event !! "id" = Some eid ∧ line_text (py_str eid))
  ∧ field event "title" free_text
  ∧ field event "alternateTitle" free_text
  ∧ field event "start" stamp_text
  ∧ field event "end" stamp_text
  ∧ field event "location" free_text
  ∧ field event "city" free_text
  ∧ field event "state" free_text
  ∧ field event "url" line_text.

(** The start of an SPP event as [build_vevent] writes it. *)
Definition spp_start (event : gmap string json) : str :=
  Spp.parse_dt (text_of_field event "start" []).

(** The identity line value that [build_vevent] gives an SPP event. *)
Definition spp_uid (event : gmap string json) : str :=
  match event !! "id" with
  | Some eid => py_str eid ++ lit "@spp.org"
  | None => []
  end.

(** A generation stamp. *)
Definition stamp_20261104 : str := lit "20261104T120000Z".

(** Two regular SPP event objects, the second without a start. *)
Definition spp_two_events : list (gmap string json) :=
  [ {[ "id" := JInt 12; "title" := JStr (lit "Board, and members");
       "start" := JStr (lit "2026-02-26T08:30:00.0000000");
       "end" := JStr (lit "2026-02-26T10:00:00.0000000");
       "city" := JStr (lit "Little Rock"); "state" := JStr (lit "AR");
       "url" := JStr (lit "/events/12") ]};
    {[ "id" := JInt 13; "title" := JStr (lit "Undated") ]} ].

End AdapterSpec.

Import AdapterSpec.

(** * Properties *)

(** ** The block scans *)

Lemma begin_not_end l : is_begin l = true → is_end l = false.
Proof.
  unfold is_begin, is_end, is_marker. intros Hb.
  apply bool_decide_eq_true in Hb. rewrite Hb. reflexivity.
Qed.

Lemma scan_line_begin acc b i l :
  is_begin l = true →
  Ercot.scan_line (Ercot.Scan acc b i) l = Ercot.Scan acc [l] true.
Proof.
  intros Hb. pose proof (begin_not_end l Hb) as He.
  unfold is_begin, is_end in *. unfold Ercot.scan_line. cbn.
  rewrite Hb. cbn. rewrite He. reflexivity.
Qed.

Lemma scan_line_outside acc b l :
  is_begin l = false →
  Ercot.scan_line (Ercot.Scan acc b false) l = Ercot.Scan acc b false.
Proof.
  intros Hb. unfold is_begin in Hb. unfold Ercot.scan_line. cbn.
  rewrite Hb. reflexivity.
Qed.

Lemma scan_line_inside acc b l :
  is_begin l = false →
  Ercot.scan_line (Ercot.Scan acc b true) l =
    if is_end l
    then Ercot.Scan (acc ++ [join CRLF (b ++ [l])]) (b ++ [l]) false
    else Ercot.Scan acc (b ++ [l]) true.
Proof.
  intros Hb. unfold is_begin, is_end in *. unfold Ercot.scan_line. cbn.
  rewrite Hb. cbn. destruct (is_marker "END:VEVENT" l); reflexivity.
Qed.

(** The loop invariant of [extract_vevents], for both values of [inside]. *)
Lemma scan_fold lines : ∀ acc b,
  Ercot.vevents (fold_left Ercot.scan_line lines (Ercot.Scan acc b true))
  = acc
    ++ match closing lines with Some c => [join CRLF (b ++ c)] | None => [] end
    ++ map (join CRLF) (terminated_blocks lines)
  ∧ Ercot.vevents (fold_left Ercot.scan_line lines (Ercot.Scan acc b false))
    = acc ++ map (join CRLF) (terminated_blocks lines).
Proof.
  induction lines as [|l rest IH]; intros acc b.
  - cbn. rewrite app_nil_r. done.
  - cbn [fold_left closing terminated_blocks].
    destruct (is_begin l) eqn:Hb.
    + rewrite !scan_line_begin by done. rewrite (begin_not_end l Hb).
      destruct (IH acc [l]) as [-> _].
      destruct (closing rest); cbn; done.
    + rewrite scan_line_outside, scan_line_inside by done. cbn [app].
      destruct (is_end l) eqn:He.
      * destruct (IH (acc ++ [join CRLF (b ++ [l])]) (b ++ [l])) as [_ ->].
        destruct (IH acc b) as [_ ->]. rewrite <- app_assoc. done.
      * destruct (IH acc (b ++ [l])) as [-> _]. destruct (IH acc b) as [_ ->].
        destruct (closing rest); cbn; rewrite <- ?app_assoc; done.
Qed.

Lemma extract_vevents_blocks t :
  Ercot.extract_vevents t
  = map (join CRLF) (terminated_blocks (normalized_lines t)).
Proof.
  unfold Ercot.extract_vevents.
  destruct (scan_fold (normalized_lines t) [] []) as [_ ->]. done.
Qed.

Lemma closing_shape lines c :
  closing lines = Some c →
  ∃ middle last,
    c = middle ++ [last] ∧ is_end last = true
    ∧ Forall (λ l, is_begin l = false ∧ is_end l = false) middle.
Proof.
  revert c. induction lines as [|l rest IH]; intros c; cbn; [done|].
  destruct (is_end l) eqn:He.
  - intros [= <-]. exists [], l. repeat split; [done|constructor].
  - destruct (is_begin l) eqn:Hb; [done|].
    destruct (closing rest) as [c'|]; [|done]. intros [= <-].
    destruct (IH c' eq_refl) as (m & z & -> & Hz & Hm).
    exists (l :: m), z. repeat split; [done|by constructor].
Qed.

Lemma terminated_blocks_well_delimited lines :
  Forall well_delimited (terminated_blocks lines).
Proof.
  induction lines as [|l rest IH]; cbn; [constructor|].
  apply Forall_app. split; [|done].
  destruct (is_begin l) eqn:Hb; [|constructor].
  destruct (closing rest) as [c|] eqn:Hc; [|constructor].
  constructor; [|constructor].
  destruct (closing_shape _ _ Hc) as (m & z & -> & Hz & Hm).
  exists l, m, z. done.
Qed.

(** The loop invariant of the first-block scan. *)
Lemma scan_lines_spec lines : ∀ b,
  Caiso.scan_lines b true lines = (λ c, join CRLF (b ++ c)) <$> upto_end lines
  ∧ Caiso.scan_lines b false lines
    = (λ c, join CRLF (b ++ c)) <$> first_span lines.
Proof.
  induction lines as [|l rest IH]; intros b; [done|].
  cbn [Caiso.scan_lines upto_end first_span].
  fold (is_begin l) (is_end l). split.
  - replace (if is_begin l then true else true) with true by (by destruct (is_begin l)).
    cbn. destruct (is_end l); [done|].
    destruct (IH (b ++ [l])) as [-> _].
    destruct (upto_end rest); cbn; rewrite <- ?app_assoc; done.
  - destruct (is_begin l) eqn:Hb.
    + rewrite (begin_not_end l Hb). cbn.
      destruct (IH (b ++ [l])) as [-> _].
      destruct (upto_end rest); cbn; rewrite <- ?app_assoc; done.
    + cbn. by destruct (IH b) as [_ ->].
Qed.

Lemma closing_upto_end lines c : closing lines = Some c → upto_end lines = Some c.
Proof.
  revert c. induction lines as [|l rest IH]; intros c; cbn; [done|].
  destruct (is_end l); [done|]. destruct (is_begin l); [done|].
  destruct (closing rest) as [c'|]; [|done]. intros [= <-].
  by rewrite (IH c' eq_refl).
Qed.

Lemma upto_end_closing lines c :
  upto_end lines = Some c → Forall (λ l, is_begin l = false) c →
  closing lines = Some c.
Proof.
  revert c. induction lines as [|l rest IH]; intros c; cbn; [done|].
  destruct (is_end l) eqn:He; [done|].
  destruct (upto_end rest) as [c'|]; [|done]. intros [= <-] Hc.
  apply Forall_cons in Hc as [-> Hc]. by rewrite (IH c' eq_refl Hc).
Qed.

Lemma no_end_no_blocks lines : upto_end lines = None → terminated_blocks lines = [].
Proof.
  induction lines as [|l rest IH]; cbn; [done|].
  destruct (is_end l); [done|].
  destruct (upto_end rest) as [c|] eqn:Hu; [done|]. intros _.
  rewrite (IH eq_refl), app_nil_r.
  destruct (is_begin l); [|done].
  destruct (closing rest) as [c|] eqn:Hc; [|done].
  apply closing_upto_end in Hc. congruence.
Qed.

Lemma first_span_head lines b :
  first_span lines = Some b → Forall (λ l, is_begin l = false) (tail b) →
  head (terminated_blocks lines) = Some b.
Proof.
  revert b. induction lines as [|l rest IH]; intros b; cbn; [done|].
  destruct (is_begin l).
  - destruct (upto_end rest) as [c|] eqn:Hu; [|done]. intros [= <-] Hc. cbn in Hc.
    by rewrite (upto_end_closing _ _ Hu Hc).
  - cbn. apply IH.
Qed.

Lemma first_span_none lines : first_span lines = None → terminated_blocks lines = [].
Proof.
  induction lines as [|l rest IH]; cbn; [done|].
  destruct (is_begin l); [|by cbn].
  destruct (upto_end rest) as [c|] eqn:Hu; [done|]. intros _.
  rewrite (no_end_no_blocks _ Hu), app_nil_r.
  destruct (closing rest) as [c|] eqn:Hc; [|done].
  apply closing_upto_end in Hc. congruence.
Qed.

(** C1, as stated, fails: on a text whose first block is reopened by a second
    begin marker, first-block extraction returns the span from the first
    begin marker, while all-blocks extraction returns the span from the
    second; the former is not the first of the latter. *)
Lemma first_block_differs_from_head_of_all_blocks :
  Caiso.extract_vevent Examples.reopened_block
  = Some (join CRLF [lit "BEGIN:VEVENT"; lit "SUMMARY:first"; lit "BEGIN:VEVENT";
                     lit "SUMMARY:second"; lit "END:VEVENT"])
  ∧ Ercot.extract_vevents Examples.reopened_block
    = [join CRLF [lit "BEGIN:VEVENT"; lit "SUMMARY:second"; lit "END:VEVENT"]]
  ∧ Caiso.extract_vevent Examples.reopened_block
    ≠ head (Ercot.extract_vevents Examples.reopened_block).
Proof. vm_compute. repeat split; discriminate. Qed.

(** C1 (amended): on the normalized lines of any text, all-blocks extraction
    returns, in source order and joined with CRLF, one block per begin-marker
    line whose next marker line is an end marker; each block opens with the
    begin-marker line and closes with the end-marker line; first-block
    extraction returns the lines from the first begin-marker line to the
    first end-marker line behind it, or nothing; the two agree on the first
    block when no further begin marker lies inside that span, and both
    return nothing when no begin marker is followed by an end marker. *)
Theorem block_extraction (t : str) :
  let lines := normalized_lines t in
  Ercot.extract_vevents t = map (join CRLF) (terminated_blocks lines)
  ∧ Forall well_delimited (terminated_blocks lines)
  ∧ Caiso.extract_vevent t = join CRLF <$> first_span lines
  ∧ (∀ b, first_span lines = Some b →
          Forall (λ l, is_begin l = false) (tail b) →
          Caiso.extract_vevent t = head (Ercot.extract_vevents t))
  ∧ (first_span lines = None →
     Caiso.extract_vevent t = None ∧ Ercot.extract_vevents t = []).
Proof.
  intros lines.
  assert (Hfirst : Caiso.extract_vevent t = join CRLF <$> first_span lines).
  { unfold Caiso.extract_vevent. fold lines.
    destruct (scan_lines_spec lines []) as [_ ->].
    by destruct (first_span lines). }
  pose proof (extract_vevents_blocks t) as Hall. fold lines in Hall.
  split; [done|]. split; [apply terminated_blocks_well_delimited|].
  split; [done|]. split.
  - intros b Hb Hin. rewrite Hfirst, Hall, Hb.
    pose proof (first_span_head _ _ Hb Hin) as Hh.
    destruct (terminated_blocks lines) as [|b' bs]; [done|].
    cbn in *. congruence.
  - intros Hn. rewrite Hfirst, Hall, Hn, (first_span_none _ Hn). done.
Qed.

(** ** The deduplicating merge *)

Lemma identity_cases ve :
  match Nyiso.extract_uid ve with
  | Some uid => identity ve = if truthy uid then Some uid else None
  | None => identity ve = None
  end.
Proof. unfold identity. by destruct (Nyiso.extract_uid ve). Qed.

Lemma seen_add_new (uid : str) (earlier : list str) :
  {[uid]} ∪ list_to_set earlier =@{gset str} list_to_set (earlier ++ [uid]).
Proof.
  apply set_eq. intros x.
  rewrite elem_of_union, !elem_of_list_to_set, elem_of_app, elem_of_singleton,
    list_elem_of_singleton.
  tauto.
Qed.

Lemma seen_add_old (uid : str) (earlier : list str) :
  uid ∈ earlier →
  list_to_set earlier =@{gset str} list_to_set (earlier ++ [uid]).
Proof.
  intros Hin. apply set_eq. intros x.
  rewrite !elem_of_list_to_set, elem_of_app, list_elem_of_singleton.
  split; [tauto|]. intros [?| ->]; done.
Qed.

Lemma first_occurrences_app ves1 ves2 earlier :
  first_occurrences earlier (ves1 ++ ves2)
  = first_occurrences earlier ves1
    ++ first_occurrences (earlier ++ omap identity ves1) ves2.
Proof.
  revert earlier. induction ves1 as [|ve rest IH]; intros earlier; cbn.
  - by rewrite app_nil_r.
  - destruct (identity ve) as [uid|]; [|apply IH].
    rewrite IH. cbn. by rewrite <- !app_assoc.
Qed.

(** One iteration of the inner loop of NYISO's [main], with the seen set
    holding the identities met so far. *)
Lemma nyiso_add_vevent_step st ve earlier :
  Nyiso.seen_uids st = list_to_set earlier →
  Nyiso.seen_uids (Nyiso.add_vevent st ve)
  = list_to_set (earlier ++ omap identity [ve])
  ∧ Nyiso.all_vevents (Nyiso.add_vevent st ve)
    = Nyiso.all_vevents st ++ first_occurrences earlier [ve]
  ∧ Nyiso.vtimezone (Nyiso.add_vevent st ve) = Nyiso.vtimezone st.
Proof.
  intros Hseen. pose proof (identity_cases ve) as Hid.
  unfold Nyiso.add_vevent. cbn [omap list_omap first_occurrences].
  destruct (Nyiso.extract_uid ve) as [uid|]; rewrite Hid;
    [|by rewrite !app_nil_r].
  destruct (truthy uid); cbn [andb]; [|by rewrite !app_nil_r].
  rewrite Hseen. destruct (decide (uid ∈ earlier)) as [Hin|Hout].
  - rewrite bool_decide_eq_false_2 by (rewrite elem_of_list_to_set; tauto).
    rewrite (bool_decide_eq_true_2 _ Hin). cbn [app].
    rewrite app_nil_r, Hseen. split; [by apply seen_add_old|done].
  - rewrite bool_decide_eq_true_2 by (rewrite elem_of_list_to_set; tauto).
    rewrite (bool_decide_eq_false_2 _ Hout). cbn.
    split; [apply seen_add_new|done].
Qed.

Lemma nyiso_add_vevents ves : ∀ st earlier,
  Nyiso.seen_uids st = list_to_set earlier →
  Nyiso.seen_uids (fold_left Nyiso.add_vevent ves st)
  = list_to_set (earlier ++ omap identity ves)
  ∧ Nyiso.all_vevents (fold_left Nyiso.add_vevent ves st)
    = Nyiso.all_vevents st ++ first_occurrences earlier ves
  ∧ Nyiso.vtimezone (fold_left Nyiso.add_vevent ves st) = Nyiso.vtimezone st.
Proof.
  induction ves as [|ve rest IH]; intros st earlier Hseen.
  - cbn. by rewrite !app_nil_r.
  - cbn [fold_left].
    destruct (nyiso_add_vevent_step st ve earlier Hseen) as (Hs & Ha & Hz).
    destruct (IH _ _ Hs) as (Hs' & Ha' & Hz').
    rewrite Hs', Ha', Hz', Ha, Hz.
    change (ve :: rest) with ([ve] ++ rest).
    rewrite first_occurrences_app, omap_app, <- !app_assoc. done.
Qed.

(** The invariant of the outer loop over the feeds. *)
Lemma nyiso_add_feeds feeds : ∀ st earlier,
  Nyiso.seen_uids st = list_to_set earlier →
  Nyiso.all_vevents (fold_left Nyiso.add_feed feeds st)
  = Nyiso.all_vevents st ++ first_occurrences earlier (concat (batches feeds)).
Proof.
  induction feeds as [|fetched rest IH]; intros st earlier Hseen.
  - cbn. by rewrite app_nil_r.
  - cbn [fold_left]. unfold batches. rewrite filter_cons.
    unfold Nyiso.add_feed at 2.
    destruct (truthy_opt fetched) eqn:Ht; cbn [negb].
    + rewrite decide_True by done. cbn [map concat].
      set (st1 := match Nyiso.vtimezone st with
                  | Some _ => st | None => _ end).
      assert (Hseen1 : Nyiso.seen_uids st1 = list_to_set earlier)
        by (subst st1; by destruct (Nyiso.vtimezone st)).
      assert (Hall1 : Nyiso.all_vevents st1 = Nyiso.all_vevents st)
        by (subst st1; by destruct (Nyiso.vtimezone st)).
      destruct (nyiso_add_vevents (Nyiso.extract_vevents (default [] fetched))
                  st1 earlier Hseen1) as (Hs & Ha & _).
      rewrite (IH _ _ Hs), Ha, Hall1, first_occurrences_app, <- app_assoc. done.
    + rewrite decide_False by done. by apply IH.
Qed.

(** PJM's loop body is NYISO's behind the date window. *)
Lemma pjm_add_vevent_step start_ end_ st ve earlier :
  Pjm.seen_uids st = list_to_set earlier →
  let kept := filter (λ ve, passes_window start_ end_ ve = true) [ve] in
  Pjm.seen_uids (Pjm.add_vevent start_ end_ st ve)
  = list_to_set (earlier ++ omap identity kept)
  ∧ Pjm.all_vevents (Pjm.add_vevent start_ end_ st ve)
    = Pjm.all_vevents st ++ first_occurrences earlier kept.
Proof.
  intros Hseen kept. subst kept. rewrite filter_cons, filter_nil.
  pose proof (identity_cases ve) as Hid.
  unfold Pjm.add_vevent, passes_window, Pjm.extract_uid.
  unfold Nyiso.extract_uid in Hid.
  assert (Hskip :
    truthy_opt (Pjm.extract_dtstart_date ve)
    && negb (Pjm.in_window start_ end_ (default [] (Pjm.extract_dtstart_date ve)))
    = negb match Pjm.extract_dtstart_date ve with
           | Some d => negb (truthy d) || Pjm.in_window start_ end_ d
           | None => true
           end).
  { destruct (Pjm.extract_dtstart_date ve) as [d|]; [|done]. cbn.
    by destruct (truthy d), (Pjm.in_window start_ end_ d). }
  rewrite Hskip. clear Hskip.
  destruct (match Pjm.extract_dtstart_date ve with
            | Some d => _ | None => true end); cbn [negb].
  - rewrite decide_True by done. cbn [omap list_omap first_occurrences].
    destruct (Nyiso.first_uid (split ve CRLF)) as [uid|]; rewrite Hid;
      [|by rewrite !app_nil_r].
    destruct (truthy uid); cbn [andb]; [|by rewrite !app_nil_r].
    rewrite Hseen. destruct (decide (uid ∈ earlier)) as [Hin|Hout].
    + rewrite bool_decide_eq_false_2 by (rewrite elem_of_list_to_set; tauto).
      rewrite (bool_decide_eq_true_2 _ Hin). cbn [app].
      rewrite app_nil_r, Hseen. split; [by apply seen_add_old|done].
    + rewrite bool_decide_eq_true_2 by (rewrite elem_of_list_to_set; tauto).
      rewrite (bool_decide_eq_false_2 _ Hout). cbn.
      split; [apply seen_add_new|done].
  - rewrite decide_False by done. cbn. rewrite !app_nil_r.
    destruct (Nyiso.first_uid (split ve CRLF)) as [uid|]; [|done].
    by destruct (truthy uid && bool_decide (uid ∉ Pjm.seen_uids st)).
Qed.

Lemma pjm_add_vevents start_ end_ ves : ∀ st earlier,
  Pjm.seen_uids st = list_to_set earlier →
  let kept := filter (λ ve, passes_window start_ end_ ve = true) ves in
  Pjm.seen_uids (fold_left (Pjm.add_vevent start_ end_) ves st)
  = list_to_set (earlier ++ omap identity kept)
  ∧ Pjm.all_vevents (fold_left (Pjm.add_vevent start_ end_) ves st)
    = Pjm.all_vevents st ++ first_occurrences earlier kept.
Proof.
  induction ves as [|ve rest IH]; intros st earlier Hseen; cbn zeta.
  - cbn. by rewrite !app_nil_r.
  - cbn [fold_left].
    destruct (pjm_add_vevent_step start_ end_ st ve earlier Hseen) as (Hs & Ha).
    destruct (IH _ _ Hs) as (Hs' & Ha').
    rewrite Hs', Ha', Ha.
    change (ve :: rest) with ([ve] ++ rest).
    rewrite filter_app, first_occurrences_app, omap_app, <- !app_assoc. done.
Qed.

Lemma pjm_add_feeds start_ end_ feeds : ∀ st earlier,
  Pjm.seen_uids st = list_to_set earlier →
  Pjm.all_vevents (fold_left (Pjm.add_feed start_ end_) feeds st)
  = Pjm.all_vevents st
    ++ first_occurrences earlier
         (filter (λ ve, passes_window start_ end_ ve = true)
                 (concat (batches feeds))).
Proof.
  induction feeds as [|fetched rest IH]; intros st earlier Hseen.
  - cbn. by rewrite app_nil_r.
  - cbn [fold_left]. unfold batches. rewrite filter_cons.
    unfold Pjm.add_feed at 2.
    destruct (truthy_opt fetched) eqn:Ht; cbn [negb].
    + rewrite decide_True by done. cbn [map concat].
      destruct (pjm_add_vevents start_ end_
                  (Pjm.extract_vevents (default [] fetched))
                  st earlier Hseen) as (Hs & Ha).
      rewrite (IH _ _ Hs), Ha, filter_app, first_occurrences_app, <- app_assoc.
      done.
    + rewrite decide_False by done. by apply IH.
Qed.

Lemma first_occurrences_sublist ves : ∀ earlier,
  sublist (first_occurrences earlier ves) ves.
Proof.
  induction ves as [|ve rest IH]; intros earlier; cbn; [constructor|].
  destruct (identity ve) as [uid|]; [|by constructor].
  destruct (bool_decide (uid ∈ earlier)); cbn; by constructor.
Qed.

(** C2: over all feeds of a run, processed in sequence with one seen set, the
    merge returns the blocks whose identity was not met in any earlier block,
    as an ordered sub-sequence of the input; in PJM's merge the input is what
    passes the date window.  The identities a, b, a, c, b, spread over two
    feeds, yield the first a, the first b and c. *)
Theorem dedup_first_occurrence_wins (feeds : list (option str)) (start_ end_ : str) :
  Nyiso.all_vevents (Nyiso.merge_feeds feeds)
  = first_occurrences [] (concat (batches feeds))
  ∧ Pjm.all_vevents (Pjm.merge_feeds start_ end_ feeds)
    = first_occurrences []
        (filter (λ ve, passes_window start_ end_ ve = true) (concat (batches feeds)))
  ∧ sublist (Nyiso.all_vevents (Nyiso.merge_feeds feeds)) (concat (batches feeds))
  ∧ omap identity (concat (batches Examples.abacb_feeds))
    = [lit "a"; lit "b"; lit "a"; lit "c"; lit "b"]
  ∧ Nyiso.all_vevents (Nyiso.merge_feeds Examples.abacb_feeds)
    = [Examples.event "a" "first a"; Examples.event "b" "first b";
       Examples.event "c" "first c"]
  ∧ Pjm.all_vevents (Pjm.merge_feeds start_ end_ Examples.abacb_feeds)
    = [Examples.event "a" "first a"; Examples.event "b" "first b";
       Examples.event "c" "first c"].
Proof.
  assert (Hn : ∀ fs, Nyiso.all_vevents (Nyiso.merge_feeds fs)
                     = first_occurrences [] (concat (batches fs))).
  { intros fs. unfold Nyiso.merge_feeds. by rewrite (nyiso_add_feeds fs _ []). }
  assert (Hp : ∀ fs, Pjm.all_vevents (Pjm.merge_feeds start_ end_ fs)
                     = first_occurrences []
                         (filter (λ ve, passes_window start_ end_ ve = true)
                                 (concat (batches fs)))).
  { intros fs. unfold Pjm.merge_feeds. by rewrite (pjm_add_feeds _ _ fs _ []). }
  split; [apply Hn|]. split; [apply Hp|].
  split; [rewrite Hn; apply first_occurrences_sublist|].
  split; [by vm_compute|]. split; [rewrite Hn; by vm_compute|].
  rewrite Hp. by vm_compute.
Qed.

(** ** The date window of PJM's merge *)

Lemma str_lt_irrefl s : str_lt s s = false.
Proof.
  induction s as [|c s IH]; [done|]. cbn [str_lt].
  by rewrite Nat.ltb_irrefl, Nat.eqb_refl, IH.
Qed.

Lemma match_dtstart_length line d : Pjm.match_dtstart line = Some d → length d = 8.
Proof.
  unfold Pjm.match_dtstart.
  destruct (startswith line (lit "DTSTART")); [|done].
  destruct (Pjm.skip_non_colon (drop 7 line)) as [|c tail]; [done|].
  destruct (length (take 8 tail) =? 8) eqn:Hlen; [|done].
  destruct (forallb Pjm.is_digit (take 8 tail)); [|done].
  intros [= <-]. by apply Nat.eqb_eq.
Qed.


Lemma extract_dtstart_date_truthy ve d :
  Pjm.extract_dtstart_date ve = Some d → truthy d = true.
Proof.
  unfold Pjm.extract_dtstart_date.
  induction (split ve CRLF) as [|line rest IH]; cbn; [done|].
  destruct (Pjm.match_dtstart line) as [d'|] eqn:Hm; [|done].
  intros [= ->]. apply match_dtstart_length in Hm. by destruct d.
Qed.

(** What the loop body does with a block whose identity is new: the window
    decides. *)
Lemma pjm_add_new_uid start_ end_ st ve uid :
  Pjm.extract_uid ve = Some uid → truthy uid = true → uid ∉ Pjm.seen_uids st →
  Pjm.add_vevent start_ end_ st ve
  = match Pjm.extract_dtstart_date ve with
    | Some d =>
        if Pjm.in_window start_ end_ d
        then Pjm.Merge ({[uid]} ∪ Pjm.seen_uids st) (Pjm.all_vevents st ++ [ve])
        else st
    | None => Pjm.Merge ({[uid]} ∪ Pjm.seen_uids st) (Pjm.all_vevents st ++ [ve])
    end.
Proof.
  intros Hu Ht Hnew. unfold Pjm.add_vevent. rewrite Hu, Ht.
  rewrite (bool_decide_eq_true_2 _ Hnew). cbn [andb].
  destruct (Pjm.extract_dtstart_date ve) as [d|] eqn:Hd; [|done].
  cbn [truthy_opt default]. rewrite (extract_dtstart_date_truthy _ _ Hd).
  unfold id. by destruct (Pjm.in_window start_ end_ d).
Qed.


(** *** The window that [date_range] returns *)

Lemma nat_of_digit n : nat_of_ascii (digit n) = 48 + Z.to_nat (n mod 10).
Proof.
  unfold digit. apply nat_ascii_embedding.
  pose proof (Z.mod_pos_bound n 10). lia.
Qed.

Lemma length_zero_padded w : ∀ n, length (zero_padded w n) = w.
Proof.
  induction w as [|w IH]; intros n; [done|]. cbn [zero_padded].
  rewrite length_app, IH. cbn. lia.
Qed.

Lemma str_lt_app_l a : ∀ b c d,
  length a = length b → str_lt a b = true → str_lt (a ++ c) (b ++ d) = true.
Proof.
  induction a as [|x a IH]; intros [|y b] c d Hlen Hlt; try done.
  cbn [app str_lt] in *. apply orb_true_iff in Hlt as [Hlt | Hlt].
  - by rewrite Hlt.
  - apply andb_true_iff in Hlt as [Heq Hlt]. rewrite Heq.
    rewrite (IH b c d) by (done || by injection Hlen). apply orb_true_r.
Qed.

Lemma str_lt_app_same a c d : str_lt (a ++ c) (a ++ d) = str_lt c d.
Proof.
  induction a as [|x a IH]; [done|]. cbn [app str_lt].
  by rewrite Nat.ltb_irrefl, Nat.eqb_refl, IH.
Qed.

(** On zero-padded numbers of one width the string order is the order of
    the numbers. *)
Lemma zero_padded_lt w : ∀ a b,
  (0 ≤ a < b)%Z → (b < 10 ^ Z.of_nat w)%Z →
  str_lt (zero_padded w a) (zero_padded w b) = true.
Proof.
  induction w as [|w IH]; intros a b Hab Hb.
  - cbn in Hb. lia.
  - rewrite Nat2Z.inj_succ, Z.pow_succ_r in Hb by lia.
    cbn [zero_padded].
    pose proof (Z.div_mod a 10 ltac:(lia)) as Ha10.
    pose proof (Z.div_mod b 10 ltac:(lia)) as Hb10.
    pose proof (Z.mod_pos_bound a 10 ltac:(lia)) as Hamod.
    pose proof (Z.mod_pos_bound b 10 ltac:(lia)) as Hbmod.
    destruct (decide (a / 10 = b / 10)%Z) as [Heq | Hne].
    + rewrite Heq, str_lt_app_same. cbn [str_lt].
      rewrite !nat_of_digit.
      replace (48 + Z.to_nat (a mod 10) <? 48 + Z.to_nat (b mod 10)) with true;
        [done|]. symmetry. apply Nat.ltb_lt. lia.
    + apply str_lt_app_l; [by rewrite !length_zero_padded|].
      apply IH; lia.
Qed.

Lemma date_range_window today_year today_month months_ahead start_ end_ :
  (1000 ≤ today_year)%Z → (1 ≤ today_month ≤ 12)%Z → (1 ≤ months_ahead)%Z →
  Pjm.date_range today_year today_month months_ahead = Some (start_, end_) →
  str_lt start_ end_ = true.
Proof.
  intros Hy Hm Hmonths. unfold Pjm.date_range.
  set (total := (today_month + months_ahead - 1)%Z).
  pose proof (Z.div_mod total 12 ltac:(lia)) as Hdiv.
  pose proof (Z.mod_pos_bound total 12 ltac:(lia)) as Hmod.
  destruct ((1 <=? today_year + total / 12) && (today_year + total / 12 <=? 9999))%Z
    eqn:Hrange; [|done].
  intros [= <- <-]. apply andb_true_iff in Hrange as [_ Hmax].
  apply Z.leb_le in Hmax. unfold strftime_Ymd.
  destruct (decide (total / 12 = 0)%Z) as [Hq | Hq].
  - rewrite Hq, Z.add_0_r, str_lt_app_same.
    apply str_lt_app_l; [by rewrite !length_zero_padded|].
    apply zero_padded_lt; cbn; lia.
  - apply str_lt_app_l; [by rewrite !length_zero_padded|].
    apply zero_padded_lt; cbn; lia.
Qed.

(** With [months_ahead] zero the two boundaries coincide. *)
Lemma date_range_empty_window today_year today_month :
  (1 ≤ today_year ≤ 9999)%Z → (1 ≤ today_month ≤ 12)%Z →
  Pjm.date_range today_year today_month 0
  = Some (strftime_Ymd today_year today_month 1,
          strftime_Ymd today_year today_month 1).
Proof.
  intros Hy Hm. unfold Pjm.date_range. rewrite (Z.add_0_r today_month).
  rewrite (Z.div_small (today_month - 1) 12), (Z.mod_small (today_month - 1) 12)
    by lia.
  rewrite Z.add_0_r, Z.sub_add.
  replace ((1 <=? today_year) && (today_year <=? 9999))%Z with true; [done|].
  symmetry. apply andb_true_iff. split; apply Z.leb_le; lia.
Qed.

(** C8: for a block with a new identity and a start date [d], PJM's merge
    keeps the block exactly when [start <= d < end]; with [d] equal to the
    end boundary the block is dropped and the state, the seen set included,
    is unchanged; with [d] equal to the start boundary of a non-empty window
    the block is kept; the window of [date_range] is non-empty when
    [months_ahead] is at least one. *)
Theorem date_window_bounds (start_ end_ : str) (st : Pjm.merge) (ve uid d : str) :
  Pjm.extract_uid ve = Some uid → truthy uid = true → uid ∉ Pjm.seen_uids st →
  Pjm.extract_dtstart_date ve = Some d →
  let kept := Pjm.Merge ({[uid]} ∪ Pjm.seen_uids st) (Pjm.all_vevents st ++ [ve]) in
  Pjm.add_vevent start_ end_ st ve
  = (if str_le start_ d && str_lt d end_ then kept else st)
  ∧ (d = end_ →
     Pjm.add_vevent start_ end_ st ve = st
     ∧ Pjm.seen_uids (Pjm.add_vevent start_ end_ st ve) = Pjm.seen_uids st)
  ∧ (d = start_ → str_lt start_ end_ = true →
     Pjm.add_vevent start_ end_ st ve = kept)
  ∧ (∀ today_year today_month months_ahead s e,
       (1000 ≤ today_year)%Z → (1 ≤ today_month ≤ 12)%Z → (1 ≤ months_ahead)%Z →
       Pjm.date_range today_year today_month months_ahead = Some (s, e) →
       str_lt s e = true).
Proof.
  intros Hu Ht Hnew Hd kept.
  rewrite (pjm_add_new_uid start_ end_ st ve uid Hu Ht Hnew), Hd.
  unfold Pjm.in_window. split; [done|]. split; [|split].
  - intros ->. by rewrite str_lt_irrefl, andb_false_r.
  - intros -> Hlt. unfold str_le. by rewrite str_lt_irrefl, Hlt.
  - intros y m months s e. apply date_range_window.
Qed.

Lemma date_window_bounds_witness :
  let st := Pjm.Merge ∅ [] in
  let ve := Examples.dated_event "x" "20260301" in
  let start_ := lit "20260301" in
  let end_ := lit "20260601" in
  let kept := Pjm.Merge ({[lit "x"]} ∪ Pjm.seen_uids st) (Pjm.all_vevents st ++ [ve]) in
  Pjm.add_vevent start_ end_ st ve
  = (if str_le start_ start_ && str_lt start_ end_ then kept else st)
  ∧ (start_ = end_ →
     Pjm.add_vevent start_ end_ st ve = st
     ∧ Pjm.seen_uids (Pjm.add_vevent start_ end_ st ve) = Pjm.seen_uids st)
  ∧ (start_ = start_ → str_lt start_ end_ = true →
     Pjm.add_vevent start_ end_ st ve = kept)
  ∧ (∀ today_year today_month months_ahead s e,
       (1000 ≤ today_year)%Z → (1 ≤ today_month ≤ 12)%Z → (1 ≤ months_ahead)%Z →
       Pjm.date_range today_year today_month months_ahead = Some (s, e) →
       str_lt s e = true).
Proof.
  intros st ve start_ end_.
  apply (date_window_bounds start_ end_ st ve (lit "x") start_).
  - vm_compute. reflexivity.
  - reflexivity.
  - apply not_elem_of_empty.
  - vm_compute. reflexivity.
Defined.



(** ** String built-ins with a one-character pattern *)

Lemma startswith_char a s c : startswith (a :: s) [c] = Ascii.eqb c a.
Proof. cbn. apply andb_true_r. Qed.

Lemma replace_char s c new :
  replace s [c] new = s ≫= (λ x, if Ascii.eqb c x then new else [x]).
Proof.
  unfold replace. induction s as [|a s IH]; [done|].
  cbn [replace_from]. rewrite startswith_char. cbn [length Nat.sub].
  rewrite IH. cbn. by destruct (Ascii.eqb c a).
Qed.

Lemma replace_delete s c : replace s [c] [] = filter (λ x, x ≠ c) s.
Proof.
  rewrite replace_char. induction s as [|a s IH]; [done|].
  rewrite filter_cons. cbn [mbind list_bind]. rewrite IH.
  destruct (Ascii.eqb_spec c a) as [->|Hne].
  - by rewrite decide_False by (intros ?; done).
  - by rewrite decide_True by congruence.
Qed.

Lemma replace_same s c : replace s [c] [c] = s.
Proof.
  rewrite replace_char. induction s as [|a s IH]; [done|].
  cbn. rewrite IH. by destruct (Ascii.eqb_spec c a) as [->|Hne].
Qed.

Lemma split_char_head s c : ∀ cur,
  head (split_from 0 cur s [c]) = Some (cur ++ before c s).
Proof.
  induction s as [|a s IH]; intros cur.
  - cbn. by rewrite app_nil_r.
  - cbn [split_from before]. rewrite startswith_char.
    destruct (Ascii.eqb c a).
    + cbn. by rewrite app_nil_r.
    + rewrite IH, <- app_assoc. done.
Qed.

Lemma before_not_elem c s : c ∉ before c s.
Proof.
  induction s as [|a s IH]; cbn; [by apply not_elem_of_nil|].
  destruct (Ascii.eqb_spec c a) as [->|Hne]; [by apply not_elem_of_nil|].
  rewrite not_elem_of_cons. done.
Qed.

(** ** Escaping *)

Lemma ics_escape_chars s : ics_escape s = s ≫= escape_char.
Proof.
  unfold ics_escape.
  change (lit "\") with ["\"%char]. change (lit ";") with [";"%char].
  change (lit ",") with [","%char].
  rewrite !replace_char. induction s as [|a s IH]; [done|].
  cbn [mbind list_bind]. rewrite !bind_app, IH. f_equal.
  unfold escape_char.
  destruct (Ascii.eqb_spec a "\"%char) as [->|H1]; [done|].
  rewrite (proj2 (Ascii.eqb_neq _ _)) by congruence. cbn [mbind list_bind app].
  destruct (Ascii.eqb_spec a ";"%char) as [->|H2]; [done|].
  rewrite (proj2 (Ascii.eqb_neq _ _)) by congruence. cbn [mbind list_bind app].
  destruct (Ascii.eqb_spec a ","%char) as [->|H3]; [done|].
  rewrite (proj2 (Ascii.eqb_neq _ _)) by congruence. cbn [mbind list_bind app].
  destruct (Ascii.eqb_spec a LF) as [->|H4]; [done|].
  rewrite (proj2 (Ascii.eqb_neq _ _)) by congruence. done.
Qed.

Lemma unescape_escape_char a rest :
  ics_unescape (escape_char a ++ rest) = a :: ics_unescape rest.
Proof.
  unfold escape_char.
  destruct (Ascii.eqb_spec a "\"%char) as [->|H1]; [done|].
  destruct (Ascii.eqb_spec a ";"%char) as [->|H2]; [done|].
  destruct (Ascii.eqb_spec a ","%char) as [->|H3]; [done|].
  destruct (Ascii.eqb_spec a LF) as [->|H4]; [done|].
  cbn. by rewrite (proj2 (Ascii.eqb_neq _ _)) by congruence.
Qed.

Lemma unescape_escape s : ics_unescape (ics_escape s) = s.
Proof.
  rewrite ics_escape_chars. induction s as [|a s IH]; [done|].
  cbn [mbind list_bind]. rewrite unescape_escape_char. by f_equal.
Qed.

(** C5: [ics_escape] is the chain of the four replacements in the stated
    order; it escapes each character of the input once; the inverse unescape
    recovers every input, so the function is injective.  A string with a
    backslash before the letter n, a semicolon, a comma and a line feed is
    among the inputs. *)
Theorem ics_escape_round_trip :
  (∀ s, ics_escape s
        = replace (replace (replace (replace s (lit "\") (lit "\\"))
                                    (lit ";") (lit "\;"))
                           (lit ",") (lit "\,"))
                  [LF] (lit "\n"))
  ∧ (∀ s, ics_escape s = s ≫= escape_char)
  ∧ (∀ s, ics_unescape (ics_escape s) = s)
  ∧ (∀ s t, ics_escape s = ics_escape t → s = t)
  ∧ ics_escape (lit "a\nb;c,d" ++ [LF] ++ lit "\\e")
    = lit "a\\nb\;c\,d\n\\\\e".
Proof.
  split; [done|]. split; [apply ics_escape_chars|].
  split; [apply unescape_escape|]. split; [|by vm_compute].
  intros s t Heq. rewrite <- (unescape_escape s), <- (unescape_escape t).
  by rewrite Heq.
Qed.

(** ** Timestamps *)

Lemma parse_dt_chars s :
  Spp.parse_dt s
  = filter (λ x, x ≠ ":"%char) (filter (λ x, x ≠ "-"%char) (before "."%char s)).
Proof.
  unfold Spp.parse_dt, split.
  change (lit ".") with ["."%char]. change (lit "-") with ["-"%char].
  change (lit ":") with [":"%char]. change (lit "T") with ["T"%char].
  rewrite split_char_head. cbn [default from_option id app].
  by rewrite replace_same, !replace_delete.
Qed.

Lemma to_ics_utc_chars s :
  Isone.to_ics_utc s
  = filter (λ x, x ≠ ":"%char) (filter (λ x, x ≠ "-"%char) s) ++ lit "Z".
Proof.
  unfold Isone.to_ics_utc.
  change (lit "-") with ["-"%char]. change (lit ":") with [":"%char].
  change (lit "T") with ["T"%char].
  by rewrite replace_same, !replace_delete.
Qed.

(** C7: the claim holds of SPP's [parse_dt], which keeps only what precedes
    the first full stop of the source string, so that no value it returns has
    a fractional part.  The GMT conversion of ISO-NE, which its comment
    announces as a conversion to the ICS UTC format, only deletes hyphens and
    colons and appends Z: for a source string with a fraction of a second the
    fraction reaches the converted value and the DTSTART line of the block
    that [build_vevent] returns, where [parse_dt] gives the same instant
    without it. *)
Theorem isone_fraction_reaches_dtstart :
  (∀ s, "."%char ∉ Spp.parse_dt s)
  ∧ Spp.parse_dt fractional_timestamp = lit "20260226T083000"
  ∧ Isone.to_ics_utc fractional_timestamp = lit "20260226T083000.000Z"
  ∧ ("."%char ∈ Isone.to_ics_utc fractional_timestamp)
  ∧ Isone.build_vevent (λ html, html) (lit "20260101T000000Z") isone_fractional_event
    = Ok (Some (join CRLF
        [ lit "BEGIN:VEVENT";
          lit "UID:7@iso-ne.com";
          lit "DTSTAMP:20260101T000000Z";
          lit "DTSTART:20260226T083000.000Z";
          lit "SUMMARY:Meeting";
          lit "DESCRIPTION:https://www.iso-ne.com/event-details?eventId=7";
          lit "URL:https://www.iso-ne.com/event-details?eventId=7";
          lit "END:VEVENT" ])).
Proof.
  split.
  { intros s. rewrite parse_dt_chars, !list_elem_of_filter.
    intros (_ & _ & Hin). by apply (before_not_elem "."%char s). }
  split; [by vm_compute|]. split; [by vm_compute|]. split; [|by vm_compute].
  apply (bool_decide_unpack _). by vm_compute.
Qed.

(** ** The document builder *)

Lemma join_cons sep a l : l ≠ [] → join sep (a :: l) = a ++ sep ++ join sep l.
Proof. by destruct l. Qed.

Lemma join_snoc sep l z : l ≠ [] → join sep (l ++ [z]) = join sep l ++ sep ++ z.
Proof.
  induction l as [|a l IH]; [done|]. intros _.
  destruct l as [|b l]; [done|].
  change ((a :: b :: l) ++ [z]) with (a :: ((b :: l) ++ [z])).
  rewrite join_cons by done. rewrite IH by done.
  rewrite (join_cons sep a (b :: l)) by done. by rewrite <- !app_assoc.
Qed.

Lemma strip_nil_marker marker line :
  is_marker marker line = true → truthy (lit marker) = true → line ≠ [].
Proof.
  unfold is_marker. intros Hm Ht ->. apply bool_decide_eq_true in Hm.
  cbn in Hm. rewrite <- Hm in Ht. done.
Qed.

Lemma join_snoc_truthy sep l z : z ≠ [] → truthy (join sep (l ++ [z])) = true.
Proof.
  intros Hz. destruct l as [|a l]; [by destruct z|].
  change ((a :: l) ++ [z]) with (a :: (l ++ [z])).
  rewrite join_cons by (by destruct l).
  destruct a; [|done]. destruct sep; [|done]. cbn [app].
  induction l as [|a l IH]; [by destruct z|].
  change ((a :: l) ++ [z]) with (a :: (l ++ [z])).
  rewrite join_cons by (by destruct l). by destruct a.
Qed.

(** What [extract_vtimezone] returns is never the empty string. *)
Lemma scan_tz_truthy lines : ∀ b i tz,
  Nyiso.scan_tz b i lines = Some tz → truthy tz = true.
Proof.
  induction lines as [|line rest IH]; intros b i tz; [done|].
  cbn [Nyiso.scan_tz].
  destruct (is_marker "END:VTIMEZONE" line) eqn:He.
  - destruct (if is_marker "BEGIN:VTIMEZONE" line then true else i).
    + cbn [andb]. intros [= <-]. apply join_snoc_truthy.
      by apply (strip_nil_marker "END:VTIMEZONE").
    + cbn [andb]. apply IH.
  - rewrite andb_false_r. apply IH.
Qed.

(** C4: for a non-empty sequence of event blocks the built document is the
    seven header lines separated by CRLF, then CRLF, then the timezone block
    and CRLF when a block is given (the empty string counts as none, and the
    timezone scan never returns it), then the event blocks joined by CRLF,
    then CRLF, the calendar end marker and a final CRLF; equal inputs give
    equal documents. *)
Theorem document_layout (vevents : list str) (vtimezone : option str) :
  vevents ≠ [] →
  Caiso.build_merged_ics vevents
  = join CRLF [lit "BEGIN:VCALENDAR"; lit "VERSION:2.0";
               lit "PRODID:-//CAISO Calendar Sync//EN"; lit "CALSCALE:GREGORIAN";
               lit "METHOD:PUBLISH"; lit "X-WR-CALNAME:CAISO Events";
               lit "X-WR-TIMEZONE:America/Los_Angeles"]
    ++ CRLF ++ join CRLF vevents ++ CRLF ++ lit "END:VCALENDAR" ++ CRLF
  ∧ Nyiso.build_merged_ics vevents vtimezone
    = join CRLF [lit "BEGIN:VCALENDAR"; lit "VERSION:2.0";
                 lit "PRODID:-//NYISO Calendar Sync//EN"; lit "CALSCALE:GREGORIAN";
                 lit "METHOD:PUBLISH"; lit "X-WR-CALNAME:NYISO Events";
                 lit "X-WR-TIMEZONE:America/New_York"]
      ++ CRLF
      ++ match vtimezone with
         | Some tz => if truthy tz then tz ++ CRLF else []
         | None => []
         end
      ++ join CRLF vevents ++ CRLF ++ lit "END:VCALENDAR" ++ CRLF
  ∧ (∀ text tz, Nyiso.extract_vtimezone text = Some tz → truthy tz = true)
  ∧ (∀ vevents' vtimezone',
       vevents' = vevents → vtimezone' = vtimezone →
       Caiso.build_merged_ics vevents' = Caiso.build_merged_ics vevents
       ∧ Nyiso.build_merged_ics vevents' vtimezone'
         = Nyiso.build_merged_ics vevents vtimezone).
Proof.
  intros Hne. split; [done|]. split; [|split].
  - unfold Nyiso.build_merged_ics. fold Nyiso.header.
    assert (Hbody : join CRLF (vevents ++ [Nyiso.footer])
                    = join CRLF vevents ++ CRLF ++ lit "END:VCALENDAR")
      by (by apply join_snoc).
    assert (Hne' : vevents ++ [Nyiso.footer] ≠ []) by (by destruct vevents).
    destruct vtimezone as [tz|]; cbn [truthy_opt default from_option id];
      [destruct (truthy tz)|].
    + rewrite <- !app_assoc. cbn [app].
      rewrite join_cons by done. rewrite join_cons by done.
      rewrite Hbody, <- !app_assoc. done.
    + rewrite <- !app_assoc. cbn [app].
      rewrite join_cons by done. rewrite Hbody, <- !app_assoc. done.
    + rewrite <- !app_assoc. cbn [app].
      rewrite join_cons by done. rewrite Hbody, <- !app_assoc. done.
  - intros text tz. apply scan_tz_truthy.
  - by intros ? ? -> ->.
Qed.

Lemma document_layout_witness :
  let vevents := [Examples.event "a" "first a"; Examples.event "b" "first b"] in
  let vtimezone := Some Examples.eastern_timezone in
  Caiso.build_merged_ics vevents
  = join CRLF [lit "BEGIN:VCALENDAR"; lit "VERSION:2.0";
               lit "PRODID:-//CAISO Calendar Sync//EN"; lit "CALSCALE:GREGORIAN";
               lit "METHOD:PUBLISH"; lit "X-WR-CALNAME:CAISO Events";
               lit "X-WR-TIMEZONE:America/Los_Angeles"]
    ++ CRLF ++ join CRLF vevents ++ CRLF ++ lit "END:VCALENDAR" ++ CRLF
  ∧ Nyiso.build_merged_ics vevents vtimezone
    = join CRLF [lit "BEGIN:VCALENDAR"; lit "VERSION:2.0";
                 lit "PRODID:-//NYISO Calendar Sync//EN"; lit "CALSCALE:GREGORIAN";
                 lit "METHOD:PUBLISH"; lit "X-WR-CALNAME:NYISO Events";
                 lit "X-WR-TIMEZONE:America/New_York"]
      ++ CRLF
      ++ match vtimezone with
         | Some tz => if truthy tz then tz ++ CRLF else []
         | None => []
         end
      ++ join CRLF vevents ++ CRLF ++ lit "END:VCALENDAR" ++ CRLF
  ∧ (∀ text tz, Nyiso.extract_vtimezone text = Some tz → truthy tz = true)
  ∧ (∀ vevents' vtimezone',
       vevents' = vevents → vtimezone' = vtimezone →
       Caiso.build_merged_ics vevents' = Caiso.build_merged_ics vevents
       ∧ Nyiso.build_merged_ics vevents' vtimezone'
         = Nyiso.build_merged_ics vevents vtimezone).
Proof.
  intros vevents vtimezone. apply (document_layout vevents vtimezone).
  discriminate.
Defined.

(** ** The validator *)

(** The pattern search does not depend on the bound on the number of
    matches, once the bound is at least the length of the text. *)
Lemma findall_go_fuel f1 : ∀ f2 text,
  length text ≤ f1 → length text ≤ f2 →
  Validate.findall_go f1 text = Validate.findall_go f2 text.
Proof.
  induction f1 as [|f1 IH]; intros f2 text H1 H2.
  - destruct text; [|cbn in H1; lia]. by destruct f2.
  - destruct f2 as [|f2]; [destruct text; [done|cbn in H2; lia]|].
    cbn [Validate.findall_go].
    destruct (find text (lit "BEGIN:VEVENT")) as [i|]; [|done].
    destruct (find (drop 12 (drop i text)) (lit "END:VEVENT")) as [j|]; [|done].
    f_equal. apply IH; rewrite !length_drop; destruct text; cbn in *; lia.
Qed.

(** [findall_vevent] as the search is described, without the bound. *)
Lemma findall_vevent_unfold text :
  Validate.findall_vevent text
  = match find text (lit "BEGIN:VEVENT") with
    | None => []
    | Some i =>
        match find (drop 12 (drop i text)) (lit "END:VEVENT") with
        | None => []
        | Some j =>
            take (12 + j + 10) (drop i text)
            :: Validate.findall_vevent (drop (12 + j + 10) (drop i text))
        end
    end.
Proof.
  unfold Validate.findall_vevent. destruct text as [|c text]; [done|].
  cbn [length Validate.findall_go].
  destruct (find (c :: text) (lit "BEGIN:VEVENT")) as [i|]; [|done].
  destruct (find (drop 12 (drop i (c :: text))) (lit "END:VEVENT")) as [j|];
    [|done].
  f_equal. apply findall_go_fuel; rewrite ?length_drop; cbn; lia.
Qed.

Lemma issue_if_nil (b : bool) (x : str) :
  (if b then [] else [x]) = [] ↔ b = true.
Proof. by destruct b. Qed.

Lemma issue_decide_nil (P : Prop) `{Decision P} (x : str) :
  (if decide P then [] else [x]) = [] ↔ P.
Proof. by destruct (decide P). Qed.

Lemma validate_status text :
  Validate.status (Validate.validate text)
  = match Validate.issues (Validate.validate text) with
    | [] => lit "PASS"
    | _ => lit "FAIL"
    end.
Proof. reflexivity. Qed.

Lemma issue_step (b : bool) (l : list str) (x : str) :
  (if negb b then l ++ [x] else l) = l ++ (if b then [] else [x]).
Proof. destruct b; cbn; by rewrite ?app_nil_r. Qed.

Lemma issue_step_eq (a b : nat) (l : list str) (x : str) :
  (if negb (a =? b) then l ++ [x] else l)
  = l ++ (if decide (a = b) then [] else [x]).
Proof.
  destruct (Nat.eqb_spec a b); cbn.
  - by rewrite decide_True, app_nil_r.
  - by rewrite decide_False.
Qed.

(** The list of issues, check by check. *)
Lemma validate_issues text :
  let blocks := Validate.findall_vevent text in
  let begins := count text (lit "BEGIN:VEVENT") in
  let ends := count text (lit "END:VEVENT") in
  let missing field :=
    length (filter (λ v, contains (lit field) v = false) blocks) in
  Validate.issues (Validate.validate text)
  = (if startswith (strip text) (lit "BEGIN:VCALENDAR") then []
     else [lit "missing BEGIN:VCALENDAR"])
    ++ (if endswith (strip text) (lit "END:VCALENDAR") then []
        else [lit "missing END:VCALENDAR"])
    ++ (if contains (lit "VERSION:2.0") text then []
        else [lit "missing VERSION:2.0"])
    ++ (if contains (lit "PRODID:") text then [] else [lit "missing PRODID"])
    ++ (if decide (begins = ends) then []
        else [lit "VEVENT mismatch: " ++ str_of_nat begins ++ lit " begin vs "
              ++ str_of_nat ends ++ lit " end"])
    ++ (if decide (missing "DTSTART" = 0) then []
        else [str_of_nat (missing "DTSTART") ++ lit " events missing DTSTART"])
    ++ (if decide (missing "SUMMARY" = 0) then []
        else [str_of_nat (missing "SUMMARY") ++ lit " events missing SUMMARY"]).
Proof.
  intros blocks begins ends missing.
  unfold Validate.validate. cbn [Validate.issues].
  fold blocks begins ends. fold (missing "DTSTART") (missing "SUMMARY").
  clearbody blocks begins ends missing.
  rewrite !issue_step_eq, !issue_step. cbn [app].
  by rewrite <- !app_assoc.
Qed.

(** C3: the verdict is PASS exactly when the begin and end counts agree, the
    trimmed text starts and ends with the calendar markers, the version and
    producer declarations occur, and no matched event block lacks DTSTART or
    SUMMARY; otherwise it is FAIL; the issues are one string per failed
    check, in the order of the checks, with the counts rendered in decimal.
    The three scenarios of the spec are instances. *)
Theorem validator_verdict (text : str) :
  let blocks := Validate.findall_vevent text in
  let begins := count text (lit "BEGIN:VEVENT") in
  let ends := count text (lit "END:VEVENT") in
  let missing field :=
    length (filter (λ v, contains (lit field) v = false) blocks) in
  let r := Validate.validate text in
  (Validate.status r = lit "PASS"
   ↔ begins = ends
     ∧ startswith (strip text) (lit "BEGIN:VCALENDAR") = true
     ∧ endswith (strip text) (lit "END:VCALENDAR") = true
     ∧ contains (lit "VERSION:2.0") text = true
     ∧ contains (lit "PRODID:") text = true
     ∧ missing "DTSTART" = 0
     ∧ missing "SUMMARY" = 0)
  ∧ (Validate.status r ≠ lit "PASS" → Validate.status r = lit "FAIL")
  ∧ (Validate.status r = lit "PASS" ↔ Validate.issues r = [])
  ∧ Validate.issues r
    = (if startswith (strip text) (lit "BEGIN:VCALENDAR") then []
       else [lit "missing BEGIN:VCALENDAR"])
      ++ (if endswith (strip text) (lit "END:VCALENDAR") then []
          else [lit "missing END:VCALENDAR"])
      ++ (if contains (lit "VERSION:2.0") text then []
          else [lit "missing VERSION:2.0"])
      ++ (if contains (lit "PRODID:") text then [] else [lit "missing PRODID"])
      ++ (if decide (begins = ends) then []
          else [lit "VEVENT mismatch: " ++ str_of_nat begins ++ lit " begin vs "
                ++ str_of_nat ends ++ lit " end"])
      ++ (if decide (missing "DTSTART" = 0) then []
          else [str_of_nat (missing "DTSTART") ++ lit " events missing DTSTART"])
      ++ (if decide (missing "SUMMARY" = 0) then []
          else [str_of_nat (missing "SUMMARY") ++ lit " events missing SUMMARY"])
  ∧ Validate.validate Examples.complete_document = Validate.Report 2 (lit "PASS") []
  ∧ Validate.validate Examples.summary_removed_document
    = Validate.Report 2 (lit "FAIL") [lit "1 events missing SUMMARY"]
  ∧ Validate.issues (Validate.validate Examples.reopened_block)
    !! 4 = Some (lit "VEVENT mismatch: 2 begin vs 1 end").
Proof.
  intros blocks begins ends missing r. subst r.
  pose proof (validate_issues text) as Hissues. cbn zeta in Hissues.
  fold blocks begins ends in Hissues.
  fold (missing "DTSTART") (missing "SUMMARY") in Hissues.
  assert (Hpass : Validate.status (Validate.validate text) = lit "PASS"
                  ↔ Validate.issues (Validate.validate text) = []).
  { rewrite validate_status.
    by destruct (Validate.issues (Validate.validate text)). }
  split; [|split; [|split; [done|split; [done|]]]].
  - rewrite Hpass, Hissues, !app_nil, !issue_if_nil, !issue_decide_nil. tauto.
  - rewrite validate_status.
    by destruct (Validate.issues (Validate.validate text)).
  - split; [by vm_compute|]. split; by vm_compute.
Qed.

(** ** The JSON adapters *)

(** ISO-NE skips an object whose start or identity is missing or falsy. *)
Lemma isone_skips_incomplete strip_html now event :
  json_truthy (get event "event_start_date_gmt_str" (JStr [])) = false
  ∨ json_truthy (get event "event_id" (JStr [])) = false →
  Isone.build_vevent strip_html now event = Ok None.
Proof.
  intros H. unfold Isone.build_vevent.
  destruct H as [-> | ->]; [done|]. by rewrite orb_true_r.
Qed.

(** SPP reads the identity with a subscript: without the key it raises. *)
Lemma spp_raises_without_id now event :
  event !! "id" = None → Spp.build_vevent now event = Raise KeyError.
Proof. intros H. unfold Spp.build_vevent. by rewrite H. Qed.

(** An exception of one object ends the loop over all of them. *)
Lemma spp_collect_raises now events : ∀ acc event rest e,
  Forall (λ ev, ∃ v, Spp.build_vevent now ev = Ok v) events →
  Spp.build_vevent now event = Raise e →
  Spp.collect now (events ++ event :: rest) acc = Raise e.
Proof.
  induction events as [|ev events IH]; intros acc event rest e Hok Hraise.
  - cbn [app Spp.collect]. by rewrite Hraise.
  - apply Forall_cons in Hok as [[v Hv] Hok].
    change ((ev :: events) ++ event :: rest) with (ev :: (events ++ event :: rest)).
    cbn [Spp.collect]. rewrite Hv. cbn [mbind result_bind]. by apply IH.
Qed.

(** C6 at the failing input: for an SPP object without the ["id"] key,
    [build_vevent] raises [KeyError], and the loop of [main] over a list that
    holds such an object ends with that exception, whatever precedes and
    follows it; ISO-NE's [build_vevent] returns [None] for the object without
    its identity key; and for an SPP object whose identity is the empty
    string a block is built all the same. *)
Theorem spp_missing_id_aborts_run (now : str) :
  spp_event_without_id !! "id" = None
  ∧ Spp.build_vevent now spp_event_without_id = Raise KeyError
  ∧ Spp.collect now [spp_event_complete; spp_event_without_id; spp_event_complete] []
    = Raise KeyError
  ∧ (∀ strip_html,
       Isone.build_vevent strip_html now isone_event_without_id = Ok None)
  ∧ Spp.build_vevent now spp_event_empty_id
    = Ok (join CRLF
            [ lit "BEGIN:VEVENT"; lit "UID:@spp.org"; lit "DTSTAMP:" ++ now;
              lit "DTSTART;TZID=America/Chicago:20260226T083000";
              lit "SUMMARY:SPP Event"; lit "END:VEVENT" ]).
Proof.
  assert (Hid : spp_event_without_id !! "id" = None) by (by vm_compute).
  split; [done|]. split; [by apply spp_raises_without_id|]. split.
  - apply (spp_collect_raises now [spp_event_complete]).
    + constructor; [|constructor]. eexists. vm_compute. reflexivity.
    + by apply spp_raises_without_id.
  - split; [|by vm_compute].
    intros strip_html. apply isone_skips_incomplete. right. by vm_compute.
Qed.

(** ** Occurrences of a pattern in lines joined by CRLF *)

Lemma startswith_prefix sub R : startswith (sub ++ R) sub = true.
Proof.
  induction sub as [|a sub IH]; [done|]. cbn. by rewrite Ascii.eqb_refl, IH.
Qed.

(** A match cannot reach over a character that the pattern lacks. *)
Lemma startswith_straddle sub : ∀ l c R,
  c ∉ sub → startswith (l ++ c :: R) sub = true → startswith l sub = true.
Proof.
  induction sub as [|a sub IH]; intros l c R Hc Hs; [done|].
  apply not_elem_of_cons in Hc as [Hca Hc].
  destruct l as [|b l]; cbn in Hs |- *.
  - apply andb_true_iff in Hs as [Hab _]. apply Ascii.eqb_eq in Hab. done.
  - apply andb_true_iff in Hs as [Hab Hs]. rewrite Hab. cbn.
    by apply (IH l c R).
Qed.

Lemma count_skip sub p R :
  count_from (length p) (p ++ R) sub = count_from 0 R sub.
Proof. induction p as [|a p IH]; [done|]. apply IH. Qed.

Lemma count_here_cons a p R :
  count_from 0 ((a :: p) ++ R) (a :: p) = S (count_from 0 R (a :: p)).
Proof.
  change ((a :: p) ++ R) with (a :: (p ++ R)). cbn [count_from].
  change (a :: (p ++ R)) with ((a :: p) ++ R). rewrite startswith_prefix.
  cbn [length]. rewrite Nat.sub_1_r. cbn [Nat.pred]. by rewrite count_skip.
Qed.

Section Occurrences.

Variable sub : str.
Hypothesis sub_nonempty : sub ≠ [].
Hypothesis sub_no_cr : CR ∉ sub.
Hypothesis sub_no_lf : LF ∉ sub.

Lemma startswith_nil : startswith [] sub = false.
Proof. by destruct sub. Qed.

Lemma startswith_cr R : startswith (CR :: R) sub = false.
Proof.
  destruct (startswith (CR :: R) sub) eqn:Hs; [|done].
  apply (startswith_straddle sub [] CR R sub_no_cr) in Hs.
  by rewrite startswith_nil in Hs.
Qed.

Lemma startswith_lf R : startswith (LF :: R) sub = false.
Proof.
  destruct (startswith (LF :: R) sub) eqn:Hs; [|done].
  apply (startswith_straddle sub [] LF R sub_no_lf) in Hs.
  by rewrite startswith_nil in Hs.
Qed.

Lemma startswith_line l R :
  separated R → startswith l sub = false → startswith (l ++ R) sub = false.
Proof.
  intros [-> | [R' ->]] Hl; [by rewrite app_nil_r|].
  destruct (startswith (l ++ CR :: R') sub) eqn:Hs; [|done].
  apply (startswith_straddle sub l CR R' sub_no_cr) in Hs. congruence.
Qed.

Lemma find_here R : find (sub ++ R) sub = Some 0.
Proof.
  destruct (sub ++ R) eqn:E; cbn; rewrite <- E, startswith_prefix; done.
Qed.

Lemma find_line l R :
  contains sub l = false → separated R →
  find (l ++ R) sub = (λ i, length l + i) <$> find R sub.
Proof.
  intros Hl HR. induction l as [|a l IH].
  - cbn. by destruct (find R sub).
  - cbn in Hl. apply orb_false_iff in Hl as [Ha Hl].
    change ((a :: l) ++ R) with (a :: (l ++ R)). cbn [find].
    change (a :: (l ++ R)) with ((a :: l) ++ R).
    rewrite (startswith_line (a :: l) R HR Ha), (IH Hl).
    by destruct (find R sub).
Qed.

Lemma find_crlf X : find (CR :: LF :: X) sub = (λ i, 2 + i) <$> find X sub.
Proof.
  cbn [find]. rewrite startswith_cr, startswith_lf. by destruct (find X sub).
Qed.

Lemma find_no_line l : contains sub l = false → find l sub = None.
Proof.
  intros Hl. pose proof (find_line l [] Hl (or_introl eq_refl)) as H.
  rewrite app_nil_r in H. rewrite H. cbn. by rewrite startswith_nil.
Qed.

Lemma count_here R : count_from 0 (sub ++ R) sub = S (count_from 0 R sub).
Proof. destruct sub; [done|apply count_here_cons]. Qed.

Lemma count_line l R :
  contains sub l = false → separated R →
  count_from 0 (l ++ R) sub = count_from 0 R sub.
Proof.
  intros Hl HR. induction l as [|a l IH]; [done|].
  cbn in Hl. apply orb_false_iff in Hl as [Ha Hl].
  change ((a :: l) ++ R) with (a :: (l ++ R)). cbn [count_from].
  change (a :: (l ++ R)) with ((a :: l) ++ R).
  by rewrite (startswith_line (a :: l) R HR Ha), (IH Hl).
Qed.

Lemma count_crlf X : count_from 0 (CR :: LF :: X) sub = count_from 0 X sub.
Proof.
  cbn [count_from]. by rewrite startswith_cr, startswith_lf.
Qed.

End Occurrences.

(** ** Marker lines of a clean document *)

Lemma begin_text_facts :
  BEGIN_VEVENT ≠ [] ∧ (CR ∉ BEGIN_VEVENT) ∧ (LF ∉ BEGIN_VEVENT)
  ∧ contains BEGIN_VEVENT END_VEVENT = false
  ∧ is_begin BEGIN_VEVENT = true ∧ is_end BEGIN_VEVENT = false.
Proof.
  split; [done|]. split; [apply (bool_decide_unpack _); by vm_compute|].
  split; [apply (bool_decide_unpack _); by vm_compute|]. by vm_compute.
Qed.

Lemma end_text_facts :
  END_VEVENT ≠ [] ∧ (CR ∉ END_VEVENT) ∧ (LF ∉ END_VEVENT)
  ∧ contains END_VEVENT BEGIN_VEVENT = false
  ∧ is_end END_VEVENT = true ∧ is_begin END_VEVENT = false.
Proof.
  split; [done|]. split; [apply (bool_decide_unpack _); by vm_compute|].
  split; [apply (bool_decide_unpack _); by vm_compute|]. by vm_compute.
Qed.

Lemma lstrip_split s : ∃ pre, s = pre ++ lstrip s.
Proof.
  induction s as [|c s [pre IH]]; [by exists []|]. cbn.
  destruct (is_space c); [|by exists []].
  exists (c :: pre). cbn. by rewrite <- IH.
Qed.

Lemma strip_split s : ∃ pre post, s = pre ++ strip s ++ post.
Proof.
  destruct (lstrip_split s) as [pre Hpre].
  destruct (lstrip_split (rev (lstrip s))) as [q Hq].
  exists pre, (rev q). unfold strip, rstrip.
  rewrite <- rev_app_distr, <- Hq, rev_involutive. done.
Qed.

Lemma contains_infix sub pre post : contains sub (pre ++ sub ++ post) = true.
Proof.
  induction pre as [|c pre IH].
  - cbn [app]. destruct (sub ++ post) eqn:E; cbn; rewrite <- E;
      by rewrite startswith_prefix.
  - cbn. rewrite IH. apply orb_true_r.
Qed.

Lemma marker_contained marker l :
  is_marker marker l = true → contains (lit marker) l = true.
Proof.
  unfold is_marker. intros Hm. apply bool_decide_eq_true in Hm.
  destruct (strip_split l) as (pre & post & Hl).
  rewrite Hl, Hm. apply contains_infix.
Qed.

(** In a clean line the line test and the text test agree. *)
Lemma clean_begin l :
  clean_line l →
  (is_begin l = true ∧ l = BEGIN_VEVENT)
  ∨ (is_begin l = false ∧ contains BEGIN_VEVENT l = false).
Proof.
  intros (_ & _ & [-> | [-> | [Hb He]]]).
  - left. split; [apply begin_text_facts|done].
  - right. split; [apply end_text_facts|apply begin_text_facts].
  - right. split; [|done]. destruct (is_begin l) eqn:E; [|done].
    apply marker_contained in E. unfold BEGIN_VEVENT in Hb. congruence.
Qed.

Lemma clean_end l :
  clean_line l →
  (is_end l = true ∧ l = END_VEVENT)
  ∨ (is_end l = false ∧ contains END_VEVENT l = false).
Proof.
  intros (_ & _ & [-> | [-> | [Hb He]]]).
  - right. split; [apply begin_text_facts|apply end_text_facts].
  - left. split; [apply end_text_facts|done].
  - right. split; [|done]. destruct (is_end l) eqn:E; [|done].
    apply marker_contained in E. unfold END_VEVENT in He. congruence.
Qed.

Lemma join_tail_text sep ls : ∀ l, join sep (l :: ls) = l ++ tail_text sep ls.
Proof.
  induction ls as [|l' ls IH]; intros l; [by rewrite app_nil_r|].
  rewrite join_cons by done. by rewrite IH.
Qed.

Lemma tail_text_separated ls : separated (tail_text CRLF ls).
Proof. destruct ls; [by left|right]. by eexists. Qed.

(** ** The pattern search of the validator on a clean document *)

Lemma find_begin_crlf X :
  find (CR :: LF :: X) BEGIN_VEVENT = (λ i, 2 + i) <$> find X BEGIN_VEVENT.
Proof. apply find_crlf; apply begin_text_facts. Qed.

Lemma find_end_crlf X :
  find (CR :: LF :: X) END_VEVENT = (λ i, 2 + i) <$> find X END_VEVENT.
Proof. apply find_crlf; apply end_text_facts. Qed.

Lemma findall_crlf X :
  Validate.findall_vevent (CR :: LF :: X) = Validate.findall_vevent X.
Proof.
  rewrite (findall_vevent_unfold (CR :: LF :: X)), (findall_vevent_unfold X).
  fold BEGIN_VEVENT END_VEVENT. rewrite find_begin_crlf.
  by destruct (find X BEGIN_VEVENT).
Qed.

Lemma findall_line l R :
  contains BEGIN_VEVENT l = false → separated R →
  Validate.findall_vevent (l ++ R) = Validate.findall_vevent R.
Proof.
  intros Hl HR.
  rewrite (findall_vevent_unfold (l ++ R)), (findall_vevent_unfold R).
  fold BEGIN_VEVENT END_VEVENT.
  rewrite (find_line BEGIN_VEVENT (proj1 (proj2 begin_text_facts)) l R Hl HR).
  destruct (find R BEGIN_VEVENT) as [i|]; [|done]. cbn [fmap option_fmap option_map].
  by rewrite drop_app_add.
Qed.

Lemma findall_begin R :
  Validate.findall_vevent (BEGIN_VEVENT ++ R) = findall_from_begin BEGIN_VEVENT R.
Proof.
  rewrite findall_vevent_unfold. fold BEGIN_VEVENT END_VEVENT.
  rewrite find_here. rewrite drop_0.
  change 12 with (length BEGIN_VEVENT) at 1. rewrite drop_app_length.
  unfold findall_from_begin. destruct (find R END_VEVENT) as [j|]; [|done].
  change (12 + j + 10) with (length BEGIN_VEVENT + (j + 10)).
  by rewrite take_app_add, drop_app_add.
Qed.

Lemma from_begin_crlf m X :
  findall_from_begin m (CR :: LF :: X) = findall_from_begin (m ++ CRLF) X.
Proof.
  unfold findall_from_begin. rewrite find_end_crlf.
  destruct (find X END_VEVENT) as [j|]; [|done].
  cbn [fmap option_fmap option_map]. change (2 + j + 10) with (S (S (j + 10))).
  cbn [take drop]. by rewrite <- app_assoc.
Qed.

Lemma from_begin_line m l R :
  contains END_VEVENT l = false → separated R →
  findall_from_begin m (l ++ R) = findall_from_begin (m ++ l) R.
Proof.
  intros Hl HR. unfold findall_from_begin.
  rewrite (find_line END_VEVENT (proj1 (proj2 end_text_facts)) l R Hl HR).
  destruct (find R END_VEVENT) as [j|]; [|done].
  cbn [fmap option_fmap option_map].
  rewrite <- Nat.add_assoc, take_app_add, drop_app_add, <- app_assoc. done.
Qed.

Lemma from_begin_end m R :
  findall_from_begin m (END_VEVENT ++ R)
  = (m ++ END_VEVENT) :: Validate.findall_vevent R.
Proof.
  unfold findall_from_begin. rewrite find_here.
  change (0 + 10) with (length END_VEVENT).
  by rewrite take_app_length, drop_app_length.
Qed.

(** The search of the validator against the line scan, by induction on the
    lines: outside a block, and behind a begin marker with [m] matched. *)
Lemma findall_lines lines :
  Forall clean_line lines →
  (well_nested false lines = true →
   Validate.findall_vevent (tail_text CRLF lines)
   = map (join CRLF) (terminated_blocks lines))
  ∧ (well_nested true lines = true →
     ∀ m, findall_from_begin m (tail_text CRLF lines)
          = match closing lines with
            | Some c => [m ++ tail_text CRLF c]
            | None => []
            end
            ++ map (join CRLF) (terminated_blocks lines)).
Proof.
  induction lines as [|l rest IH]; intros Hclean.
  - split; [done|]. intros _ m. done.
  - apply Forall_cons in Hclean as [Hl Hrest].
    destruct (IH Hrest) as [IHout IHin]. clear IH.
    pose proof (tail_text_separated rest) as Hsep.
    cbn [tail_text well_nested closing terminated_blocks].
    change (CRLF ++ l ++ tail_text CRLF rest)
      with (CR :: LF :: (l ++ tail_text CRLF rest)).
    destruct (clean_begin l Hl) as [[Hb ->] | [Hb Hnb]]; rewrite Hb.
    + rewrite (begin_not_end _ Hb). cbn [negb andb]. split; [|done].
      intros Hwn. rewrite findall_crlf, findall_begin, (IHin Hwn).
      destruct (closing rest) as [c|]; [|done].
      cbn [app map]. by rewrite join_tail_text.
    + destruct (clean_end l Hl) as [[He ->] | [He Hne]]; rewrite He.
      * split.
        -- intros Hwn. by rewrite findall_crlf, findall_line, IHout.
        -- intros Hwn m.
           rewrite from_begin_crlf, from_begin_end, (IHout Hwn).
           cbn [tail_text app]. by rewrite app_nil_r, <- app_assoc.
      * split.
        -- intros Hwn. by rewrite findall_crlf, findall_line, IHout.
        -- intros Hwn m.
           rewrite from_begin_crlf, from_begin_line, (IHin Hwn) by done.
           destruct (closing rest) as [c|]; [|done].
           cbn [fmap option_fmap option_map tail_text app].
           by rewrite <- !app_assoc.
Qed.

(** ** Line normalization of a CRLF document *)

Lemma replace_crlf_line l R :
  CR ∉ l →
  replace_from 0 (l ++ R) [CR; LF] [LF] = l ++ replace_from 0 R [CR; LF] [LF].
Proof.
  induction l as [|a l IH]; intros Hl; [done|].
  apply not_elem_of_cons in Hl as [Ha Hl].
  change ((a :: l) ++ R) with (a :: (l ++ R)). cbn [replace_from startswith].
  rewrite (proj2 (Ascii.eqb_neq CR a)) by done. cbn [andb app].
  by rewrite IH.
Qed.

Lemma replace_crlf_tail ls :
  Forall (λ l, CR ∉ l) ls →
  replace_from 0 (tail_text CRLF ls) [CR; LF] [LF] = tail_text [LF] ls.
Proof.
  induction ls as [|l ls IH]; intros Hls; [done|].
  apply Forall_cons in Hls as [Hl Hls]. cbn [tail_text].
  change (CRLF ++ l ++ tail_text CRLF ls)
    with (CR :: LF :: (l ++ tail_text CRLF ls)).
  cbn. by rewrite replace_crlf_line, IH.
Qed.

Lemma replace_cr_absent s : CR ∉ s → replace s [CR] [LF] = s.
Proof.
  rewrite replace_char. induction s as [|a s IH]; intros Hs; [done|].
  apply not_elem_of_cons in Hs as [Ha Hs]. cbn [mbind list_bind].
  rewrite (proj2 (Ascii.eqb_neq CR a)) by done. cbn [app]. f_equal. by apply IH.
Qed.

Lemma tail_text_no_cr ls : Forall (λ l, CR ∉ l) ls → CR ∉ tail_text [LF] ls.
Proof.
  induction ls as [|l ls IH]; intros Hls; [apply not_elem_of_nil|].
  apply Forall_cons in Hls as [Hl Hls]. cbn [tail_text].
  rewrite !not_elem_of_app. split; [|split; [done|by apply IH]].
  apply (bool_decide_unpack _). by vm_compute.
Qed.

Lemma split_lf_line l R : ∀ cur,
  LF ∉ l → split_from 0 cur (l ++ R) [LF] = split_from 0 (cur ++ l) R [LF].
Proof.
  induction l as [|a l IH]; intros cur Hl; [by rewrite app_nil_r|].
  apply not_elem_of_cons in Hl as [Ha Hl].
  change ((a :: l) ++ R) with (a :: (l ++ R)). cbn [split_from startswith].
  rewrite (proj2 (Ascii.eqb_neq LF a)) by done. cbn [andb].
  rewrite IH by done. by rewrite <- app_assoc.
Qed.

Lemma split_lf_tail ls : ∀ cur,
  Forall (λ l, LF ∉ l) ls →
  split_from 0 cur (tail_text [LF] ls) [LF] = cur :: ls.
Proof.
  induction ls as [|l ls IH]; intros cur Hls; [done|].
  apply Forall_cons in Hls as [Hl Hls]. cbn [tail_text].
  change ([LF] ++ l ++ tail_text [LF] ls) with (LF :: (l ++ tail_text [LF] ls)).
  cbn [split_from startswith]. rewrite Ascii.eqb_refl. cbn [andb length Nat.sub].
  rewrite split_lf_line by done. by rewrite IH.
Qed.

Lemma normalized_lines_join lines :
  lines ≠ [] → Forall (λ l, CR ∉ l) lines → Forall (λ l, LF ∉ l) lines →
  normalized_lines (join CRLF lines) = lines.
Proof.
  intros Hne Hcr Hlf. destruct lines as [|l ls]; [done|].
  apply Forall_cons in Hcr as [Hcr Hcrs]. apply Forall_cons in Hlf as [Hlf Hlfs].
  unfold normalized_lines. rewrite join_tail_text.
  unfold replace at 2. rewrite replace_crlf_line, replace_crlf_tail by done.
  rewrite replace_cr_absent
    by (rewrite not_elem_of_app; split; [done|by apply tail_text_no_cr]).
  unfold split. rewrite split_lf_line by done. by rewrite split_lf_tail.
Qed.

(** ** Marker counts of a clean document *)

Lemma count_begin_tail lines :
  Forall clean_line lines →
  count_from 0 (tail_text CRLF lines) BEGIN_VEVENT
  = length (filter (λ l, is_begin l = true) lines).
Proof.
  pose proof begin_text_facts as (Hne & Hcr & Hlf & _).
  induction lines as [|l rest IH]; intros Hclean; [done|].
  apply Forall_cons in Hclean as [Hl Hrest]. cbn [tail_text].
  change (CRLF ++ l ++ tail_text CRLF rest)
    with (CR :: LF :: (l ++ tail_text CRLF rest)).
  rewrite count_crlf, filter_cons by done.
  destruct (clean_begin l Hl) as [[Hb ->] | [Hb Hnb]].
  - rewrite decide_True by done. rewrite count_here by done.
    cbn [length]. by rewrite IH.
  - rewrite decide_False by (rewrite Hb; done).
    rewrite count_line by (done || apply tail_text_separated). by apply IH.
Qed.

Lemma count_end_tail lines :
  Forall clean_line lines →
  count_from 0 (tail_text CRLF lines) END_VEVENT
  = length (filter (λ l, is_end l = true) lines).
Proof.
  pose proof end_text_facts as (Hne & Hcr & Hlf & _).
  induction lines as [|l rest IH]; intros Hclean; [done|].
  apply Forall_cons in Hclean as [Hl Hrest]. cbn [tail_text].
  change (CRLF ++ l ++ tail_text CRLF rest)
    with (CR :: LF :: (l ++ tail_text CRLF rest)).
  rewrite count_crlf, filter_cons by done.
  destruct (clean_end l Hl) as [[He ->] | [He Hne']].
  - rewrite decide_True by done. rewrite count_here by done.
    cbn [length]. by rewrite IH.
  - rewrite decide_False by (rewrite He; done).
    rewrite count_line by (done || apply tail_text_separated). by apply IH.
Qed.

(** C9, as stated, fails: marker text inside a line gives the validator a
    block and a begin count where the line scan finds none; on a document
    with bare line feeds both find one block, but not the same one; and a
    reopened block is matched from its first begin marker by the validator
    and from its second by the line scan. *)
Lemma validator_blocks_differ_from_line_scan :
  Validate.findall_vevent marker_inside_line = [lit "BEGIN:VEVENT and END:VEVENT"]
  ∧ count marker_inside_line (lit "BEGIN:VEVENT") = 1
  ∧ Ercot.extract_vevents marker_inside_line = []
  ∧ Validate.findall_vevent line_feed_event = [line_feed_event]
  ∧ Ercot.extract_vevents line_feed_event
    = [join CRLF [lit "BEGIN:VEVENT"; lit "DTSTART:20260301"; lit "SUMMARY:x";
                  lit "END:VEVENT"]]
  ∧ Validate.findall_vevent line_feed_event ≠ Ercot.extract_vevents line_feed_event
  ∧ Validate.findall_vevent Examples.reopened_block
    ≠ Ercot.extract_vevents Examples.reopened_block.
Proof. vm_compute. repeat split; discriminate. Qed.

(** * Further properties of the scripts *)

(** ** Parsing a built document *)

Lemma end_not_begin l : is_end l = true → is_begin l = false.
Proof.
  intros He. destruct (is_begin l) eqn:Hb; [|done].
  apply begin_not_end in Hb. congruence.
Qed.

Lemma blocks_skip_plain pre X :
  Forall (λ l, is_begin l = false) pre →
  terminated_blocks (pre ++ X) = terminated_blocks X.
Proof.
  induction pre as [|l pre IH]; intros Hpre; [done|].
  apply Forall_cons in Hpre as [Hl Hpre]. cbn. rewrite Hl. by apply IH.
Qed.

Lemma closing_middle middle last X :
  Forall plain_line middle → is_end last = true →
  closing (middle ++ last :: X) = Some (middle ++ [last]).
Proof.
  intros Hm Hlast. induction middle as [|l middle IH]; cbn.
  - by rewrite Hlast.
  - apply Forall_cons in Hm as [[Hb He] Hm]. rewrite He, Hb, (IH Hm). done.
Qed.

Lemma blocks_one_block b X :
  well_delimited b → terminated_blocks (b ++ X) = b :: terminated_blocks X.
Proof.
  intros (first & middle & last & -> & Hfirst & Hlast & Hmid).
  change ((first :: middle ++ [last]) ++ X)
    with (first :: ((middle ++ [last]) ++ X)).
  cbn [terminated_blocks]. rewrite Hfirst, <- app_assoc. cbn [app].
  rewrite closing_middle by done. cbn [app]. f_equal.
  change (last :: X) with ([last] ++ X). rewrite app_assoc.
  apply blocks_skip_plain. apply Forall_app. split.
  - eapply Forall_impl; [exact Hmid|]. by intros l [? _].
  - constructor; [by apply end_not_begin|constructor].
Qed.

Lemma blocks_of_concat blocks X :
  Forall well_delimited blocks →
  terminated_blocks (concat blocks ++ X) = blocks ++ terminated_blocks X.
Proof.
  induction blocks as [|b blocks IH]; intros Hb; [done|].
  apply Forall_cons in Hb as [Hb Hbs]. cbn [concat].
  rewrite <- app_assoc, blocks_one_block by done. by rewrite IH.
Qed.

Lemma tail_text_app sep a b :
  tail_text sep (a ++ b) = tail_text sep a ++ tail_text sep b.
Proof.
  induction a as [|l a IH]; [done|]. cbn. by rewrite IH, <- !app_assoc.
Qed.

Lemma tail_text_join sep b : b ≠ [] → sep ++ join sep b = tail_text sep b.
Proof. destruct b as [|l b]; [done|]. intros _. by rewrite join_tail_text. Qed.

(** Joining groups of lines and then the groups is joining all the lines. *)
Lemma tail_text_groups sep groups :
  Forall (λ g, g ≠ []) groups →
  tail_text sep (map (join sep) groups) = tail_text sep (concat groups).
Proof.
  induction groups as [|g groups IH]; intros Hg; [done|].
  apply Forall_cons in Hg as [Hg Hgs]. cbn [map concat tail_text].
  rewrite tail_text_app, <- (tail_text_join sep g Hg), IH by done.
  by rewrite <- !app_assoc.
Qed.

Lemma join_of_tail_text sep lines text :
  lines ≠ [] → sep ++ text = tail_text sep lines → text = join sep lines.
Proof.
  intros Hne Ht. rewrite <- tail_text_join in Ht by done.
  by apply app_inv_head in Ht.
Qed.

Lemma well_delimited_nonempty b : well_delimited b → b ≠ [].
Proof. by intros (first & middle & last & -> & _). Qed.

(** The lines of the document that CAISO's builder returns. *)
Lemma caiso_document_lines blocks :
  Forall (λ b, b ≠ []) blocks →
  Caiso.build_merged_ics (map (join CRLF) blocks)
  = join CRLF (caiso_header_lines ++ body_lines blocks ++ [Caiso.footer; []]).
Proof.
  intros Hne. apply join_of_tail_text; [done|].
  rewrite !tail_text_app. unfold Caiso.build_merged_ics.
  change Caiso.header with (join CRLF caiso_header_lines).
  rewrite (app_assoc CRLF), tail_text_join by done. f_equal.
  rewrite (app_assoc CRLF (join CRLF _)). f_equal.
  destruct blocks as [|b blocks]; [done|].
  rewrite tail_text_join by done. by apply tail_text_groups.
Qed.

(** The lines of the document that NYISO's builder returns. *)
Lemma nyiso_document_lines_none blocks :
  Forall (λ b, b ≠ []) blocks →
  Nyiso.build_merged_ics (map (join CRLF) blocks) None
  = join CRLF (nyiso_header_lines ++ concat blocks ++ [Nyiso.footer; []]).
Proof.
  intros Hne. apply join_of_tail_text; [done|].
  unfold Nyiso.build_merged_ics. cbn [truthy_opt].
  change Nyiso.header with (join CRLF nyiso_header_lines).
  rewrite app_assoc, tail_text_join by done.
  change [join CRLF nyiso_header_lines]
    with (map (join CRLF) [nyiso_header_lines]).
  change [Nyiso.footer] with (map (join CRLF) [[Nyiso.footer]]).
  rewrite <- !map_app, tail_text_groups.
  - rewrite !concat_app. cbn [concat app]. rewrite !tail_text_app.
    cbn. by rewrite <- !app_assoc, ?app_nil_r.
  - repeat (apply Forall_app; split); try done; repeat constructor; done.
Qed.

Lemma nyiso_document_lines_tz blocks tz_lines :
  Forall (λ b, b ≠ []) blocks → tz_lines ≠ [] →
  truthy (join CRLF tz_lines) = true →
  Nyiso.build_merged_ics (map (join CRLF) blocks) (Some (join CRLF tz_lines))
  = join CRLF (nyiso_header_lines ++ tz_lines ++ concat blocks
               ++ [Nyiso.footer; []]).
Proof.
  intros Hne Htz Htruthy. apply join_of_tail_text; [done|].
  unfold Nyiso.build_merged_ics. cbn [truthy_opt default from_option id].
  rewrite Htruthy. change Nyiso.header with (join CRLF nyiso_header_lines).
  rewrite app_assoc, tail_text_join by done.
  change ([join CRLF nyiso_header_lines] ++ [join CRLF tz_lines])
    with (map (join CRLF) [nyiso_header_lines; tz_lines]).
  change [Nyiso.footer] with (map (join CRLF) [[Nyiso.footer]]).
  rewrite <- !map_app, tail_text_groups.
  - rewrite !concat_app. cbn [concat app]. rewrite !tail_text_app.
    cbn. by rewrite <- !app_assoc, ?app_nil_r.
  - repeat (apply Forall_app; split); try done; repeat constructor; done.
Qed.

Lemma line_safe_lines lines :
  Forall line_safe lines →
  Forall (λ l, CR ∉ l) lines ∧ Forall (λ l, LF ∉ l) lines.
Proof.
  intros H. split; (eapply Forall_impl; [exact H|]); by intros l [? ?].
Qed.

(** The line scan on lines joined by CRLF sees those lines. *)
Lemma extract_of_lines lines :
  lines ≠ [] → Forall line_safe lines →
  Ercot.extract_vevents (join CRLF lines)
  = map (join CRLF) (terminated_blocks lines).
Proof.
  intros Hne Hsafe. destruct (line_safe_lines lines Hsafe) as [Hcr Hlf].
  by rewrite extract_vevents_blocks, normalized_lines_join.
Qed.

Lemma header_lines_facts :
  Forall line_safe caiso_header_lines ∧ Forall plain_line caiso_header_lines
  ∧ Forall line_safe nyiso_header_lines ∧ Forall plain_line nyiso_header_lines
  ∧ Forall line_safe [Caiso.footer; []] ∧ Forall plain_line [Caiso.footer; []]
  ∧ Forall line_safe [[] : str] ∧ Forall plain_line [[] : str].
Proof.
  repeat split;
    repeat (apply Forall_cons; split); try apply Forall_nil;
    try (apply (bool_decide_unpack _); by vm_compute); by vm_compute.
Qed.

Lemma plain_lines_no_blocks lines :
  Forall plain_line lines → terminated_blocks lines = [].
Proof.
  intros H. rewrite <- (app_nil_r lines), blocks_skip_plain; [done|].
  eapply Forall_impl; [exact H|]. by intros l [? _].
Qed.

(** The blocks among header lines, optional extra plain lines, the lines of
    the blocks and the trailing lines. *)
Lemma blocks_of_document header extra blocks trailer :
  Forall plain_line header → Forall plain_line extra →
  Forall plain_line trailer → Forall well_delimited blocks →
  terminated_blocks (header ++ extra ++ concat blocks ++ trailer) = blocks.
Proof.
  intros Hh He Ht Hb.
  rewrite blocks_skip_plain
    by (eapply Forall_impl; [exact Hh|]; by intros l [? _]).
  rewrite blocks_skip_plain
    by (eapply Forall_impl; [exact He|]; by intros l [? _]).
  by rewrite blocks_of_concat, plain_lines_no_blocks, app_nil_r.
Qed.

Lemma blocks_line_safe blocks :
  Forall (Forall line_safe) blocks → Forall line_safe (concat blocks).
Proof.
  induction 1 as [|b blocks Hb _ IH]; [constructor|].
  cbn. by apply Forall_app.
Qed.

(** X1: parsing a built document returns the blocks it was built from.  For
    event blocks given as lines, each opening with a begin-marker line,
    closing with an end-marker line, with no marker line in between and no
    line-ending character in any line, the all-blocks scan of the document
    that CAISO's or NYISO's builder makes of the joined blocks (with or
    without a timezone block of plain lines) returns exactly the joined
    blocks, in order. *)
Theorem parse_built_document (blocks : list (list str)) (tz_lines : list str) :
  Forall well_delimited blocks → Forall (Forall line_safe) blocks →
  Forall line_safe tz_lines → Forall plain_line tz_lines →
  Ercot.extract_vevents (Caiso.build_merged_ics (map (join CRLF) blocks))
  = map (join CRLF) blocks
  ∧ Nyiso.extract_vevents (Nyiso.build_merged_ics (map (join CRLF) blocks) None)
    = map (join CRLF) blocks
  ∧ Nyiso.extract_vevents
      (Nyiso.build_merged_ics (map (join CRLF) blocks) (Some (join CRLF tz_lines)))
    = map (join CRLF) blocks.
Proof.
  intros Hwd Hsafe Htzsafe Htzplain.
  pose proof header_lines_facts as (Hcs & Hcp & Hns & Hnp & Hfs & Hfp & Hes & Hep).
  assert (Hne : Forall (λ b : list str, b ≠ []) blocks)
    by (eapply Forall_impl; [exact Hwd|]; apply well_delimited_nonempty).
  pose proof (blocks_line_safe blocks Hsafe) as Hcsafe.
  assert (Hnone :
    Nyiso.extract_vevents (Nyiso.build_merged_ics (map (join CRLF) blocks) None)
    = map (join CRLF) blocks).
  { rewrite nyiso_document_lines_none by done.
    change Nyiso.extract_vevents with Ercot.extract_vevents.
    rewrite extract_of_lines; [|done|by repeat (apply Forall_app; split)].
    f_equal. by apply (blocks_of_document nyiso_header_lines []). }
  split; [|split; [done|]].
  - rewrite caiso_document_lines by done.
    rewrite extract_of_lines; [|done|].
    + f_equal. destruct blocks as [|b blocks].
      * apply plain_lines_no_blocks. by repeat (apply Forall_app; split).
      * by apply (blocks_of_document caiso_header_lines []).
    + repeat (apply Forall_app; split); try done. by destruct blocks.
  - destruct (truthy (join CRLF tz_lines)) eqn:Htz.
    + assert (Htzne : tz_lines ≠ []) by (by intros ->).
      rewrite nyiso_document_lines_tz by done.
      change Nyiso.extract_vevents with Ercot.extract_vevents.
      rewrite extract_of_lines; [|done|by repeat (apply Forall_app; split)].
      f_equal. by apply blocks_of_document.
    + replace (Nyiso.build_merged_ics (map (join CRLF) blocks)
                 (Some (join CRLF tz_lines)))
        with (Nyiso.build_merged_ics (map (join CRLF) blocks) None); [done|].
      unfold Nyiso.build_merged_ics. cbn [truthy_opt]. by rewrite Htz.
Qed.

Lemma parse_built_document_witness :
  let blocks := two_blocks in
  let tz_lines := eastern_timezone_lines in
  Ercot.extract_vevents (Caiso.build_merged_ics (map (join CRLF) blocks))
  = map (join CRLF) blocks
  ∧ Nyiso.extract_vevents (Nyiso.build_merged_ics (map (join CRLF) blocks) None)
    = map (join CRLF) blocks
  ∧ Nyiso.extract_vevents
      (Nyiso.build_merged_ics (map (join CRLF) blocks) (Some (join CRLF tz_lines)))
    = map (join CRLF) blocks.
Proof.
  intros blocks tz_lines. apply (parse_built_document blocks tz_lines).
  - unfold blocks, two_blocks. cbn [map].
    apply Forall_cons; split; [|apply Forall_cons; split; [|by apply Forall_nil]].
    + exists (lit "BEGIN:VEVENT"), [lit "UID:a"; lit "SUMMARY:first"], (lit "END:VEVENT").
      split; [reflexivity|]. split; [vm_compute; reflexivity|].
      split; [vm_compute; reflexivity|].
      repeat (apply Forall_cons; split); try (by apply Forall_nil);
        vm_compute; split; reflexivity.
    + exists (lit "  BEGIN:VEVENT"), [lit "UID:b"], (lit "END:VEVENT  ").
      split; [reflexivity|]. split; [vm_compute; reflexivity|].
      split; [vm_compute; reflexivity|].
      repeat (apply Forall_cons; split); try (by apply Forall_nil);
        vm_compute; split; reflexivity.
  - unfold blocks, two_blocks. cbn [map].
    repeat (apply Forall_cons; split); try (by apply Forall_nil);
      unfold line_safe; apply (bool_decide_unpack _); vm_compute; exact I.
  - unfold tz_lines, eastern_timezone_lines. cbn [map].
    repeat (apply Forall_cons; split); try (by apply Forall_nil);
      unfold line_safe; apply (bool_decide_unpack _); vm_compute; exact I.
  - unfold tz_lines, eastern_timezone_lines. cbn [map].
    repeat (apply Forall_cons; split); try (by apply Forall_nil);
      vm_compute; split; reflexivity.
Defined.

(** ** Validating a built document *)

Lemma startswith_app_r p : ∀ a b,
  startswith a p = true → startswith (a ++ b) p = true.
Proof.
  induction p as [|x p IH]; intros a b H; [done|].
  destruct a as [|y a]; [done|]. cbn in *.
  apply andb_true_iff in H as [-> H]. by rewrite (IH a b H).
Qed.

Lemma contains_app_l sub a b :
  contains sub a = true → contains sub (a ++ b) = true.
Proof.
  induction a as [|y a IH]; intros H.
  - cbn in H. rewrite orb_false_r in H.
    destruct sub; [|done]. by destruct b.
  - cbn in *. apply orb_true_iff in H as [H | H].
    + change (y :: a ++ b) with ((y :: a) ++ b).
      by rewrite (startswith_app_r sub (y :: a) b H).
    + rewrite (IH H). apply orb_true_r.
Qed.

Lemma contains_app_r sub a b :
  contains sub b = true → contains sub (a ++ b) = true.
Proof.
  intros H. induction a as [|y a IH]; [done|]. cbn. rewrite IH.
  apply orb_true_r.
Qed.

Lemma rstrip_crlf X : rstrip (X ++ CRLF) = rstrip X.
Proof. unfold rstrip. rewrite rev_app_distr. done. Qed.

Lemma rstrip_nonspace X c : is_space c = false → rstrip (X ++ [c]) = X ++ [c].
Proof.
  intros Hc. unfold rstrip. rewrite rev_app_distr. cbn. rewrite Hc.
  cbn. by rewrite rev_involutive.
Qed.

(** A text that opens with the calendar begin marker and closes with the
    calendar end marker and a CRLF passes the two marker checks. *)
Lemma calendar_marker_checks P :
  startswith P (lit "BEGIN:VCALENDAR") = true →
  let text := P ++ lit "END:VCALENDAR" ++ CRLF in
  startswith (strip text) (lit "BEGIN:VCALENDAR") = true
  ∧ endswith (strip text) (lit "END:VCALENDAR") = true.
Proof.
  intros HP text.
  assert (Hstrip : strip text = P ++ lit "END:VCALENDAR").
  { unfold strip, text. destruct P as [|c P]; [done|].
    assert (Hc : is_space c = false).
    { change (lit "BEGIN:VCALENDAR") with ("B"%char :: lit "EGIN:VCALENDAR") in HP.
      cbn [startswith] in HP. apply andb_true_iff in HP as [HB _].
      apply Ascii.eqb_eq in HB. by subst c. }
    cbn [app lstrip]. rewrite Hc.
    change (c :: P ++ lit "END:VCALENDAR" ++ CRLF)
      with ((c :: P) ++ lit "END:VCALENDAR" ++ CRLF).
    rewrite app_assoc, rstrip_crlf.
    change (lit "END:VCALENDAR") with (lit "END:VCALENDA" ++ ["R"%char]).
    rewrite app_assoc, rstrip_nonspace by done. by rewrite <- app_assoc. }
  rewrite Hstrip. split; [by apply startswith_app_r|].
  unfold endswith. rewrite rev_app_distr. apply startswith_prefix.
Qed.

(** The search and the counts of the validator on a clean document. *)
Lemma validator_on_lines lines :
  lines ≠ [] → Forall clean_line lines → well_nested false lines = true →
  Validate.findall_vevent (join CRLF lines)
  = map (join CRLF) (terminated_blocks lines)
  ∧ count (join CRLF lines) (lit "BEGIN:VEVENT")
    = length (filter (λ l, is_begin l = true) lines)
  ∧ count (join CRLF lines) (lit "END:VEVENT")
    = length (filter (λ l, is_end l = true) lines).
Proof.
  intros Hne Hclean Hwn.
  assert (Htail : tail_text CRLF lines = CR :: LF :: join CRLF lines).
  { destruct lines as [|l ls]; [done|]. by rewrite join_tail_text. }
  pose proof begin_text_facts as (Hbne & Hbcr & Hblf & _).
  pose proof end_text_facts as (Hene & Hecr & Helf & _).
  split; [|split].
  - rewrite <- findall_crlf, <- Htail. by apply findall_lines.
  - rewrite <- count_begin_tail, Htail by done. unfold count.
    symmetry. by apply count_crlf.
  - rewrite <- count_end_tail, Htail by done. unfold count.
    symmetry. by apply count_crlf.
Qed.

Lemma clean_plain_facts l :
  clean_plain l → clean_line l ∧ plain_line l ∧ line_safe l.
Proof.
  intros (Hcr & Hlf & Hb & He).
  assert (Hclean : clean_line l) by (unfold clean_line; tauto).
  split; [done|]. split; [|done]. split.
  - destruct (clean_begin l Hclean) as [[_ ->] | [? _]]; [|done].
    pose proof begin_text_facts as (_ & _ & _ & _ & _ & _).
    by vm_compute in Hb.
  - destruct (clean_end l Hclean) as [[_ ->] | [? _]]; [|done].
    by vm_compute in He.
Qed.

Lemma filter_false_nil (f : str → bool) lines :
  Forall (λ l, f l = false) lines → filter (λ l, f l = true) lines = [].
Proof.
  induction 1 as [|l ls Hl _ IH]; [done|].
  by rewrite filter_cons, decide_False by (by rewrite Hl).
Qed.

Lemma clean_block_facts b :
  clean_block b →
  well_delimited b ∧ Forall clean_line b ∧ Forall line_safe b
  ∧ (∀ X, well_nested false (b ++ X) = well_nested false X)
  ∧ length (filter (λ l, is_begin l = true) b) = 1
  ∧ length (filter (λ l, is_end l = true) b) = 1.
Proof.
  intros (middle & -> & Hmid).
  pose proof begin_text_facts as (_ & Hbcr & Hblf & _ & Hbb & Hbe).
  pose proof end_text_facts as (_ & Hecr & Helf & _ & Hee & Heb).
  assert (Hplain : Forall plain_line middle)
    by (eapply Forall_impl; [exact Hmid|]; intros l Hl;
        by destruct (clean_plain_facts l Hl) as (_ & ? & _)).
  assert (Hcl : Forall clean_line middle)
    by (eapply Forall_impl; [exact Hmid|]; intros l Hl;
        by destruct (clean_plain_facts l Hl) as (? & _ & _)).
  assert (Hsafe : Forall line_safe middle)
    by (eapply Forall_impl; [exact Hmid|]; intros l Hl;
        by destruct (clean_plain_facts l Hl) as (_ & _ & ?)).
  split; [by exists BEGIN_VEVENT, middle, END_VEVENT|].
  split.
  { constructor; [unfold clean_line; tauto|]. apply Forall_app. split; [done|].
    constructor; [unfold clean_line; tauto|constructor]. }
  split.
  { constructor; [done|]. apply Forall_app. split; [done|].
    constructor; [done|constructor]. }
  split.
  { intros X. cbn [app well_nested]. rewrite Hbb. cbn [negb andb].
    rewrite <- app_assoc. clear Hmid Hcl Hsafe.
    induction Hplain as [|l middle [Hlb Hle] _ IH].
    - cbn [app well_nested]. by rewrite Heb, Hee.
    - cbn [app well_nested]. by rewrite Hlb, Hle. }
  split.
  - rewrite filter_cons, decide_True, filter_app by done.
    rewrite (filter_false_nil is_begin middle), filter_cons, decide_False,
      filter_nil; [done|by rewrite Heb|].
    eapply Forall_impl; [exact Hplain|]. by intros l [Hlb _].
  - rewrite filter_cons, decide_False, filter_app by (by rewrite Hbe).
    rewrite (filter_false_nil is_end middle), filter_cons, decide_True,
      filter_nil; [done|done|].
    eapply Forall_impl; [exact Hplain|]. by intros l [_ Hle].
Qed.

Lemma well_nested_plain o pre X :
  Forall plain_line pre → well_nested o (pre ++ X) = well_nested o X.
Proof.
  induction 1 as [|l pre [Hb He] _ IH]; [done|].
  cbn [app well_nested]. by rewrite Hb, He.
Qed.

Lemma well_nested_blocks blocks X :
  Forall clean_block blocks →
  well_nested false (concat blocks ++ X) = well_nested false X.
Proof.
  induction 1 as [|b blocks Hb _ IH]; [done|].
  destruct (clean_block_facts b Hb) as (_ & _ & _ & Hwn & _).
  cbn [concat]. by rewrite <- app_assoc, Hwn.
Qed.

Lemma marker_lines_of_blocks blocks :
  Forall clean_block blocks →
  length (filter (λ l, is_begin l = true) (concat blocks)) = length blocks
  ∧ length (filter (λ l, is_end l = true) (concat blocks)) = length blocks.
Proof.
  induction 1 as [|b blocks Hb _ [IHb IHe]]; [done|].
  destruct (clean_block_facts b Hb) as (_ & _ & _ & _ & Hnb & Hne).
  cbn [concat length]. rewrite !filter_app, !length_app. lia.
Qed.

Lemma join_app_tail sep l1 l2 :
  l1 ≠ [] → join sep (l1 ++ l2) = join sep l1 ++ tail_text sep l2.
Proof.
  destruct l1 as [|a l1]; [done|]. intros _.
  change ((a :: l1) ++ l2) with (a :: (l1 ++ l2)).
  by rewrite !join_tail_text, tail_text_app, app_assoc.
Qed.

Lemma no_block_misses sub blocks :
  Forall (λ b, contains sub (join CRLF b) = true) blocks →
  filter (λ v, contains sub v = false) (map (join CRLF) blocks) = [].
Proof.
  induction 1 as [|b blocks Hb _ IH]; [done|].
  cbn [map]. by rewrite filter_cons, decide_False, IH by (by rewrite Hb).
Qed.

(** The validator on a document given by its lines: a header, further plain
    lines, event blocks, the calendar end marker and the empty last line. *)
Lemma validate_document_lines header extra blocks :
  header ≠ [] →
  Forall clean_line header → Forall plain_line header →
  Forall clean_line extra → Forall plain_line extra →
  startswith (join CRLF header) (lit "BEGIN:VCALENDAR") = true →
  contains (lit "VERSION:2.0") (join CRLF header) = true →
  contains (lit "PRODID:") (join CRLF header) = true →
  Forall clean_block blocks → Forall has_required_fields blocks →
  let doc :=
    join CRLF (header ++ extra ++ concat blocks ++ [lit "END:VCALENDAR"; []]) in
  Validate.events (Validate.validate doc) = length blocks
  ∧ Validate.status (Validate.validate doc) = lit "PASS"
  ∧ Validate.issues (Validate.validate doc) = [].
Proof.
  intros Hne Hhc Hhp Hec Hep Hstart Hver Hprod Hblocks Hreq doc.
  set (lines := header ++ extra ++ concat blocks ++ [lit "END:VCALENDAR"; []])
    in *.
  subst doc.
  assert (Htc : Forall clean_line [lit "END:VCALENDAR"; []]).
  { repeat (apply Forall_cons; split); try (by apply Forall_nil);
      unfold clean_line; apply (bool_decide_unpack _); by vm_compute. }
  assert (Htp : Forall plain_line [lit "END:VCALENDAR"; []]).
  { repeat (apply Forall_cons; split); try (by apply Forall_nil); by vm_compute. }
  assert (Hbc : Forall clean_line (concat blocks)).
  { clear Hreq. induction Hblocks as [|b bs Hb _ IH]; [constructor|].
    destruct (clean_block_facts b Hb) as (_ & ? & _). cbn. by apply Forall_app. }
  assert (Hwd : Forall well_delimited blocks).
  { eapply Forall_impl; [exact Hblocks|]. intros b Hb.
    by destruct (clean_block_facts b Hb) as (? & _). }
  assert (Hlines_ne : lines ≠ []) by (subst lines; by destruct header).
  assert (Hclean : Forall clean_line lines)
    by (subst lines; by repeat (apply Forall_app; split)).
  assert (Hwn : well_nested false lines = true).
  { subst lines. rewrite !well_nested_plain, well_nested_blocks by done.
    by rewrite <- (app_nil_r [_; _]), well_nested_plain. }
  destruct (validator_on_lines lines Hlines_ne Hclean Hwn) as (Hfind & Hcb & Hce).
  set (doc := join CRLF lines) in *.
  assert (Htb : terminated_blocks lines = blocks)
    by (subst lines; by apply blocks_of_document).
  destruct (marker_lines_of_blocks blocks Hblocks) as [Hnb Hnend].
  assert (Hplain_begin : ∀ ls, Forall plain_line ls →
            filter (λ l, is_begin l = true) ls = []).
  { intros ls Hls. apply filter_false_nil.
    eapply Forall_impl; [exact Hls|]. by intros l [? _]. }
  assert (Hplain_end : ∀ ls, Forall plain_line ls →
            filter (λ l, is_end l = true) ls = []).
  { intros ls Hls. apply filter_false_nil.
    eapply Forall_impl; [exact Hls|]. by intros l [_ ?]. }
  assert (Hbegins : count doc (lit "BEGIN:VEVENT") = length blocks).
  { rewrite Hcb. subst lines. rewrite !filter_app, !length_app.
    rewrite (Hplain_begin header), (Hplain_begin extra),
      (Hplain_begin [lit "END:VCALENDAR"; []]) by done.
    cbn [length]. lia. }
  assert (Hends : count doc (lit "END:VEVENT") = length blocks).
  { rewrite Hce. subst lines. rewrite !filter_app, !length_app.
    rewrite (Hplain_end header), (Hplain_end extra),
      (Hplain_end [lit "END:VCALENDAR"; []]) by done.
    cbn [length]. lia. }
  assert (Hdoc : doc = (join CRLF header ++ tail_text CRLF (extra ++ concat blocks)
                        ++ CRLF) ++ lit "END:VCALENDAR" ++ CRLF).
  { subst doc lines. rewrite join_app_tail by done.
    rewrite (app_assoc extra), tail_text_app. cbn [tail_text].
    by rewrite <- !app_assoc, !app_nil_r. }
  destruct (calendar_marker_checks
              (join CRLF header ++ tail_text CRLF (extra ++ concat blocks) ++ CRLF))
    as [Hs He]; [by apply startswith_app_r|].
  cbn zeta in Hs, He. rewrite <- Hdoc in Hs, He.
  assert (Hv : contains (lit "VERSION:2.0") doc = true)
    by (rewrite Hdoc, <- !app_assoc; by apply contains_app_l).
  assert (Hp : contains (lit "PRODID:") doc = true)
    by (rewrite Hdoc, <- !app_assoc; by apply contains_app_l).
  assert (Hissues : Validate.issues (Validate.validate doc) = []).
  { pose proof (validate_issues doc) as H. cbn zeta in H.
    rewrite Hfind, Htb, Hbegins, Hends, Hs, He, Hv, Hp in H.
    rewrite !no_block_misses in H.
    - by rewrite !decide_True in H by done.
    - eapply Forall_impl; [exact Hreq|]. by intros b [_ ?].
    - eapply Forall_impl; [exact Hreq|]. by intros b [? _]. }
  split; [exact Hbegins|]. split; [|done].
  by rewrite validate_status, Hissues.
Qed.

(** X2: a document built from clean, complete event blocks passes the
    validator.  For event blocks whose marker lines are exactly the marker
    texts, whose other lines hold no line-ending character and no event
    marker text, and which each contain DTSTART and SUMMARY, the document
    that CAISO's or NYISO's builder makes of them is reported with as many
    events as blocks, verdict PASS and no issue. *)
Theorem built_document_passes_validation (blocks : list (list str)) :
  Forall clean_block blocks → Forall has_required_fields blocks →
  let caiso := Caiso.build_merged_ics (map (join CRLF) blocks) in
  let nyiso := Nyiso.build_merged_ics (map (join CRLF) blocks) None in
  Validate.validate caiso = Validate.Report (length blocks) (lit "PASS") []
  ∧ Validate.validate nyiso = Validate.Report (length blocks) (lit "PASS") [].
Proof.
  intros Hblocks Hreq caiso nyiso.
  assert (Hne : Forall (λ b : list str, b ≠ []) blocks).
  { eapply Forall_impl; [exact Hblocks|]. intros b Hb.
    destruct (clean_block_facts b Hb) as (Hwd & _).
    by apply well_delimited_nonempty. }
  assert (Heta : ∀ r n, Validate.events r = n ∧ Validate.status r = lit "PASS"
                        ∧ Validate.issues r = [] →
                        r = Validate.Report n (lit "PASS") []).
  { intros [e s i] n (He & Hs & Hi). cbn in *. by subst. }
  assert (Hcaiso_clean : Forall clean_line caiso_header_lines).
  { repeat (apply Forall_cons; split); try (by apply Forall_nil);
      unfold clean_line; apply (bool_decide_unpack _); by vm_compute. }
  assert (Hnyiso_clean : Forall clean_line nyiso_header_lines).
  { repeat (apply Forall_cons; split); try (by apply Forall_nil);
      unfold clean_line; apply (bool_decide_unpack _); by vm_compute. }
  assert (Hempty_clean : Forall clean_line [[] : str]).
  { repeat (apply Forall_cons; split); try (by apply Forall_nil);
      unfold clean_line; apply (bool_decide_unpack _); by vm_compute. }
  pose proof header_lines_facts as (_ & Hcp & _ & Hnp & _ & _ & _ & Hep).
  split; apply Heta.
  - subst caiso. rewrite caiso_document_lines by done.
    destruct blocks as [|b blocks].
    + by vm_compute.
    + apply (validate_document_lines caiso_header_lines [] (b :: blocks));
        try done; constructor.
  - subst nyiso. rewrite nyiso_document_lines_none by done.
    apply (validate_document_lines nyiso_header_lines [] blocks);
      try done; constructor.
Qed.

Lemma built_document_passes_validation_witness :
  let blocks := two_complete_blocks in
  let caiso := Caiso.build_merged_ics (map (join CRLF) blocks) in
  let nyiso := Nyiso.build_merged_ics (map (join CRLF) blocks) None in
  Validate.validate caiso = Validate.Report (length blocks) (lit "PASS") []
  ∧ Validate.validate nyiso = Validate.Report (length blocks) (lit "PASS") [].
Proof.
  intros blocks. apply (built_document_passes_validation blocks).
  - unfold blocks, two_complete_blocks. cbn [map].
    apply Forall_cons; split; [|apply Forall_cons; split; [|by apply Forall_nil]].
    + exists [lit "UID:a"; lit "DTSTART:20260301T090000Z"; lit "SUMMARY:first"].
      split; [reflexivity|].
      repeat (apply Forall_cons; split); try (by apply Forall_nil);
        unfold clean_plain; apply (bool_decide_unpack _); vm_compute; exact I.
    + exists [lit "UID:b"; lit "DTSTART;VALUE=DATE:20260302"; lit "SUMMARY:second"].
      split; [reflexivity|].
      repeat (apply Forall_cons; split); try (by apply Forall_nil);
        unfold clean_plain; apply (bool_decide_unpack _); vm_compute; exact I.
  - unfold blocks, two_complete_blocks. cbn [map].
    repeat (apply Forall_cons; split); try (by apply Forall_nil);
      vm_compute; split; reflexivity.
Defined.

(** ** The timezone block of NYISO's merge *)

Lemma tz_begin_not_end l : is_tz_begin l = true → is_tz_end l = false.
Proof.
  unfold is_tz_begin, is_tz_end, is_marker. intros Hb.
  apply bool_decide_eq_true in Hb. rewrite Hb. reflexivity.
Qed.

(** The loop invariant of [extract_vtimezone], for both values of
    [inside]. *)
Lemma scan_tz_spec lines : ∀ b,
  Nyiso.scan_tz b true lines
  = match tz_closing lines with
    | Some c => Some (join CRLF (b ++ c))
    | None => join CRLF <$> head (tz_blocks lines)
    end
  ∧ Nyiso.scan_tz b false lines = join CRLF <$> head (tz_blocks lines).
Proof.
  induction lines as [|l rest IH]; intros b; [done|].
  cbn [Nyiso.scan_tz tz_closing tz_blocks].
  fold (is_tz_begin l) (is_tz_end l).
  destruct (is_tz_begin l) eqn:Hb.
  - rewrite (tz_begin_not_end l Hb). cbn [andb app].
    destruct (IH [l]) as [-> _].
    destruct (tz_closing rest); done.
  - cbn [app]. split.
    + cbn [andb]. destruct (is_tz_end l); [done|].
      destruct (IH (b ++ [l])) as [-> _].
      destruct (tz_closing rest); cbn; rewrite <- ?app_assoc; done.
    + cbn [andb]. by destruct (IH b) as [_ ->].
Qed.

Lemma tz_closing_shape lines c :
  tz_closing lines = Some c →
  ∃ middle last,
    c = middle ++ [last] ∧ is_tz_end last = true
    ∧ Forall (λ l, is_tz_begin l = false ∧ is_tz_end l = false) middle.
Proof.
  revert c. induction lines as [|l rest IH]; intros c; cbn; [done|].
  destruct (is_tz_end l) eqn:He.
  - intros [= <-]. exists [], l. repeat split; [done|constructor].
  - destruct (is_tz_begin l) eqn:Hb; [done|].
    destruct (tz_closing rest) as [c'|]; [|done]. intros [= <-].
    destruct (IH c' eq_refl) as (m & z & -> & Hz & Hm).
    exists (l :: m), z. repeat split; [done|by constructor].
Qed.

Lemma tz_blocks_well_delimited lines : Forall tz_well_delimited (tz_blocks lines).
Proof.
  induction lines as [|l rest IH]; cbn; [constructor|].
  apply Forall_app. split; [|done].
  destruct (is_tz_begin l) eqn:Hb; [|constructor].
  destruct (tz_closing rest) as [c|] eqn:Hc; [|constructor].
  constructor; [|constructor].
  destruct (tz_closing_shape _ _ Hc) as (m & z & -> & Hz & Hm).
  exists l, m, z. done.
Qed.

Lemma extract_vtimezone_blocks text :
  Nyiso.extract_vtimezone text
  = join CRLF <$> head (tz_blocks (normalized_lines text)).
Proof.
  unfold Nyiso.extract_vtimezone.
  by destruct (scan_tz_spec (normalized_lines text) []) as [_ ->].
Qed.

(** X3: [extract_vtimezone] returns, joined with CRLF, the first timezone
    block whose begin marker has an end marker as its next timezone marker:
    a begin marker inside an open block restarts the block.  What it
    returns opens with a begin-marker line, closes with an end-marker line,
    has no timezone marker line in between and is never the empty string;
    it returns nothing exactly when the text has no such block. *)
Theorem extract_vtimezone_first_block (text : str) :
  Nyiso.extract_vtimezone text
  = join CRLF <$> head (tz_blocks (normalized_lines text))
  ∧ (Nyiso.extract_vtimezone text = None ↔ tz_blocks (normalized_lines text) = [])
  ∧ (∀ tz, Nyiso.extract_vtimezone text = Some tz →
       ∃ block, tz = join CRLF block ∧ tz_well_delimited block ∧ truthy tz = true).
Proof.
  pose proof (extract_vtimezone_blocks text) as H.
  split; [done|]. split.
  - rewrite H. by destruct (tz_blocks (normalized_lines text)).
  - intros tz Htz.
    pose proof (scan_tz_truthy _ _ _ _ Htz) as Htruthy.
    rewrite H in Htz.
    pose proof (tz_blocks_well_delimited (normalized_lines text)) as Hwd.
    destruct (tz_blocks (normalized_lines text)) as [|block blocks]; [done|].
    apply Forall_cons in Hwd as [Hwd _]. injection Htz as <-.
    by exists block.
Qed.

(** The timezone of the merge is kept once found. *)
Lemma nyiso_timezone_fold feeds : ∀ st,
  Nyiso.vtimezone (fold_left Nyiso.add_feed feeds st)
  = match Nyiso.vtimezone st with
    | Some tz => Some tz
    | None => first_timezone feeds
    end.
Proof.
  induction feeds as [|fetched rest IH]; intros st.
  - cbn. by destruct (Nyiso.vtimezone st).
  - cbn [fold_left first_timezone]. rewrite IH. unfold Nyiso.add_feed.
    destruct (truthy_opt fetched); cbn [negb]; [|done].
    cbn zeta.
    match goal with
    | |- context [fold_left Nyiso.add_vevent ?ves ?st1] =>
        assert (Hz : Nyiso.vtimezone (fold_left Nyiso.add_vevent ves st1)
                     = Nyiso.vtimezone st1)
    end.
    { clear IH.
      generalize (Nyiso.extract_vevents (default [] fetched)).
      intros ves.
      generalize (match Nyiso.vtimezone st with
                  | Some _ => st
                  | None => Nyiso.Merge (Nyiso.seen_uids st) (Nyiso.all_vevents st)
                              (Nyiso.extract_vtimezone (default [] fetched))
                  end).
      induction ves as [|ve ves IHv]; intros s; [done|].
      cbn [fold_left]. rewrite IHv. unfold Nyiso.add_vevent.
      destruct (Nyiso.extract_uid ve) as [uid|]; [|done].
      by destruct (truthy uid && bool_decide (uid ∉ Nyiso.seen_uids s)). }
    rewrite Hz.
    destruct (Nyiso.vtimezone st) as [tz|] eqn:Hst; [by rewrite Hst|].
    cbn [Nyiso.vtimezone].
    by destruct (Nyiso.extract_vtimezone (default [] fetched)).
Qed.

(** X4: what NYISO's [main] writes.  When no fetched feed gives a block with
    a non-empty UID the run exits without a document; otherwise the document
    is [build_merged_ics] of the first occurrence of each UID over all
    fetched feeds in order, with the timezone block of the first fetched
    feed that has one.  Feeds that could not be fetched contribute neither
    events nor a timezone. *)
Theorem nyiso_main_document (feeds : list (option str)) :
  let kept := first_occurrences [] (concat (batches feeds)) in
  Nyiso.main feeds
  = match kept with
    | [] => None
    | _ => Some (Nyiso.build_merged_ics kept (first_timezone feeds))
    end.
Proof.
  intros kept. unfold Nyiso.main, Nyiso.merge_feeds.
  rewrite (nyiso_add_feeds feeds (Nyiso.Merge ∅ [] None) []) by done.
  rewrite nyiso_timezone_fold. cbn [Nyiso.all_vevents Nyiso.vtimezone app].
  done.
Qed.

(** ** Documents of the builders with a joined body *)

(** The lines of a document built as header, body and footer, each followed
    by CRLF. *)
Lemma layout_lines header_lines blocks :
  header_lines ≠ [] →
  Forall (λ b : list str, b ≠ []) blocks →
  join CRLF header_lines ++ CRLF ++ join CRLF (map (join CRLF) blocks) ++ CRLF
    ++ lit "END:VCALENDAR" ++ CRLF
  = join CRLF (header_lines ++ body_lines blocks ++ [lit "END:VCALENDAR"; []]).
Proof.
  intros Hheader Hne. apply join_of_tail_text; [by destruct header_lines|].
  rewrite !tail_text_app.
  rewrite (app_assoc CRLF), tail_text_join by done. f_equal.
  rewrite (app_assoc CRLF (join CRLF _)). f_equal.
  destruct blocks as [|b blocks]; [done|].
  rewrite tail_text_join by done. by apply tail_text_groups.
Qed.

Section BuiltDocuments.

Variable header_lines : list str.
Hypothesis header_nonempty : header_lines ≠ [].
Hypothesis header_clean : Forall clean_line header_lines.
Hypothesis header_plain : Forall plain_line header_lines.
Hypothesis header_begin :
  startswith (join CRLF header_lines) (lit "BEGIN:VCALENDAR") = true.
Hypothesis header_version :
  contains (lit "VERSION:2.0") (join CRLF header_lines) = true.
Hypothesis header_prodid :
  contains (lit "PRODID:") (join CRLF header_lines) = true.

Lemma layout_round_trip blocks :
  Forall clean_block blocks → Forall has_required_fields blocks →
  let doc :=
    join CRLF header_lines ++ CRLF ++ join CRLF (map (join CRLF) blocks) ++ CRLF
      ++ lit "END:VCALENDAR" ++ CRLF in
  Ercot.extract_vevents doc = map (join CRLF) blocks
  ∧ Validate.validate doc = Validate.Report (length blocks) (lit "PASS") [].
Proof.
  intros Hblocks Hreq doc.
  assert (Hfacts : Forall (λ b : list str, b ≠ []) blocks
                   ∧ Forall well_delimited blocks
                   ∧ Forall (Forall line_safe) blocks).
  { repeat split; (eapply Forall_impl; [exact Hblocks|]); intros b Hb;
      destruct (clean_block_facts b Hb) as (Hwd & _ & Hsafe & _); try done.
    by apply well_delimited_nonempty. }
  destruct Hfacts as (Hne & Hwd & Hsafe).
  assert (Hheader_safe : Forall line_safe header_lines).
  { eapply Forall_impl; [exact header_clean|]. by intros l (? & ? & _). }
  assert (Hempty : Forall clean_line [[] : str] ∧ Forall plain_line [[] : str]
                   ∧ Forall line_safe [[] : str]).
  { repeat split; repeat (apply Forall_cons; split); try (by apply Forall_nil);
      try (by vm_compute);
      first [ unfold clean_line | unfold line_safe ];
      apply (bool_decide_unpack _); by vm_compute. }
  destruct Hempty as (Hec & Hep & Hes).
  assert (Htrailer : Forall plain_line [lit "END:VCALENDAR"; []]
                     ∧ Forall line_safe [lit "END:VCALENDAR"; []]).
  { split; repeat (apply Forall_cons; split); try (by apply Forall_nil);
      try (by vm_compute);
      unfold line_safe; apply (bool_decide_unpack _); by vm_compute. }
  destruct Htrailer as (Htp & Hts).
  assert (Heta : ∀ r n, Validate.events r = n ∧ Validate.status r = lit "PASS"
                        ∧ Validate.issues r = [] →
                        r = Validate.Report n (lit "PASS") []).
  { intros [e s i] n (He & Hs & Hi). cbn in *. by subst. }
  subst doc. rewrite layout_lines by done.
  destruct blocks as [|b blocks].
  - split.
    + rewrite extract_of_lines;
        [|by destruct header_lines|by repeat (apply Forall_app; split)].
      cbn [body_lines].
      rewrite plain_lines_no_blocks; [done|].
      by repeat (apply Forall_app; split).
    + apply Heta.
      apply (validate_document_lines header_lines [[]] []); try done.
  - split.
    + rewrite extract_of_lines;
        [|by destruct header_lines|].
      * f_equal. by apply (blocks_of_document header_lines [] (b :: blocks)).
      * apply Forall_app; split; [done|]. apply Forall_app; split; [|done].
        by apply (blocks_line_safe (b :: blocks)).
    + apply Heta.
      apply (validate_document_lines header_lines [] (b :: blocks));
        try done; constructor.
Qed.

End BuiltDocuments.

(** Discharges the six facts about a concrete header. *)
Ltac header_facts :=
  lazymatch goal with
  | |- Forall clean_line _ =>
      repeat (apply Forall_cons; split); try (by apply Forall_nil);
      unfold clean_line; apply (bool_decide_unpack _); by vm_compute
  | |- Forall plain_line _ =>
      repeat (apply Forall_cons; split); try (by apply Forall_nil);
      by vm_compute
  | |- Forall _ _ => assumption
  | |- _ => by vm_compute
  end.

(** X5: the documents of the other five builders.  For event blocks whose
    marker lines are exactly the marker texts, whose other lines hold no
    line-ending character and no event marker text, and which each contain
    DTSTART and SUMMARY, the document that the builder of ERCOT, PJM, SPP,
    ISO-NE or MISO makes of them parses back into exactly those blocks and
    is reported by the validator with as many events as blocks, verdict
    PASS and no issue.  The timezone definition in the headers of ERCOT and
    SPP, with its own DTSTART lines, does not disturb either. *)
Theorem joined_body_documents (blocks : list (list str)) :
  Forall clean_block blocks → Forall has_required_fields blocks →
  Forall (λ build : list str → str,
            let doc := build (map (join CRLF) blocks) in
            Ercot.extract_vevents doc = map (join CRLF) blocks
            ∧ Validate.validate doc
              = Validate.Report (length blocks) (lit "PASS") [])
         [ Ercot.build_merged_ics; Pjm.build_merged_ics; Spp.build_merged_ics;
           Isone.build_merged_ics; Miso.build_merged_ics ].
Proof.
  intros Hblocks Hreq.
  repeat (apply Forall_cons; split); try (by apply Forall_nil).
  - unfold Ercot.build_merged_ics. cbn zeta.
    apply (layout_round_trip Ercot.header_lines); header_facts.
  - unfold Pjm.build_merged_ics. cbn zeta.
    apply (layout_round_trip Pjm.header_lines); header_facts.
  - unfold Spp.build_merged_ics. cbn zeta.
    apply (layout_round_trip Spp.header_lines); header_facts.
  - unfold Isone.build_merged_ics. cbn zeta.
    apply (layout_round_trip Isone.header_lines); header_facts.
  - unfold Miso.build_merged_ics. cbn zeta.
    apply (layout_round_trip Miso.header_lines); header_facts.
Qed.

Lemma joined_body_documents_witness :
  let blocks := two_complete_blocks in
  Forall (λ build : list str → str,
            let doc := build (map (join CRLF) blocks) in
            Ercot.extract_vevents doc = map (join CRLF) blocks
            ∧ Validate.validate doc
              = Validate.Report (length blocks) (lit "PASS") [])
         [ Ercot.build_merged_ics; Pjm.build_merged_ics; Spp.build_merged_ics;
           Isone.build_merged_ics; Miso.build_merged_ics ].
Proof.
  intros blocks. apply (joined_body_documents blocks).
  - unfold blocks, two_complete_blocks. cbn [map].
    apply Forall_cons; split; [|apply Forall_cons; split; [|by apply Forall_nil]].
    + exists [lit "UID:a"; lit "DTSTART:20260301T090000Z"; lit "SUMMARY:first"].
      split; [reflexivity|].
      repeat (apply Forall_cons; split); try (by apply Forall_nil);
        unfold clean_plain; apply (bool_decide_unpack _); vm_compute; exact I.
    + exists [lit "UID:b"; lit "DTSTART;VALUE=DATE:20260302"; lit "SUMMARY:second"].
      split; [reflexivity|].
      repeat (apply Forall_cons; split); try (by apply Forall_nil);
        unfold clean_plain; apply (bool_decide_unpack _); vm_compute; exact I.
  - unfold blocks, two_complete_blocks. cbn [map].
    repeat (apply Forall_cons; split); try (by apply Forall_nil);
      vm_compute; split; reflexivity.
Defined.

(** ** ERCOT's batched download *)

Lemma range_from_concat {A} (l : list A) step fuel : ∀ i,
  0 < step → length l - i ≤ fuel →
  concat (map (λ i, take step (drop i l)) (range_from fuel i (length l) step))
  = drop i l.
Proof.
  induction fuel as [|fuel IH]; intros i Hstep Hfuel; cbn [range_from].
  - cbn. symmetry. apply drop_ge. lia.
  - destruct (Nat.ltb_spec i (length l)) as [Hi|Hi].
    + cbn [map concat]. rewrite IH by lia.
      rewrite <- drop_drop. apply take_drop.
    + cbn. symmetry. apply drop_ge. lia.
Qed.

Lemma batch_count_step x : 0 < x → (x + 49) / 50 = S ((x - 50 + 49) / 50).
Proof.
  intros Hx. destruct (le_lt_dec 50 x) as [Hge|Hlt].
  - replace (x + 49) with ((x - 50 + 49) + 1 * 50) by lia.
    rewrite Nat.div_add by lia. lia.
  - replace (x - 50) with 0 by lia.
    symmetry. apply (Nat.div_unique (x + 49) 50 1 (x - 1)); lia.
Qed.

Lemma range_from_length stop fuel : ∀ i,
  stop - i ≤ fuel →
  length (range_from fuel i stop 50) = (stop - i + 49) / 50.
Proof.
  induction fuel as [|fuel IH]; intros i Hfuel; cbn [range_from].
  - replace (stop - i) with 0 by lia. reflexivity.
  - destruct (Nat.ltb_spec i stop) as [Hi|Hi].
    + cbn [length]. rewrite IH by lia.
      rewrite (batch_count_step (stop - i)) by lia.
      do 3 f_equal. lia.
    + replace (stop - i) with 0 by lia. reflexivity.
Qed.

Lemma range_from_lookup stop step fuel : ∀ i k j,
  range_from fuel i stop step !! k = Some j → j = i + k * step ∧ j < stop.
Proof.
  induction fuel as [|fuel IH]; intros i k j; cbn [range_from]; [done|].
  destruct (Nat.ltb_spec i stop) as [Hi|Hi]; [|done].
  destruct k as [|k]; cbn.
  - intros [= <-]. lia.
  - intros H. apply IH in H. lia.
Qed.

Lemma add_batch_fold fetch bs : ∀ acc,
  fold_left (Ercot.add_batch fetch) bs acc
  = acc ++ concat (map (λ b, Ercot.add_batch fetch [] b) bs).
Proof.
  induction bs as [|b bs IH]; intros acc; cbn [fold_left map concat].
  - by rewrite app_nil_r.
  - rewrite IH, app_assoc. f_equal.
    unfold Ercot.add_batch. by destruct (negb _); rewrite ?app_nil_r.
Qed.

(** X6: ERCOT's batches.  The identifiers are requested in consecutive
    slices: the batches put together give back the list of identifiers, so
    each identifier is requested once and in its place; there are
    [(len + 49) // 50] batches, the number the progress line prints; no
    batch is empty or longer than 50, and batch number [k] (from 0) is
    [uuids[50 k : 50 k + 50]].  Without identifiers [main] exits with
    status 0; otherwise the document holds the events of the batches that
    could be fetched, in batch order, a failed batch losing its own events
    only, and [main] exits with status 1 when that leaves no event. *)
Theorem ercot_batched_download (fetch : list str → option str) (uuids : list str) :
  let bs := Ercot.batches uuids in
  concat bs = uuids
  ∧ length bs = (length uuids + 49) / 50
  ∧ Forall (λ b, 1 ≤ length b ≤ 50) bs
  ∧ (∀ k b, bs !! k = Some b → b = take 50 (drop (50 * k) uuids))
  ∧ Ercot.main fetch uuids
    = match uuids with
      | [] => Exits 0
      | _ =>
          match concat (map (λ b, match fetch b with
                                  | Some text =>
                                      if truthy text
                                      then Ercot.extract_vevents text else []
                                  | None => []
                                  end) bs) with
          | [] => Exits 1
          | all_vevents => Writes (Ercot.build_merged_ics all_vevents)
          end
      end.
Proof.
  intros bs.
  assert (Hfold : fold_left (Ercot.add_batch fetch) bs []
    = concat (map (λ b, match fetch b with
                        | Some text =>
                            if truthy text then Ercot.extract_vevents text else []
                        | None => []
                        end) bs)).
  { rewrite add_batch_fold. cbn [app]. f_equal. apply map_ext. intros b.
    unfold Ercot.add_batch. destruct (fetch b) as [text|]; [|done].
    cbn [truthy_opt default]. by destruct (truthy text). }
  assert (Hmain : Ercot.main fetch uuids
    = match uuids with
      | [] => Exits 0
      | _ =>
          match fold_left (Ercot.add_batch fetch) bs [] with
          | [] => Exits 1
          | all_vevents => Writes (Ercot.build_merged_ics all_vevents)
          end
      end) by done.
  rewrite Hfold in Hmain. clear Hfold.
  subst bs. unfold Ercot.batches, range, Ercot.BATCH_SIZE in *.
  rewrite Nat.sub_0_r in *. split; [|split; [|split; [|split]]].
  - rewrite range_from_concat by lia. apply drop_0.
  - rewrite length_map, range_from_length by lia. by rewrite Nat.sub_0_r.
  - apply Forall_lookup_2. intros k b Hk.
    rewrite list_lookup_fmap in Hk.
    destruct (range_from _ _ _ _ !! k) as [j|] eqn:Hj; [|done].
    injection Hk as <-. apply range_from_lookup in Hj as [-> Hlt].
    rewrite length_take, length_drop. lia.
  - intros k b Hk. rewrite list_lookup_fmap in Hk.
    destruct (range_from _ _ _ _ !! k) as [j|] eqn:Hj; [|done].
    injection Hk as <-. apply range_from_lookup in Hj as [-> Hlt].
    do 2 f_equal. lia.
  - exact Hmain.
Qed.

(** ** The dates PJM's merge lets through *)

Lemma is_digit_value c :
  Pjm.is_digit c = true → (0 ≤ Z.of_nat (nat_of_ascii c) - 48 ≤ 9)%Z.
Proof.
  unfold Pjm.is_digit. cbn zeta. intros H.
  apply andb_true_iff in H as [H1 H2].
  apply Nat.leb_le in H1, H2. lia.
Qed.

Lemma decimal_bound d :
  forallb Pjm.is_digit d = true → (0 ≤ decimal d < 10 ^ Z.of_nat (length d))%Z.
Proof.
  induction d as [|c d IH]; intros H; [cbn; lia|].
  cbn [forallb] in H. apply andb_true_iff in H as [Hc Hd].
  specialize (IH Hd). apply is_digit_value in Hc.
  cbn [decimal length]. rewrite Nat2Z.inj_succ, Z.pow_succ_r by lia. nia.
Qed.

(** On digit strings of one length the string order is the order of the
    numbers. *)
Lemma str_lt_decimal a : ∀ b,
  forallb Pjm.is_digit a = true → forallb Pjm.is_digit b = true →
  length a = length b →
  str_lt a b = (decimal a <? decimal b)%Z.
Proof.
  induction a as [|x a IH]; intros [|y b] Ha Hb Hlen; try done.
  cbn [forallb] in Ha, Hb.
  apply andb_true_iff in Ha as [Hx Ha]. apply andb_true_iff in Hb as [Hy Hb].
  injection Hlen as Hlen. cbn [str_lt decimal]. rewrite (IH b Ha Hb Hlen).
  pose proof (decimal_bound a Ha) as Hba. pose proof (decimal_bound b Hb) as Hbb.
  apply is_digit_value in Hx, Hy. rewrite <- Hlen in *.
  set (P := (10 ^ Z.of_nat (length a))%Z) in *.
  destruct (Nat.ltb_spec (nat_of_ascii x) (nat_of_ascii y)) as [Hlt|Hge].
  - cbn [orb]. symmetry. apply Z.ltb_lt. nia.
  - cbn [orb]. destruct (Nat.eqb_spec (nat_of_ascii x) (nat_of_ascii y)) as [Heq|Hne].
    + cbn [andb]. rewrite Heq.
      destruct (Z.ltb_spec (decimal a) (decimal b));
        symmetry; [apply Z.ltb_lt|apply Z.ltb_ge]; lia.
    + cbn [andb]. symmetry. apply Z.ltb_ge. nia.
Qed.

Lemma decimal_app a b :
  decimal (a ++ b) = (decimal a * 10 ^ Z.of_nat (length b) + decimal b)%Z.
Proof.
  induction a as [|c a IH]; [cbn [app decimal]; lia|].
  cbn [app decimal]. rewrite IH, length_app, Nat2Z.inj_add, Z.pow_add_r by lia.
  ring.
Qed.

Lemma zero_padded_digits w : ∀ n, forallb Pjm.is_digit (zero_padded w n) = true.
Proof.
  induction w as [|w IH]; intros n; [done|]. cbn [zero_padded].
  rewrite forallb_app, IH. cbn [forallb andb]. rewrite andb_true_r.
  unfold Pjm.is_digit. cbn zeta. rewrite nat_of_digit.
  pose proof (Z.mod_pos_bound n 10 ltac:(lia)).
  apply andb_true_iff. split; apply Nat.leb_le; lia.
Qed.

Lemma decimal_zero_padded w : ∀ n,
  (0 ≤ n < 10 ^ Z.of_nat w)%Z → decimal (zero_padded w n) = n.
Proof.
  induction w as [|w IH]; intros n Hn.
  - cbn in *. lia.
  - rewrite Nat2Z.inj_succ, Z.pow_succ_r in Hn by lia.
    cbn [zero_padded]. rewrite decimal_app. cbn [length decimal].
    pose proof (Z.div_mod n 10 ltac:(lia)) as Hdiv.
    pose proof (Z.mod_pos_bound n 10 ltac:(lia)) as Hmod.
    rewrite IH by (split; [apply Z.div_pos; lia|apply Z.div_lt_upper_bound; lia]).
    rewrite nat_of_digit. cbn. lia.
Qed.

Lemma strftime_Ymd_number year month day :
  (0 ≤ year < 10000)%Z → (0 ≤ month < 100)%Z → (0 ≤ day < 100)%Z →
  length (strftime_Ymd year month day) = 8
  ∧ forallb Pjm.is_digit (strftime_Ymd year month day) = true
  ∧ decimal (strftime_Ymd year month day) = yyyymmdd year month day.
Proof.
  intros Hy Hm Hd. unfold strftime_Ymd, yyyymmdd. split; [|split].
  - by rewrite !length_app, !length_zero_padded.
  - by rewrite !forallb_app, !zero_padded_digits.
  - rewrite !decimal_app, !length_app, !length_zero_padded.
    rewrite !decimal_zero_padded by (cbn; lia). cbn. lia.
Qed.

Lemma match_dtstart_digits line d :
  Pjm.match_dtstart line = Some d → forallb Pjm.is_digit d = true.
Proof.
  unfold Pjm.match_dtstart.
  destruct (startswith line (lit "DTSTART")); [|done].
  destruct (Pjm.skip_non_colon (drop 7 line)) as [|c tail]; [done|].
  destruct (length (take 8 tail) =? 8); [|done].
  destruct (forallb Pjm.is_digit (take 8 tail)) eqn:Hd; [|done].
  by intros [= <-].
Qed.

Lemma extract_dtstart_date_digits ve d :
  Pjm.extract_dtstart_date ve = Some d →
  length d = 8 ∧ forallb Pjm.is_digit d = true.
Proof.
  unfold Pjm.extract_dtstart_date.
  induction (split ve CRLF) as [|line rest IH]; cbn; [done|].
  destruct (Pjm.match_dtstart line) as [d'|] eqn:Hm; [|done].
  intros [= ->]. split; [by eapply match_dtstart_length|by eapply match_dtstart_digits].
Qed.

(** ** Months and date windows *)

Lemma months_loop_length n : ∀ m y, length (Miso.months_loop n m y) = n.
Proof.
  induction n as [|n IH]; intros m y; [done|]. cbn [Miso.months_loop length].
  destruct (m + 1 >? 12)%Z; by rewrite IH.
Qed.

Lemma months_loop_lookup n : ∀ m y k m' y',
  (1 ≤ m ≤ 12)%Z →
  Miso.months_loop n m y !! k = Some (m', y') →
  (1 ≤ m' ≤ 12)%Z ∧ (12 * y' + m' = 12 * y + m + Z.of_nat k)%Z.
Proof.
  induction n as [|n IH]; intros m y k m' y' Hm; [done|].
  cbn [Miso.months_loop]. destruct k as [|k].
  - cbn. intros [= <- <-]. lia.
  - cbn [lookup list_lookup]. destruct (Z.gtb_spec (m + 1) 12) as [Hgt|Hle]; intros H.
    + apply IH in H; lia.
    + apply IH in H; lia.
Qed.

(** X8: the months MISO fetches.  For a today in month [m] of year [y],
    [months_to_fetch] returns [months_ahead] pairs (none when the count is
    not positive), and the pair at position [k] is a month between 1 and 12
    with its year, exactly [k] months after the current month: the months
    are consecutive, start with the current one and roll over into the next
    year after December. *)
Theorem months_to_fetch_consecutive (today_month today_year months_ahead : Z) :
  (1 ≤ today_month ≤ 12)%Z →
  let months := Miso.months_to_fetch today_month today_year months_ahead in
  length months = Z.to_nat months_ahead
  ∧ (months_ahead ≤ 0 → months = [])%Z
  ∧ (0 < months_ahead → head months = Some (today_month, today_year))%Z
  ∧ ∀ k m y,
      months !! k = Some (m, y) →
      (1 ≤ m ≤ 12)%Z
      ∧ (12 * y + m = 12 * today_year + today_month + Z.of_nat k)%Z
      ∧ (Z.of_nat k < months_ahead)%Z.
Proof.
  intros Hm months. subst months. unfold Miso.months_to_fetch.
  split; [apply months_loop_length|]. split; [|split].
  - intros Hle. by replace (Z.to_nat months_ahead) with 0 by lia.
  - intros Hpos. destruct (Z.to_nat months_ahead) as [|n] eqn:Hn; [lia|done].
  - intros k m y Hk.
    pose proof (lookup_lt_Some _ _ _ Hk) as Hlt.
    rewrite months_loop_length in Hlt.
    destruct (months_loop_lookup _ _ _ _ _ _ Hm Hk) as [? ?]. lia.
Qed.

Lemma months_to_fetch_consecutive_witness :
  let months := Miso.months_to_fetch 11 2026 3 in
  length months = Z.to_nat 3
  ∧ (3 ≤ 0 → months = [])%Z
  ∧ (0 < 3 → head months = Some (11, 2026))%Z
  ∧ ∀ k m y,
      months !! k = Some (m, y) →
      (1 ≤ m ≤ 12)%Z
      ∧ (12 * y + m = 12 * 2026 + 11 + Z.of_nat k)%Z
      ∧ (Z.of_nat k < 3)%Z.
Proof.
  apply (months_to_fetch_consecutive 11 2026 3). lia.
Defined.

(** X9: the window of [date_range] in the ERCOT, CAISO, SPP and ISO-NE
    scripts.  The four functions agree, ISO-NE's appending the time of day to
    both dates.  Counting months linearly, the end is the first day of the
    month [months_ahead] after the current one, also across a year's end and
    for a negative count; the call raises exactly when that month lies
    outside the years 1 to 9999. *)
Theorem date_range_end_month (today_year today_month months_ahead : Z) :
  (1 ≤ today_year ≤ 9999)%Z → (1 ≤ today_month ≤ 12)%Z →
  let target := (12 * today_year + today_month + months_ahead)%Z in
  Caiso.date_range today_year today_month months_ahead
  = Ercot.date_range today_year today_month months_ahead
  ∧ Spp.date_range today_year today_month months_ahead
    = Ercot.date_range today_year today_month months_ahead
  ∧ Isone.date_range today_year today_month months_ahead
    = prod_map (λ s, s ++ lit "T00:00:00") (λ e, e ++ lit "T00:00:00")
      <$> Ercot.date_range today_year today_month months_ahead
  ∧ (Ercot.date_range today_year today_month months_ahead = None
     ↔ ¬ (13 ≤ target ≤ 12 * 9999 + 12)%Z)
  ∧ ∀ start_ end_,
      Ercot.date_range today_year today_month months_ahead = Some (start_, end_) →
      start_ = isoformat today_year today_month 1
      ∧ ∃ year month,
          (1 ≤ year ≤ 9999)%Z ∧ (1 ≤ month ≤ 12)%Z
          ∧ (12 * year + month = target)%Z
          ∧ end_ = isoformat year month 1.
Proof.
  intros Hy Hm target.
  split; [done|]. split; [done|].
  unfold Isone.date_range, Ercot.date_range.
  set (total := (today_month + months_ahead - 1)%Z).
  pose proof (Z.div_mod total 12 ltac:(lia)) as Hdiv.
  pose proof (Z.mod_pos_bound total 12 ltac:(lia)) as Hmod.
  destruct (Z.leb_spec 1 (today_year + total / 12)) as [H1|H1];
    destruct (Z.leb_spec (today_year + total / 12) 9999) as [H2|H2];
    cbn [andb]; (split; [done|]); (split; [split; [try done; lia|try lia]|]);
    try done; try (intros _; done).
  intros start_ end_ [= <- <-]. split; [done|].
  exists (today_year + total / 12)%Z, (total mod 12 + 1)%Z.
  repeat split; lia.
Qed.

Lemma date_range_end_month_witness :
  let target := (12 * 2026 + 11 + 3)%Z in
  Caiso.date_range 2026 11 3 = Ercot.date_range 2026 11 3
  ∧ Spp.date_range 2026 11 3 = Ercot.date_range 2026 11 3
  ∧ Isone.date_range 2026 11 3
    = prod_map (λ s, s ++ lit "T00:00:00") (λ e, e ++ lit "T00:00:00")
      <$> Ercot.date_range 2026 11 3
  ∧ (Ercot.date_range 2026 11 3 = None ↔ ¬ (13 ≤ target ≤ 12 * 9999 + 12)%Z)
  ∧ ∀ start_ end_,
      Ercot.date_range 2026 11 3 = Some (start_, end_) →
      start_ = isoformat 2026 11 1
      ∧ ∃ year month,
          (1 ≤ year ≤ 9999)%Z ∧ (1 ≤ month ≤ 12)%Z
          ∧ (12 * year + month = target)%Z
          ∧ end_ = isoformat year month 1.
Proof.
  apply (date_range_end_month 2026 11 3); lia.
Defined.

(** ** Occurrences of a text *)

Lemma startswith_spec m : ∀ s, startswith s m = true ↔ ∃ post, s = m ++ post.
Proof.
  induction m as [|a m IH]; intros s.
  - split; [by exists s|done].
  - destruct s as [|b s]; cbn.
    + split; [done|]. by intros [post ?].
    + rewrite andb_true_iff, IH. split.
      * intros [Hab [post ->]]. apply Ascii.eqb_eq in Hab as ->. by exists post.
      * intros [post [= -> ->]]. split; [apply Ascii.eqb_refl|by exists post].
Qed.

Lemma contains_spec m s :
  contains m s = true ↔ ∃ pre post, s = pre ++ m ++ post.
Proof.
  split.
  - induction s as [|c s IH]; cbn; rewrite orb_true_iff.
    + intros [H | H]; [|done]. apply startswith_spec in H as [post ->].
      by exists [], post.
    + intros [H | H].
      * apply startswith_spec in H as [post ->]. by exists [], post.
      * destruct (IH H) as (pre & post & ->). by exists (c :: pre), post.
  - intros (pre & post & ->). apply contains_infix.
Qed.

Lemma contains_trans a b s :
  contains a b = true → contains b s = true → contains a s = true.
Proof.
  rewrite !contains_spec. intros (p1 & q1 & ->) (p2 & q2 & ->).
  exists (p2 ++ p1), (q1 ++ q2). by rewrite <- !app_assoc.
Qed.

(** No occurrence begins inside a text that lacks the first character. *)
Lemma contains_skip_foreign a m p x :
  a ∉ p → contains (a :: m) (p ++ x) = contains (a :: m) x.
Proof.
  induction p as [|c p IH]; intros Hp; [done|].
  apply not_elem_of_cons in Hp as [Hac Hp].
  cbn [app contains startswith]. rewrite IH by done.
  destruct (Ascii.eqb_spec a c); [done|]. done.
Qed.

Lemma contains_foreign a m x : a ∉ x → contains (a :: m) x = false.
Proof.
  intros Hx. rewrite <- (app_nil_r x), contains_skip_foreign by done. done.
Qed.

(** No occurrence reaches over a character that the text lacks. *)
Lemma contains_straddle m a c b :
  m ≠ [] → c ∉ m →
  contains m (a ++ c :: b) = contains m a || contains m b.
Proof.
  intros Hm Hc. induction a as [|y a IH].
  - cbn [app]. destruct m as [|x m]; [done|].
    apply not_elem_of_cons in Hc as [Hcx _].
    cbn. destruct (Ascii.eqb_spec x c); [done|]. done.
  - cbn [app contains]. rewrite IH, orb_assoc. f_equal. f_equal.
    destruct (startswith (y :: a) m) eqn:Hs.
    + by apply (startswith_app_r m (y :: a) (c :: b)).
    + destruct (startswith (y :: a ++ c :: b) m) eqn:Hs'; [|done].
      apply (startswith_straddle m (y :: a) c b Hc) in Hs'. congruence.
Qed.

Lemma escape_char_cases c :
  (escape_char c = [c] ∧ c ≠ LF)
  ∨ ∃ e, escape_char c = ["\"%char; e]
         ∧ (e = "\"%char ∨ e = ";"%char ∨ e = ","%char ∨ e = "n"%char).
Proof.
  unfold escape_char.
  destruct (Ascii.eqb c "\"); [right; eexists; split; [done|tauto]|].
  destruct (Ascii.eqb c ";"); [right; eexists; split; [done|tauto]|].
  destruct (Ascii.eqb c ","); [right; eexists; split; [done|tauto]|].
  destruct (Ascii.eqb_spec c LF); [right; eexists; split; [done|tauto]|].
  by left.
Qed.

(** Escaping creates no occurrence of a text without escaped or escaping
    characters. *)
Lemma startswith_escape m : ∀ s,
  Forall (λ c, escape_char c = [c]) m →
  startswith (s ≫= escape_char) m = true → startswith s m = true.
Proof.
  induction m as [|a m IH]; intros s Hm Hs; [done|].
  apply Forall_cons in Hm as [Ha Hm].
  destruct s as [|c s]; [done|]. cbn [mbind list_bind] in Hs.
  destruct (escape_char_cases c) as [[Hc _] | (e & Hc & _)];
    rewrite Hc in Hs; cbn in Hs |- *.
  - apply andb_true_iff in Hs as [-> Hs]. cbn. by apply IH.
  - apply andb_true_iff in Hs as [Hab _]. apply Ascii.eqb_eq in Hab as ->.
    by vm_compute in Ha.
Qed.

Lemma contains_escape a m s :
  Forall (λ c, escape_char c = [c]) (a :: m) → a ≠ "n"%char →
  contains (a :: m) (s ≫= escape_char) = true → contains (a :: m) s = true.
Proof.
  intros Hm Hn. induction s as [|c s IH]; [done|].
  cbn [mbind list_bind].
  pose proof (Forall_inv Hm) as Ha.
  assert (Ha' : a ≠ "\"%char ∧ a ≠ ";"%char ∧ a ≠ ","%char).
  { repeat split; intros ->; by vm_compute in Ha. }
  destruct Ha' as (H1 & H2 & H3).
  destruct (escape_char_cases c) as [[Hc _] | (e & Hc & He)]; rewrite Hc.
  - cbn [app]. intros H. cbn [contains] in H |- *.
    apply orb_true_iff in H as [H | H].
    + apply orb_true_iff. left.
      apply (startswith_escape (a :: m) (c :: s) Hm).
      cbn [mbind list_bind]. by rewrite Hc.
    + rewrite (IH H). apply orb_true_r.
  - rewrite contains_skip_foreign.
    + intros H. cbn [contains]. rewrite (IH H). apply orb_true_r.
    + apply not_elem_of_cons. split; [done|].
      apply not_elem_of_cons. split; [|apply not_elem_of_nil].
      by destruct He as [-> | [-> | [-> | ->]]].
Qed.

Lemma escape_no_lf s : LF ∉ ics_escape s.
Proof.
  rewrite ics_escape_chars. intros H.
  apply list_elem_of_bind in H as (c & Hin & _).
  destruct (escape_char_cases c) as [[Hc Hne] | (e & Hc & He)]; rewrite Hc in Hin.
  - apply list_elem_of_singleton in Hin. congruence.
  - apply elem_of_cons in Hin as [Hin | Hin]; [done|].
    apply list_elem_of_singleton in Hin.
    by destruct He as [-> | [-> | [-> | ->]]].
Qed.

Lemma escape_cr s : CR ∉ s → CR ∉ ics_escape s.
Proof.
  rewrite ics_escape_chars. intros Hs H.
  apply list_elem_of_bind in H as (c & Hin & Hc'). 
  destruct (escape_char_cases c) as [[Hc Hne] | (e & Hc & He)]; rewrite Hc in Hin.
  - apply list_elem_of_singleton in Hin. by subst.
  - apply elem_of_cons in Hin as [Hin | Hin]; [done|].
    apply list_elem_of_singleton in Hin.
    by destruct He as [-> | [-> | [-> | ->]]].
Qed.

(** ** Lines built from the fields of an event *)

Lemma vevent_free_markers l :
  contains VEVENT l = false →
  contains BEGIN_VEVENT l = false ∧ contains END_VEVENT l = false.
Proof.
  intros H. split.
  - destruct (contains BEGIN_VEVENT l) eqn:E; [|done].
    rewrite (contains_trans VEVENT BEGIN_VEVENT l) in H; by vm_compute.
  - destruct (contains END_VEVENT l) eqn:E; [|done].
    rewrite (contains_trans VEVENT END_VEVENT l) in H; by vm_compute.
Qed.

Lemma line_text_clean l : line_text l → clean_plain l.
Proof.
  intros (Hcr & Hlf & Hv). destruct (vevent_free_markers l Hv). done.
Qed.

Lemma line_text_prefix p x :
  ("V"%char ∉ p) → (CR ∉ p) → (LF ∉ p) → line_text x → line_text (p ++ x).
Proof.
  intros Hv Hcr Hlf (Hxcr & Hxlf & Hx). unfold line_text, VEVENT.
  rewrite !not_elem_of_app.
  change (lit "VEVENT") with ("V"%char :: lit "EVENT").
  by rewrite contains_skip_foreign.
Qed.

Lemma line_text_app_sep x c y :
  c ≠ CR → c ≠ LF → (c ∉ VEVENT) → line_text x → line_text y →
  line_text (x ++ c :: y).
Proof.
  intros Hcr Hlf Hc (Hxcr & Hxlf & Hx) (Hycr & Hylf & Hy). unfold line_text.
  rewrite !not_elem_of_app, !not_elem_of_cons.
  rewrite contains_straddle, Hx, Hy by done. done.
Qed.

Lemma free_text_escape s : free_text s → line_text (ics_escape s).
Proof.
  intros (Hcr & Hv). split; [by apply escape_cr|]. split; [apply escape_no_lf|].
  destruct (contains VEVENT (ics_escape s)) eqn:E; [|done].
  rewrite ics_escape_chars in E. unfold VEVENT in *.
  change (lit "VEVENT") with ("V"%char :: lit "EVENT") in *.
  apply contains_escape in E; [congruence| |done].
  repeat constructor.
Qed.

Lemma before_elem c x s : x ∈ before c s → x ∈ s.
Proof.
  induction s as [|a s IH]; cbn; [done|].
  destruct (Ascii.eqb c a); [by intros ?%elem_of_nil|].
  rewrite !elem_of_cons. intros [-> | H]; [by left|right; by apply IH].
Qed.

Lemma stamp_text_parse_dt s : stamp_text s → line_text (Spp.parse_dt s).
Proof.
  intros Hs. rewrite parse_dt_chars.
  assert (Hsub : ∀ x,
            x ∈ filter (λ x, x ≠ ":"%char)
                  (filter (λ x, x ≠ "-"%char) (before "."%char s)) →
            Pjm.is_digit x = true ∨ x ∈ lit "-:T.").
  { intros x Hx. apply list_elem_of_filter in Hx as [_ Hx].
    apply list_elem_of_filter in Hx as [_ Hx]. apply before_elem in Hx.
    unfold stamp_text in Hs. rewrite Forall_forall in Hs. by apply Hs. }
  assert (Hnot : ∀ c, Pjm.is_digit c = false → c ∉ lit "-:T." →
            c ∉ filter (λ x, x ≠ ":"%char)
                  (filter (λ x, x ≠ "-"%char) (before "."%char s))).
  { intros c Hd Hc Hin. destruct (Hsub c Hin); congruence. }
  split; [|split].
  - apply Hnot; [done|]. apply (bool_decide_unpack _). by vm_compute.
  - apply Hnot; [done|]. apply (bool_decide_unpack _). by vm_compute.
  - unfold VEVENT. change (lit "VEVENT") with ("V"%char :: lit "EVENT").
    apply contains_foreign. apply Hnot; [done|].
    apply (bool_decide_unpack _). by vm_compute.
Qed.

Lemma free_text_join parts :
  Forall free_text parts → free_text (join (lit ", ") parts).
Proof.
  induction 1 as [|a parts Ha _ IH]; [split; [apply not_elem_of_nil|done]|].
  destruct parts as [|b parts]; [done|].
  rewrite join_cons by done.
  destruct Ha as [Hacr Ha]. destruct IH as [Hcr Hv].
  split.
  - rewrite !not_elem_of_app. split; [done|]. split; [|done].
    apply (bool_decide_unpack _). by vm_compute.
  - change (lit ", " ++ join (lit ", ") (b :: parts))
      with (","%char :: [" "%char] ++ join (lit ", ") (b :: parts)).
    rewrite contains_straddle, Ha;
      [|done|apply (bool_decide_unpack _); by vm_compute].
    unfold VEVENT in *. change (lit "VEVENT") with ("V"%char :: lit "EVENT") in *.
    rewrite contains_skip_foreign; [done|].
    apply (bool_decide_unpack _). by vm_compute.
Qed.

(** ** Splitting a block into its lines *)

Lemma split_crlf_line l : ∀ cur R,
  CR ∉ l → split_from 0 cur (l ++ R) CRLF = split_from 0 (cur ++ l) R CRLF.
Proof.
  induction l as [|a l IH]; intros cur R Hl; [by rewrite app_nil_r|].
  apply not_elem_of_cons in Hl as [Ha Hl].
  change ((a :: l) ++ R) with (a :: (l ++ R)).
  unfold CRLF at 1. cbn [split_from startswith].
  destruct (Ascii.eqb_spec CR a) as [?|_]; [done|]. cbn [andb].
  fold CRLF. rewrite IH by done. by rewrite <- app_assoc.
Qed.

Lemma split_crlf_tail ls : ∀ cur,
  Forall (λ l, CR ∉ l) ls →
  split_from 0 cur (tail_text CRLF ls) CRLF = cur :: ls.
Proof.
  induction ls as [|l ls IH]; intros cur Hls; [done|].
  apply Forall_cons in Hls as [Hl Hls].
  cbn [tail_text]. unfold CRLF. cbn [app split_from startswith].
  rewrite !Ascii.eqb_refl. cbn [andb length Nat.sub split_from]. f_equal.
  fold CRLF. rewrite split_crlf_line by done. by apply IH.
Qed.

(** The lines of a block are recovered by [split(CRLF)]. *)
Lemma split_crlf_join l ls :
  Forall (λ l, CR ∉ l) (l :: ls) → split (join CRLF (l :: ls)) CRLF = l :: ls.
Proof.
  intros H. apply Forall_cons in H as [Hl Hls].
  rewrite join_tail_text. unfold split.
  rewrite split_crlf_line by done. by apply split_crlf_tail.
Qed.

(** ** Regular event objects *)

Lemma field_get event key P d :
  field event key P → P d →
  ∃ s, get event key (JStr d) = JStr s ∧ P s ∧ text_of_field event key d = s.
Proof.
  unfold field, get, text_of_field. intros Hf Hd.
  destruct (event !! key) as [[| | |s]|]; try done; by eexists.
Qed.

Lemma join_truthy_strings parts :
  Spp.join_truthy (map JStr parts)
  = Ok (filter (λ s, truthy s = true) parts).
Proof.
  induction parts as [|s parts IH]; [done|].
  cbn [map Spp.join_truthy json_truthy]. rewrite IH, filter_cons.
  destruct s; [done|]. cbn [truthy]. by rewrite decide_True by done.
Qed.

Lemma parse_dt_falsy s : truthy s = false → Spp.parse_dt s = [].
Proof. by destruct s. Qed.

(** [build_vevent] on an event whose fields are strings: one expression for
    the lines it joins. *)
Lemma spp_build_normal now event eid t a st en l1 l2 l3 u :
  event !! "id" = Some eid →
  get event "title" (JStr (lit "SPP Event")) = JStr t →
  get event "alternateTitle" (JStr []) = JStr a →
  get event "start" (JStr []) = JStr st →
  get event "end" (JStr []) = JStr en →
  get event "location" (JStr []) = JStr l1 →
  get event "city" (JStr []) = JStr l2 →
  get event "state" (JStr []) = JStr l3 →
  get event "url" (JStr []) = JStr u →
  let location := join (lit ", ") (filter (λ s, truthy s = true) [l1; l2; l3]) in
  let url :=
    if truthy u
    then (if startswith u (lit "http") then u else Spp.SPP_BASE ++ u)
    else [] in
  Spp.build_vevent now event
  = if truthy (Spp.parse_dt st) then
      Ok (join CRLF
            (BEGIN_VEVENT
             :: ([ lit "UID:" ++ py_str eid ++ lit "@spp.org";
                   lit "DTSTAMP:" ++ now;
                   lit "DTSTART;TZID=America/Chicago:" ++ Spp.parse_dt st ]
                 ++ (if truthy (Spp.parse_dt en)
                     then [lit "DTEND;TZID=America/Chicago:" ++ Spp.parse_dt en]
                     else [])
                 ++ [lit "SUMMARY:" ++ ics_escape t]
                 ++ (if truthy a && negb (bool_decide (a = t))
                     then [lit "DESCRIPTION:" ++ ics_escape a] else [])
                 ++ (if truthy location
                     then [lit "LOCATION:" ++ ics_escape location] else [])
                 ++ (if truthy url then [lit "URL:" ++ url] else []))
             ++ [END_VEVENT]))
    else Ok [].
Proof.
  intros Hid Ht Ha Hst Hen H1 H2 H3 Hu location url.
  unfold Spp.build_vevent. rewrite Hid, Ht, Ha, Hst, Hen, H1, H2, H3, Hu.
  change [JStr l1; JStr l2; JStr l3] with (map JStr [l1; l2; l3]).
  rewrite join_truthy_strings.
  cbn [mbind result_bind fmap result_fmap json_truthy as_str json_eq].
  fold location. subst url.
  set (url1 := if startswith u (lit "http") then u else Spp.SPP_BASE ++ u).
  destruct (truthy u) eqn:Eu; destruct (truthy st) eqn:Est;
    destruct (truthy en) eqn:Een;
    cbn [mbind result_bind fmap result_fmap truthy_opt negb];
    rewrite ?(parse_dt_falsy st Est), ?(parse_dt_falsy en Een);
    cbn [truthy]; try reflexivity.
  all: destruct (truthy (Spp.parse_dt st)); cbn [negb]; [|reflexivity].
  all: cbn [truthy_opt default from_option]; unfold id.
  all: destruct (truthy (Spp.parse_dt en));
    destruct (truthy a && negb (bool_decide (a = t)));
    destruct (truthy location);
    try destruct (truthy url1);
    cbn [mbind result_bind fmap result_fmap truthy_opt truthy];
    reflexivity.
Qed.

Lemma contains_in_lines sub x first pre post :
  contains sub (join CRLF (first :: pre ++ (sub ++ x) :: post)) = true.
Proof.
  rewrite join_tail_text, tail_text_app. cbn [tail_text].
  apply contains_spec.
  exists (first ++ tail_text CRLF pre ++ CRLF), (x ++ tail_text CRLF post).
  by rewrite <- !app_assoc.
Qed.

Lemma first_uid_block x rest :
  Nyiso.first_uid (BEGIN_VEVENT :: (lit "UID:" ++ x) :: rest) = Some (strip x).
Proof.
  cbn [Nyiso.first_uid].
  change (startswith BEGIN_VEVENT (lit "UID:")) with false. cbn iota.
  by rewrite startswith_prefix.
Qed.

Lemma clean_plain_no_cr l : clean_plain l → CR ∉ l.
Proof. by intros (? & _). Qed.

Lemma block_lines_no_cr middle :
  Forall clean_plain middle →
  Forall (λ l, CR ∉ l) (BEGIN_VEVENT :: middle ++ [END_VEVENT]).
Proof.
  intros Hm. apply Forall_cons. split; [apply begin_text_facts|].
  apply Forall_app. split.
  - eapply Forall_impl; [exact Hm|]. apply clean_plain_no_cr.
  - apply Forall_cons. split; [apply end_text_facts|constructor].
Qed.

(** The block that [build_vevent] makes of a regular event. *)
Lemma spp_regular_block now event :
  line_text now → spp_regular event →
  if truthy (spp_start event) then
    ∃ middle,
      Spp.build_vevent now event
      = Ok (join CRLF (BEGIN_VEVENT :: middle ++ [END_VEVENT]))
      ∧ Forall clean_plain middle
      ∧ has_required_fields (BEGIN_VEVENT :: middle ++ [END_VEVENT])
      ∧ Nyiso.extract_uid (join CRLF (BEGIN_VEVENT :: middle ++ [END_VEVENT]))
        = Some (strip (spp_uid event))
  else Spp.build_vevent now event = Ok [].
Proof.
  intros Hnow ((eid & Hid & Heid) & Ht & Ha & Hst & Hen & Hl1 & Hl2 & Hl3 & Hu).
  assert (Hfree_nil : free_text []) by (split; [apply not_elem_of_nil|done]).
  assert (Hline_nil : line_text [])
    by (split; [apply not_elem_of_nil|split; [apply not_elem_of_nil|done]]).
  assert (Hdefault : free_text (lit "SPP Event"))
    by (split; [apply (bool_decide_unpack _); by vm_compute|by vm_compute]).
  destruct (field_get _ _ _ (lit "SPP Event") Ht Hdefault) as (t & Hgt & Hft & _).
  destruct (field_get _ _ _ [] Ha Hfree_nil) as (a & Hga & Hfa & _).
  destruct (field_get _ _ _ [] Hst (Forall_nil_2 _)) as (st & Hgst & Hfst & Htst).
  destruct (field_get _ _ _ [] Hen (Forall_nil_2 _)) as (en & Hgen & Hfen & _).
  destruct (field_get _ _ _ [] Hl1 Hfree_nil) as (l1 & Hg1 & Hf1 & _).
  destruct (field_get _ _ _ [] Hl2 Hfree_nil) as (l2 & Hg2 & Hf2 & _).
  destruct (field_get _ _ _ [] Hl3 Hfree_nil) as (l3 & Hg3 & Hf3 & _).
  destruct (field_get _ _ _ [] Hu Hline_nil) as (u & Hgu & Hfu & _).
  rewrite (spp_build_normal now event eid t a st en l1 l2 l3 u) by done.
  unfold spp_start, spp_uid. rewrite Htst, Hid.
  destruct (truthy (Spp.parse_dt st)) eqn:Ed; [|done].
  set (location := join (lit ", ") (filter (λ s, truthy s = true) [l1; l2; l3])).
  set (url := if truthy u
              then (if startswith u (lit "http") then u else Spp.SPP_BASE ++ u)
              else []).
  assert (Hloc : free_text location).
  { apply free_text_join. apply Forall_forall. intros x Hx.
    apply list_elem_of_filter in Hx as [_ Hx].
    assert (Hparts : Forall free_text [l1; l2; l3])
      by (repeat (apply Forall_cons; split); done).
    rewrite Forall_forall in Hparts. by apply Hparts. }
  assert (Hurl : line_text url).
  { subst url. destruct (truthy u); [|done].
    destruct (startswith u (lit "http")); [done|].
    apply line_text_prefix; try done;
      apply (bool_decide_unpack _); by vm_compute. }
  assert (Hprefix : ∀ p x, bool_decide (("V"%char ∉ lit p) ∧ (CR ∉ lit p) ∧ (LF ∉ lit p)) = true →
            line_text x → clean_plain (lit p ++ x)).
  { intros p x Hp Hx. apply bool_decide_eq_true in Hp as (? & ? & ?).
    apply line_text_clean. by apply line_text_prefix. }
  eexists. split; [reflexivity|].
  assert (Hmiddle : Forall clean_plain
    ([ lit "UID:" ++ py_str eid ++ lit "@spp.org"; lit "DTSTAMP:" ++ now;
       lit "DTSTART;TZID=America/Chicago:" ++ Spp.parse_dt st ]
     ++ (if truthy (Spp.parse_dt en)
         then [lit "DTEND;TZID=America/Chicago:" ++ Spp.parse_dt en] else [])
     ++ [lit "SUMMARY:" ++ ics_escape t]
     ++ (if truthy a && negb (bool_decide (a = t))
         then [lit "DESCRIPTION:" ++ ics_escape a] else [])
     ++ (if truthy location then [lit "LOCATION:" ++ ics_escape location] else [])
     ++ (if truthy url then [lit "URL:" ++ url] else []))).
  { repeat (apply Forall_app; split);
      repeat match goal with
             | |- Forall _ (if ?c then _ else _) => destruct c
             end;
      repeat (apply Forall_cons; split); try (by apply Forall_nil);
      apply Hprefix; try (by vm_compute); try done.
    - change (lit "@spp.org") with ("@"%char :: lit "spp.org").
      apply line_text_app_sep; try done.
      + apply (bool_decide_unpack _); by vm_compute.
      + split; [|split]; apply (bool_decide_unpack _); by vm_compute.
    - by apply stamp_text_parse_dt.
    - by apply stamp_text_parse_dt.
    - by apply free_text_escape.
    - by apply free_text_escape.
    - by apply free_text_escape. }
  split; [exact Hmiddle|]. split; [split|].
  - destruct (truthy (Spp.parse_dt en));
      apply (contains_in_lines (lit "DTSTART")
               (lit ";TZID=America/Chicago:" ++ Spp.parse_dt st) BEGIN_VEVENT
               [lit "UID:" ++ py_str eid ++ lit "@spp.org"; lit "DTSTAMP:" ++ now]).
  - destruct (truthy (Spp.parse_dt en)).
    + apply (contains_in_lines (lit "SUMMARY") (lit ":" ++ ics_escape t) BEGIN_VEVENT
               [lit "UID:" ++ py_str eid ++ lit "@spp.org"; lit "DTSTAMP:" ++ now;
                lit "DTSTART;TZID=America/Chicago:" ++ Spp.parse_dt st;
                lit "DTEND;TZID=America/Chicago:" ++ Spp.parse_dt en]).
    + apply (contains_in_lines (lit "SUMMARY") (lit ":" ++ ics_escape t) BEGIN_VEVENT
               [lit "UID:" ++ py_str eid ++ lit "@spp.org"; lit "DTSTAMP:" ++ now;
                lit "DTSTART;TZID=America/Chicago:" ++ Spp.parse_dt st]).
  - unfold Nyiso.extract_uid.
    rewrite split_crlf_join by (by apply block_lines_no_cr).
    apply first_uid_block.
Qed.

Lemma truthy_block ls : truthy (join CRLF (BEGIN_VEVENT :: ls)) = true.
Proof. by rewrite join_tail_text. Qed.

Lemma spp_collect_regular now events :
  line_text now → Forall spp_regular events →
  ∀ acc, ∃ blocks,
    Spp.collect now events acc = Ok (acc ++ map (join CRLF) blocks)
    ∧ Forall clean_block blocks ∧ Forall has_required_fields blocks
    ∧ length blocks
      = length (filter (λ e, truthy (spp_start e) = true) events).
Proof.
  intros Hnow. induction 1 as [|event events Hevent _ IH]; intros acc.
  - exists []. cbn. by rewrite app_nil_r.
  - pose proof (spp_regular_block now event Hnow Hevent) as Hblock.
    cbn [Spp.collect]. rewrite filter_cons.
    destruct (truthy (spp_start event)) eqn:Hstart.
    + destruct Hblock as (middle & -> & Hmiddle & Hreq & _).
      cbn [mbind result_bind]. rewrite truthy_block.
      destruct (IH (acc ++ [join CRLF (BEGIN_VEVENT :: middle ++ [END_VEVENT])]))
        as (blocks & -> & Hclean & Hfields & Hlen).
      exists ((BEGIN_VEVENT :: middle ++ [END_VEVENT]) :: blocks).
      rewrite decide_True by done. cbn [map length].
      rewrite <- app_assoc, Hlen. repeat split; try done.
      * apply Forall_cons. split; [by exists middle|done].
      * by apply Forall_cons.
    + rewrite Hblock. cbn [mbind result_bind truthy].
      destruct (IH acc) as (blocks & -> & Hclean & Hfields & Hlen).
      exists blocks. by rewrite decide_False by done.
Qed.

(** X10: the block SPP's [build_vevent] makes of a regular event: an event
    with an ["id"] whose other fields, where present, are strings, the
    timestamps made of digits and [-], [:], [T], [.], and no field holding a
    carriage return or the text VEVENT (nor, for the identity and the URL, a
    line feed).  When the start has no digit before its first dot the call
    returns the empty string.  Otherwise it returns the lines
    [BEGIN:VEVENT], the clean property lines and [END:VEVENT] joined by
    CRLF; the block contains DTSTART and SUMMARY, and [extract_uid] reads
    back the identity followed by [@spp.org], stripped. *)
Theorem spp_block_of_regular_event (now : str) (event : gmap string json) :
  line_text now → spp_regular event →
  if truthy (spp_start event) then
    ∃ middle,
      Spp.build_vevent now event
      = Ok (join CRLF (BEGIN_VEVENT :: middle ++ [END_VEVENT]))
      ∧ Forall clean_plain middle
      ∧ has_required_fields (BEGIN_VEVENT :: middle ++ [END_VEVENT])
      ∧ Nyiso.extract_uid (join CRLF (BEGIN_VEVENT :: middle ++ [END_VEVENT]))
        = Some (strip (spp_uid event))
  else Spp.build_vevent now event = Ok [].
Proof. apply spp_regular_block. Qed.

(** Evaluates the lookup in a [field] statement about a concrete event. *)
Ltac field_fact :=
  unfold field;
  lazymatch goal with
  | |- match ?l with _ => _ end =>
      let v := eval vm_compute in l in
      replace l with v by (vm_compute; reflexivity)
  end;
  cbv beta iota;
  first
    [ exact I
    | split; [apply (bool_decide_unpack _); by vm_compute|];
      first [ by vm_compute
            | split; [apply (bool_decide_unpack _); by vm_compute|by vm_compute] ]
    | repeat (apply Forall_cons; split); try (by apply Forall_nil);
      first [ left; by vm_compute
            | right; apply (bool_decide_unpack _); by vm_compute ] ].

Ltac field_facts :=
  lazymatch goal with
  | |- _ ∧ _ => split; [field_fact|field_facts]
  | |- _ => field_fact
  end.

Ltac regular_event eid :=
  split;
  [ exists eid; split; [by vm_compute|];
    split; [|split]; apply (bool_decide_unpack _); by vm_compute
  | field_facts ].

Lemma spp_block_of_regular_event_witness :
  let now := stamp_20261104 in
  let event := spp_event_complete in
  if truthy (spp_start event) then
    ∃ middle,
      Spp.build_vevent now event
      = Ok (join CRLF (BEGIN_VEVENT :: middle ++ [END_VEVENT]))
      ∧ Forall clean_plain middle
      ∧ has_required_fields (BEGIN_VEVENT :: middle ++ [END_VEVENT])
      ∧ Nyiso.extract_uid (join CRLF (BEGIN_VEVENT :: middle ++ [END_VEVENT]))
        = Some (strip (spp_uid event))
  else Spp.build_vevent now event = Ok [].
Proof.
  intros now event. apply (spp_block_of_regular_event now event).
  - split; [|split]; apply (bool_decide_unpack _); by vm_compute.
  - regular_event (JInt 12).
Defined.

(** X11: a run of SPP's [main] over regular events.  No event raises; the
    run builds one block for each event whose start is not empty.  Without
    events it exits with status 0, without blocks with status 1; otherwise
    it writes a document that parses back into exactly the blocks built and
    that the validator reports with as many events as blocks, verdict PASS
    and no issue. *)
Theorem spp_regular_run (now : str) (events : list (gmap string json)) :
  line_text now → Forall spp_regular events →
  ∃ blocks,
    Forall clean_block blocks ∧ Forall has_required_fields blocks
    ∧ length blocks
      = length (filter (λ e, truthy (spp_start e) = true) events)
    ∧ Spp.main now events
      = Ok (match events, blocks with
            | [], _ => Exits 0
            | _, [] => Exits 1
            | _, _ => Writes (Spp.build_merged_ics (map (join CRLF) blocks))
            end)
    ∧ Ercot.extract_vevents (Spp.build_merged_ics (map (join CRLF) blocks))
      = map (join CRLF) blocks
    ∧ Validate.validate (Spp.build_merged_ics (map (join CRLF) blocks))
      = Validate.Report (length blocks) (lit "PASS") [].
Proof.
  intros Hnow Hevents.
  destruct (spp_collect_regular now events Hnow Hevents [])
    as (blocks & Hcollect & Hclean & Hfields & Hlen).
  exists blocks. split; [done|]. split; [done|]. split; [done|]. split.
  - unfold Spp.main. destruct events as [|event events]; [done|].
    rewrite Hcollect. cbn [app mbind result_bind].
    by destruct blocks.
  - unfold Spp.build_merged_ics. cbn zeta.
    apply (layout_round_trip Spp.header_lines); header_facts.
Qed.

Lemma spp_regular_run_witness :
  let now := stamp_20261104 in
  let events := spp_two_events in
  ∃ blocks,
    Forall clean_block blocks ∧ Forall has_required_fields blocks
    ∧ length blocks
      = length (filter (λ e, truthy (spp_start e) = true) events)
    ∧ Spp.main now events
      = Ok (match events, blocks with
            | [], _ => Exits 0
            | _, [] => Exits 1
            | _, _ => Writes (Spp.build_merged_ics (map (join CRLF) blocks))
            end)
    ∧ Ercot.extract_vevents (Spp.build_merged_ics (map (join CRLF) blocks))
      = map (join CRLF) blocks
    ∧ Validate.validate (Spp.build_merged_ics (map (join CRLF) blocks))
      = Validate.Report (length blocks) (lit "PASS") [].
Proof.
  intros now events. apply (spp_regular_run now events).
  - split; [|split]; apply (bool_decide_unpack _); by vm_compute.
  - unfold events, spp_two_events.
    apply Forall_cons. split; [regular_event (JInt 12)|].
    apply Forall_cons. split; [regular_event (JInt 13)|]. by apply Forall_nil.
Defined.

(** ** What escaping leaves in a value *)

Lemma escape_char_length c : 1 ≤ length (escape_char c) ≤ 2.
Proof.
  destruct (escape_char_cases c) as [[-> _] | (e & -> & _)]; cbn; lia.
Qed.

Lemma escape_length s :
  length s ≤ length (s ≫= escape_char) ≤ 2 * length s.
Proof.
  induction s as [|c s IH]; [cbn; lia|].
  cbn [mbind list_bind length]. rewrite length_app.
  pose proof (escape_char_length c).
  change (foldr (λ x, app (escape_char x)) [] s) with (s ≫= escape_char).
  lia.
Qed.

(** X12: what [ics_escape] leaves in a value.  The result never holds a line
    feed, so an escaped value cannot end a line that way; a carriage return
    is passed through as it is; the result is at least as long as the input
    and at most twice as long; and a value without backslash, semicolon,
    comma and line feed is returned unchanged. *)
Theorem ics_escape_output (s : str) :
  (LF ∉ ics_escape s)
  ∧ (CR ∈ ics_escape s ↔ CR ∈ s)
  ∧ length s ≤ length (ics_escape s) ≤ 2 * length s
  ∧ (Forall (λ c, (c ∉ lit "\;,") ∧ c ≠ LF) s → ics_escape s = s).
Proof.
  split; [apply escape_no_lf|]. split; [|split].
  - split.
    + intros H. destruct (decide (CR ∈ s)) as [|Hn]; [done|].
      by apply escape_cr in Hn.
    + intros H. rewrite ics_escape_chars. apply list_elem_of_bind.
      exists CR. split; [|done]. by left.
  - rewrite ics_escape_chars. apply escape_length.
  - rewrite ics_escape_chars. induction 1 as [|c s [Hc Hlf] _ IH]; [done|].
    cbn [mbind list_bind].
    change (foldr (λ x, app (escape_char x)) [] s) with (s ≫= escape_char).
    rewrite IH.
    destruct (escape_char_cases c) as [[-> _] | (e & He & _)]; [done|].
    exfalso. unfold escape_char in He.
    change (lit "\;,") with ["\"%char; ";"%char; ","%char] in Hc.
    rewrite !not_elem_of_cons in Hc. destruct Hc as (H1 & H2 & H3 & _).
    destruct (Ascii.eqb_spec c "\"); [done|].
    destruct (Ascii.eqb_spec c ";"); [done|].
    destruct (Ascii.eqb_spec c ","); [done|].
    destruct (Ascii.eqb_spec c LF); [done|]. done.
Qed.

(** ** Blocks extracted from any text *)

Lemma replace_cr_no_cr s : CR ∉ replace s [CR] [LF].
Proof.
  rewrite replace_char. intros H.
  apply list_elem_of_bind in H as (x & Hin & _).
  destruct (Ascii.eqb_spec CR x) as [_|Hne].
  - by apply list_elem_of_singleton in Hin.
  - apply list_elem_of_singleton in Hin. done.
Qed.

Lemma split_from_chars (P : ascii → Prop) c s : ∀ cur,
  Forall P cur → Forall (λ x, x ≠ c → P x) s →
  Forall (Forall P) (split_from 0 cur s [c]).
Proof.
  induction s as [|a s IH]; intros cur Hcur Hs.
  - cbn. by repeat constructor.
  - apply Forall_cons in Hs as [Ha Hs].
    cbn [split_from]. rewrite startswith_char.
    destruct (Ascii.eqb_spec c a) as [->|Hne]; cbn [length Nat.sub].
    + apply Forall_cons. split; [done|]. by apply IH.
    + apply IH; [|done]. apply Forall_app. split; [done|].
      apply Forall_cons. split; [|constructor]. apply Ha. congruence.
Qed.

(** The lines the scans walk over hold no line-ending character. *)
Lemma normalized_lines_safe t : Forall line_safe (normalized_lines t).
Proof.
  unfold normalized_lines, split.
  pose proof (replace_cr_no_cr (replace t [CR; LF] [LF])) as Hcr.
  set (s := replace (replace t [CR; LF] [LF]) [CR] [LF]) in *.
  assert (H : Forall (Forall (λ x, x ≠ CR ∧ x ≠ LF)) (split_from 0 [] s [LF])).
  { apply split_from_chars; [constructor|].
    apply Forall_forall. intros x Hx Hne. split; [|done]. by intros ->. }
  eapply Forall_impl; [exact H|]. intros l Hl. rewrite Forall_forall in Hl.
  split; intros Hin; by destruct (Hl _ Hin).
Qed.

Lemma closing_sub (Q : str → Prop) lines : ∀ c,
  closing lines = Some c → Forall Q lines → Forall Q c.
Proof.
  induction lines as [|l rest IH]; intros c; cbn [closing]; [done|].
  intros Hc Hl. apply Forall_cons in Hl as [Hl Hrest].
  destruct (is_end l); [injection Hc as <-; by repeat constructor|].
  destruct (is_begin l); [done|].
  destruct (closing rest) as [c'|]; [|done]. injection Hc as <-.
  apply Forall_cons. split; [done|]. by apply IH.
Qed.

Lemma terminated_blocks_sub (Q : str → Prop) lines :
  Forall Q lines → Forall (Forall Q) (terminated_blocks lines).
Proof.
  induction 1 as [|l rest Hl Hrest IH]; [constructor|].
  cbn [terminated_blocks]. apply Forall_app. split; [|done].
  destruct (is_begin l); [|constructor].
  destruct (closing rest) as [c|] eqn:Hc; [|constructor].
  apply Forall_cons. split; [|constructor].
  apply Forall_cons. split; [done|]. by apply (closing_sub Q rest).
Qed.

Lemma extracted_list vs :
  Forall (λ v, ∃ t, v ∈ Ercot.extract_vevents t) vs →
  ∃ blocks,
    vs = map (join CRLF) blocks
    ∧ Forall well_delimited blocks ∧ Forall (Forall line_safe) blocks.
Proof.
  induction 1 as [|v vs (t & Hin) _ (blocks & -> & Hwd & Hsafe)];
    [by exists []|].
  rewrite extract_vevents_blocks in Hin.
  apply list_elem_of_fmap in Hin as (b & -> & Hb).
  pose proof (terminated_blocks_well_delimited (normalized_lines t)) as Hwd'.
  pose proof (terminated_blocks_sub line_safe _ (normalized_lines_safe t))
    as Hsafe'.
  rewrite Forall_forall in Hwd', Hsafe'.
  exists (b :: blocks). split; [done|]. split; apply Forall_cons; auto.
Qed.

Section Reparse.

Variable header_lines : list str.
Hypothesis header_nonempty : header_lines ≠ [].
Hypothesis header_safe : Forall line_safe header_lines.
Hypothesis header_plain : Forall plain_line header_lines.

Lemma layout_reparse blocks :
  Forall well_delimited blocks → Forall (Forall line_safe) blocks →
  Ercot.extract_vevents
    (join CRLF header_lines ++ CRLF ++ join CRLF (map (join CRLF) blocks) ++ CRLF
       ++ lit "END:VCALENDAR" ++ CRLF)
  = map (join CRLF) blocks.
Proof.
  intros Hwd Hsafe.
  assert (Hne : Forall (λ b : list str, b ≠ []) blocks).
  { eapply Forall_impl; [exact Hwd|]. apply well_delimited_nonempty. }
  pose proof header_lines_facts as (_ & _ & _ & _ & Hts & Htp & Hes & Hep).
  rewrite layout_lines by done.
  rewrite extract_of_lines; [|by destruct header_lines|].
  - f_equal. destruct blocks as [|b blocks].
    + apply plain_lines_no_blocks. by repeat (apply Forall_app; split).
    + by apply (blocks_of_document header_lines [] (b :: blocks)).
  - apply Forall_app; split; [done|]. apply Forall_app; split; [|done].
    destruct blocks as [|b blocks]; [done|].
    by apply (blocks_line_safe (b :: blocks)).
Qed.

End Reparse.

Ltac reparse_header :=
  lazymatch goal with
  | |- Forall line_safe _ =>
      repeat (apply Forall_cons; split); try (by apply Forall_nil);
      unfold line_safe; apply (bool_decide_unpack _); by vm_compute
  | |- Forall plain_line _ =>
      repeat (apply Forall_cons; split); try (by apply Forall_nil);
      by vm_compute
  | |- Forall _ _ => assumption
  | |- _ => by vm_compute
  end.

(** X13: a merged document parses back into the events merged, whatever the
    feeds held.  For any list of blocks each of which [extract_vevents]
    returned for some text, the document that a builder makes of the list is
    parsed by [extract_vevents] into exactly that list, in order; this holds
    for the builders of ERCOT, CAISO, PJM, SPP, ISO-NE and MISO, and for
    NYISO's without a timezone block. *)
Theorem merged_document_reparses (vs : list str) :
  Forall (λ v, ∃ t, v ∈ Ercot.extract_vevents t) vs →
  Forall (λ build : list str → str, Ercot.extract_vevents (build vs) = vs)
         [ Ercot.build_merged_ics; Caiso.build_merged_ics; Pjm.build_merged_ics;
           Spp.build_merged_ics; Isone.build_merged_ics; Miso.build_merged_ics;
           λ vs, Nyiso.build_merged_ics vs None ].
Proof.
  intros Hvs. destruct (extracted_list vs Hvs) as (blocks & -> & Hwd & Hsafe).
  repeat (apply Forall_cons; split); try (by apply Forall_nil).
  - unfold Ercot.build_merged_ics. cbn zeta.
    apply (layout_reparse Ercot.header_lines); reparse_header.
  - unfold Caiso.build_merged_ics. cbn zeta.
    apply (layout_reparse caiso_header_lines); reparse_header.
  - unfold Pjm.build_merged_ics. cbn zeta.
    apply (layout_reparse Pjm.header_lines); reparse_header.
  - unfold Spp.build_merged_ics. cbn zeta.
    apply (layout_reparse Spp.header_lines); reparse_header.
  - unfold Isone.build_merged_ics. cbn zeta.
    apply (layout_reparse Isone.header_lines); reparse_header.
  - unfold Miso.build_merged_ics. cbn zeta.
    apply (layout_reparse Miso.header_lines); reparse_header.
  - assert (Hne : Forall (λ b : list str, b ≠ []) blocks).
    { eapply Forall_impl; [exact Hwd|]. apply well_delimited_nonempty. }
    pose proof header_lines_facts as (_ & _ & Hns & Hnp & Hts & Htp & _ & _).
    rewrite nyiso_document_lines_none by done.
    rewrite extract_of_lines; [|done|].
    + f_equal. by apply (blocks_of_document nyiso_header_lines []).
    + apply Forall_app; split; [done|]. apply Forall_app; split; [|done].
      by apply blocks_line_safe.
Qed.

Lemma merged_document_reparses_witness :
  let vs := Ercot.extract_vevents (Examples.feed [Examples.event "a" "first a"]) in
  Forall (λ build : list str → str, Ercot.extract_vevents (build vs) = vs)
         [ Ercot.build_merged_ics; Caiso.build_merged_ics; Pjm.build_merged_ics;
           Spp.build_merged_ics; Isone.build_merged_ics; Miso.build_merged_ics;
           λ vs, Nyiso.build_merged_ics vs None ].
Proof.
  intros vs. apply (merged_document_reparses vs).
  apply Forall_forall. intros v Hv.
  by exists (Examples.feed [Examples.event "a" "first a"]).
Defined.

(** X14: the lines the merge reads are the lines the parser collected.  For
    every block that [extract_vevents] returns for any text, splitting the
    block at CRLF gives back the lines it was joined from, none of which
    holds a line-ending character; so [extract_uid] returns the stripped
    text behind [UID:] of the first of those lines that starts with it, and
    [extract_dtstart_date] the date of the first of those lines that matches
    the start pattern. *)
Theorem merge_reads_block_lines (t : str) :
  ∃ blocks,
    Ercot.extract_vevents t = map (join CRLF) blocks
    ∧ Forall (λ b,
        Forall line_safe b
        ∧ split (join CRLF b) CRLF = b
        ∧ Nyiso.extract_uid (join CRLF b) = Nyiso.first_uid b
        ∧ Pjm.extract_uid (join CRLF b) = Nyiso.first_uid b
        ∧ Pjm.extract_dtstart_date (join CRLF b) = Pjm.first_dtstart b) blocks.
Proof.
  exists (terminated_blocks (normalized_lines t)).
  split; [apply extract_vevents_blocks|].
  pose proof (terminated_blocks_well_delimited (normalized_lines t)) as Hwd.
  pose proof (terminated_blocks_sub line_safe _ (normalized_lines_safe t)) as Hsafe.
  rewrite Forall_forall in Hwd, Hsafe. apply Forall_forall. intros b Hb.
  assert (Hsplit : split (join CRLF b) CRLF = b).
  { destruct b as [|l ls]; [by destruct (well_delimited_nonempty _ (Hwd _ Hb))|].
    apply split_crlf_join. eapply Forall_impl; [exact (Hsafe _ Hb)|].
    by intros ? [? _]. }
  split; [by apply Hsafe|]. split; [done|].
  unfold Nyiso.extract_uid, Pjm.extract_uid, Pjm.extract_dtstart_date.
  by rewrite Hsplit.
Qed.

(** ** The validator on the text it receives

    The validator reads the download in text mode, so the text it holds has
    bare line feeds wherever the document had a line ending. *)

Lemma startswith_lf_line sub l R :
  LF ∉ sub → R = [] ∨ (∃ R', R = LF :: R') →
  startswith l sub = false → startswith (l ++ R) sub = false.
Proof.
  intros Hsub [-> | [R' ->]] Hl; [by rewrite app_nil_r|].
  destruct (startswith (l ++ LF :: R') sub) eqn:Hs; [|done].
  apply (startswith_straddle sub l LF R' Hsub) in Hs. congruence.
Qed.

Lemma startswith_lf_head sub R : sub ≠ [] → LF ∉ sub → startswith (LF :: R) sub = false.
Proof.
  intros Hne Hsub. destruct (startswith (LF :: R) sub) eqn:Hs; [|done].
  apply (startswith_straddle sub [] LF R Hsub) in Hs. by destruct sub.
Qed.

Lemma find_lf_line sub l R :
  LF ∉ sub → contains sub l = false → R = [] ∨ (∃ R', R = LF :: R') →
  find (l ++ R) sub = (λ i, length l + i) <$> find R sub.
Proof.
  intros Hsub Hl HR. induction l as [|a l IH].
  - cbn. by destruct (find R sub).
  - cbn in Hl. apply orb_false_iff in Hl as [Ha Hl].
    change ((a :: l) ++ R) with (a :: (l ++ R)). cbn [find].
    change (a :: (l ++ R)) with ((a :: l) ++ R).
    rewrite (startswith_lf_line sub (a :: l) R Hsub HR Ha), (IH Hl).
    by destruct (find R sub).
Qed.

Lemma find_lf sub X :
  sub ≠ [] → LF ∉ sub → find (LF :: X) sub = S <$> find X sub.
Proof.
  intros Hne Hsub. cbn [find]. by rewrite startswith_lf_head.
Qed.

Lemma count_lf_line sub l R :
  LF ∉ sub → contains sub l = false → R = [] ∨ (∃ R', R = LF :: R') →
  count_from 0 (l ++ R) sub = count_from 0 R sub.
Proof.
  intros Hsub Hl HR. induction l as [|a l IH]; [done|].
  cbn in Hl. apply orb_false_iff in Hl as [Ha Hl].
  change ((a :: l) ++ R) with (a :: (l ++ R)). cbn [count_from].
  change (a :: (l ++ R)) with ((a :: l) ++ R).
  by rewrite (startswith_lf_line sub (a :: l) R Hsub HR Ha), (IH Hl).
Qed.

Lemma count_lf sub X :
  sub ≠ [] → LF ∉ sub → count_from 0 (LF :: X) sub = count_from 0 X sub.
Proof.
  intros Hne Hsub. cbn [count_from]. by rewrite startswith_lf_head.
Qed.

Lemma tail_text_lf_separated ls :
  tail_text [LF] ls = [] ∨ (∃ R', tail_text [LF] ls = LF :: R').
Proof. destruct ls; [by left|right]. by eexists. Qed.

Lemma findall_lf X :
  Validate.findall_vevent (LF :: X) = Validate.findall_vevent X.
Proof.
  rewrite (findall_vevent_unfold (LF :: X)), (findall_vevent_unfold X).
  fold BEGIN_VEVENT END_VEVENT.
  rewrite find_lf by apply begin_text_facts.
  by destruct (find X BEGIN_VEVENT).
Qed.

Lemma findall_lf_line l R :
  contains BEGIN_VEVENT l = false → R = [] ∨ (∃ R', R = LF :: R') →
  Validate.findall_vevent (l ++ R) = Validate.findall_vevent R.
Proof.
  intros Hl HR.
  rewrite (findall_vevent_unfold (l ++ R)), (findall_vevent_unfold R).
  fold BEGIN_VEVENT END_VEVENT.
  rewrite (find_lf_line BEGIN_VEVENT l R (proj1 (proj2 (proj2 begin_text_facts))) Hl HR).
  destruct (find R BEGIN_VEVENT) as [i|]; [|done]. cbn [fmap option_fmap option_map].
  by rewrite drop_app_add.
Qed.

Lemma from_begin_lf m X :
  findall_from_begin m (LF :: X) = findall_from_begin (m ++ [LF]) X.
Proof.
  unfold findall_from_begin. rewrite find_lf by apply end_text_facts.
  destruct (find X END_VEVENT) as [j|]; [|done].
  cbn [fmap option_fmap option_map]. change (S j + 10) with (S (j + 10)).
  cbn [take drop]. by rewrite <- app_assoc.
Qed.

Lemma from_begin_lf_line m l R :
  contains END_VEVENT l = false → R = [] ∨ (∃ R', R = LF :: R') →
  findall_from_begin m (l ++ R) = findall_from_begin (m ++ l) R.
Proof.
  intros Hl HR. unfold findall_from_begin.
  rewrite (find_lf_line END_VEVENT l R (proj1 (proj2 (proj2 end_text_facts))) Hl HR).
  destruct (find R END_VEVENT) as [j|]; [|done].
  cbn [fmap option_fmap option_map].
  rewrite <- Nat.add_assoc, take_app_add, drop_app_add, <- app_assoc. done.
Qed.

(** The search of the validator on lines separated by LF against the line
    scan: outside a block, and behind a begin marker with [m] matched. *)
Lemma findall_lf_lines lines :
  Forall clean_line lines →
  (well_nested false lines = true →
   Validate.findall_vevent (tail_text [LF] lines)
   = map (join [LF]) (terminated_blocks lines))
  ∧ (well_nested true lines = true →
     ∀ m, findall_from_begin m (tail_text [LF] lines)
          = match closing lines with
            | Some c => [m ++ tail_text [LF] c]
            | None => []
            end
            ++ map (join [LF]) (terminated_blocks lines)).
Proof.
  induction lines as [|l rest IH]; intros Hclean.
  - split; [done|]. intros _ m. done.
  - apply Forall_cons in Hclean as [Hl Hrest].
    destruct (IH Hrest) as [IHout IHin]. clear IH.
    pose proof (tail_text_lf_separated rest) as Hsep.
    cbn [tail_text well_nested closing terminated_blocks].
    change ([LF] ++ l ++ tail_text [LF] rest)
      with (LF :: (l ++ tail_text [LF] rest)).
    destruct (clean_begin l Hl) as [[Hb ->] | [Hb Hnb]]; rewrite Hb.
    + rewrite (begin_not_end _ Hb). cbn [negb andb]. split; [|done].
      intros Hwn. rewrite findall_lf, findall_begin, (IHin Hwn).
      destruct (closing rest) as [c|]; [|done].
      cbn [app map]. by rewrite join_tail_text.
    + destruct (clean_end l Hl) as [[He ->] | [He Hne]]; rewrite He.
      * split.
        -- intros Hwn. by rewrite findall_lf, findall_lf_line, IHout.
        -- intros Hwn m.
           rewrite from_begin_lf, from_begin_end, (IHout Hwn).
           cbn [tail_text app]. by rewrite app_nil_r, <- app_assoc.
      * split.
        -- intros Hwn. by rewrite findall_lf, findall_lf_line, IHout.
        -- intros Hwn m.
           rewrite from_begin_lf, from_begin_lf_line, (IHin Hwn) by done.
           destruct (closing rest) as [c|]; [|done].
           cbn [fmap option_fmap option_map tail_text app].
           by rewrite <- !app_assoc.
Qed.

Lemma count_begin_lf_tail lines :
  Forall clean_line lines →
  count_from 0 (tail_text [LF] lines) BEGIN_VEVENT
  = length (filter (λ l, is_begin l = true) lines).
Proof.
  pose proof begin_text_facts as (Hne & Hcr & Hlf & _).
  induction lines as [|l rest IH]; intros Hclean; [done|].
  apply Forall_cons in Hclean as [Hl Hrest]. cbn [tail_text].
  change ([LF] ++ l ++ tail_text [LF] rest)
    with (LF :: (l ++ tail_text [LF] rest)).
  rewrite count_lf, filter_cons by done.
  destruct (clean_begin l Hl) as [[Hb ->] | [Hb Hnb]].
  - rewrite decide_True by done. rewrite count_here by done.
    cbn [length]. by rewrite IH.
  - rewrite decide_False by (rewrite Hb; done).
    rewrite count_lf_line by (done || apply tail_text_lf_separated). by apply IH.
Qed.

Lemma count_end_lf_tail lines :
  Forall clean_line lines →
  count_from 0 (tail_text [LF] lines) END_VEVENT
  = length (filter (λ l, is_end l = true) lines).
Proof.
  pose proof end_text_facts as (Hne & Hcr & Hlf & _).
  induction lines as [|l rest IH]; intros Hclean; [done|].
  apply Forall_cons in Hclean as [Hl Hrest]. cbn [tail_text].
  change ([LF] ++ l ++ tail_text [LF] rest)
    with (LF :: (l ++ tail_text [LF] rest)).
  rewrite count_lf, filter_cons by done.
  destruct (clean_end l Hl) as [[He ->] | [He Hne']].
  - rewrite decide_True by done. rewrite count_here by done.
    cbn [length]. by rewrite IH.
  - rewrite decide_False by (rewrite He; done).
    rewrite count_lf_line by (done || apply tail_text_lf_separated). by apply IH.
Qed.

(** Text mode on a document of lines. *)
Lemma replace_crlf_absent s : CR ∉ s → replace s [CR; LF] [LF] = s.
Proof.
  intros Hs. unfold replace.
  pose proof (replace_crlf_line s [] Hs) as H. by rewrite !app_nil_r in H.
Qed.

Lemma join_lf_no_cr lines : Forall (λ l, CR ∉ l) lines → CR ∉ join [LF] lines.
Proof.
  intros Hcr. destruct lines as [|l ls]; [apply not_elem_of_nil|].
  apply Forall_cons in Hcr as [Hl Hls].
  rewrite join_tail_text, not_elem_of_app. split; [done|by apply tail_text_no_cr].
Qed.

Lemma universal_newlines_crlf lines :
  Forall (λ l, CR ∉ l) lines →
  universal_newlines (join CRLF lines) = join [LF] lines.
Proof.
  intros Hcr. destruct lines as [|l ls]; [done|].
  pose proof (join_lf_no_cr (l :: ls) Hcr) as Hno.
  apply Forall_cons in Hcr as [Hl Hls].
  unfold universal_newlines. rewrite !join_tail_text in *.
  unfold replace at 2. rewrite replace_crlf_line, replace_crlf_tail by done.
  by rewrite replace_cr_absent.
Qed.

Lemma universal_newlines_lf lines :
  Forall (λ l, CR ∉ l) lines →
  universal_newlines (join [LF] lines) = join [LF] lines.
Proof.
  intros Hcr. pose proof (join_lf_no_cr lines Hcr) as Hno.
  unfold universal_newlines. by rewrite replace_crlf_absent, replace_cr_absent.
Qed.

Lemma split_lf_join l ls :
  Forall (λ l, LF ∉ l) (l :: ls) → split (join [LF] (l :: ls)) [LF] = l :: ls.
Proof.
  intros H. apply Forall_cons in H as [Hl Hls].
  rewrite join_tail_text. unfold split.
  rewrite split_lf_line by done. by apply split_lf_tail.
Qed.

Lemma normalized_lines_join_lf lines :
  lines ≠ [] → Forall (λ l, CR ∉ l) lines → Forall (λ l, LF ∉ l) lines →
  normalized_lines (join [LF] lines) = lines.
Proof.
  intros Hne Hcr Hlf.
  change (normalized_lines (join [LF] lines))
    with (split (universal_newlines (join [LF] lines)) [LF]).
  rewrite universal_newlines_lf by done.
  destruct lines as [|l ls]; [done|]. by apply split_lf_join.
Qed.

(** An occurrence of a text without line-ending characters lies inside one
    line, whichever separator joins the lines. *)
Lemma contains_nil m : m ≠ [] → contains m [] = false.
Proof. by destruct m. Qed.

Lemma contains_join_lf m ls :
  m ≠ [] → LF ∉ m → contains m (join [LF] ls) = existsb (contains m) ls.
Proof.
  intros Hm Hlf. induction ls as [|l ls IH]; [by apply contains_nil|].
  destruct ls as [|l' ls]; [cbn; by rewrite orb_false_r|].
  rewrite join_cons by done. cbn [existsb] in *.
  change ([LF] ++ join [LF] (l' :: ls)) with (LF :: join [LF] (l' :: ls)).
  by rewrite contains_straddle, IH.
Qed.

Lemma contains_join_crlf m ls :
  m ≠ [] → CR ∉ m → LF ∉ m →
  contains m (join CRLF ls) = existsb (contains m) ls.
Proof.
  intros Hm Hcr Hlf. induction ls as [|l ls IH]; [by apply contains_nil|].
  destruct ls as [|l' ls]; [cbn; by rewrite orb_false_r|].
  rewrite join_cons by done. cbn [existsb] in *.
  change (CRLF ++ join CRLF (l' :: ls)) with (CR :: [LF] ++ join CRLF (l' :: ls)).
  rewrite contains_straddle by done. f_equal.
  destruct m as [|a m]; [done|]. rewrite contains_skip_foreign; [done|].
  apply not_elem_of_cons in Hlf as [Ha _].
  apply not_elem_of_cons. split; [done|apply not_elem_of_nil].
Qed.

(** C9 (amended): the validator reads the download in text mode, which
    turns every line ending into LF.  On a document made of lines joined by
    CRLF (or by LF), where no line holds a line-ending character, the event
    marker texts occur only as whole lines, and no begin marker follows a
    begin marker without an end marker in between, the blocks the validator
    inspects in the text it holds are, line for line, in the same number and
    order, the blocks the all-blocks line scan makes of that text: each is
    the lines of a block joined by LF where the line scan joins them by
    CRLF.  The tests for DTSTART and SUMMARY answer alike on both, and the
    begin and end counts are the numbers of begin-marker and end-marker
    lines. *)
Theorem validator_blocks_on_clean_documents (lines : list str) :
  lines ≠ [] → Forall clean_line lines → well_nested false lines = true →
  let text := Validate.stdout_text (join CRLF lines) in
  let inspected := Validate.findall_vevent text in
  let scanned := Ercot.extract_vevents text in
  text = join [LF] lines
  ∧ Validate.stdout_text (join [LF] lines) = text
  ∧ inspected = map (join [LF]) (terminated_blocks lines)
  ∧ scanned = map (join CRLF) (terminated_blocks lines)
  ∧ length inspected = length scanned
  ∧ map (λ v, split v [LF]) inspected = map (λ v, split v CRLF) scanned
  ∧ map (contains (lit "DTSTART")) inspected = map (contains (lit "DTSTART")) scanned
  ∧ map (contains (lit "SUMMARY")) inspected = map (contains (lit "SUMMARY")) scanned
  ∧ count text (lit "BEGIN:VEVENT") = length (filter (λ l, is_begin l = true) lines)
  ∧ count text (lit "END:VEVENT") = length (filter (λ l, is_end l = true) lines).
Proof.
  intros Hne Hclean Hwn text inspected scanned.
  assert (Hcr : Forall (λ l, CR ∉ l) lines)
    by (eapply Forall_impl; [exact Hclean|]; by intros l (? & _)).
  assert (Hlf : Forall (λ l, LF ∉ l) lines)
    by (eapply Forall_impl; [exact Hclean|]; by intros l (_ & ? & _)).
  assert (Htext : text = join [LF] lines)
    by (by apply universal_newlines_crlf).
  assert (Htail : tail_text [LF] lines = LF :: text).
  { rewrite Htext. destruct lines as [|l ls]; [done|]. by rewrite join_tail_text. }
  assert (Hinspected : inspected = map (join [LF]) (terminated_blocks lines)).
  { subst inspected. rewrite <- findall_lf, <- Htail. by apply findall_lf_lines. }
  assert (Hscanned : scanned = map (join CRLF) (terminated_blocks lines)).
  { subst scanned. rewrite extract_vevents_blocks, Htext.
    by rewrite normalized_lines_join_lf. }
  pose proof (terminated_blocks_well_delimited lines) as Hwd.
  pose proof (terminated_blocks_sub (λ l, CR ∉ l) lines Hcr) as Hbcr.
  pose proof (terminated_blocks_sub (λ l, LF ∉ l) lines Hlf) as Hblf.
  pose proof begin_text_facts as (Hbne & _ & Hblf' & _).
  pose proof end_text_facts as (Hene & _ & Helf' & _).
  split; [done|]. split; [by rewrite Htext; apply universal_newlines_lf|].
  split; [done|]. split; [done|].
  rewrite Hinspected, Hscanned, !length_map, <- !list_fmap_compose.
  split; [done|]. split; [|split; [|split; [|split]]].
  - apply Forall_fmap_ext_1. rewrite Forall_forall in Hwd, Hbcr, Hblf.
    apply Forall_forall. intros b Hb. cbn.
    destruct b as [|l ls]; [by destruct (well_delimited_nonempty _ (Hwd _ Hb))|].
    rewrite split_lf_join, split_crlf_join; [done|by apply Hbcr|by apply Hblf].
  - apply Forall_fmap_ext_1. apply Forall_forall. intros b _. cbn.
    rewrite contains_join_lf, contains_join_crlf; [done|..];
      first [done | apply (bool_decide_unpack _); by vm_compute].
  - apply Forall_fmap_ext_1. apply Forall_forall. intros b _. cbn.
    rewrite contains_join_lf, contains_join_crlf; [done|..];
      first [done | apply (bool_decide_unpack _); by vm_compute].
  - unfold count. rewrite <- count_begin_lf_tail, Htail by done.
    symmetry. by apply count_lf.
  - unfold count. rewrite <- count_end_lf_tail, Htail by done.
    symmetry. by apply count_lf.
Qed.

Lemma validator_blocks_on_clean_documents_witness :
  let lines := small_calendar_lines in
  let text := Validate.stdout_text (join CRLF lines) in
  let inspected := Validate.findall_vevent text in
  let scanned := Ercot.extract_vevents text in
  text = join [LF] lines
  ∧ Validate.stdout_text (join [LF] lines) = text
  ∧ inspected = map (join [LF]) (terminated_blocks lines)
  ∧ scanned = map (join CRLF) (terminated_blocks lines)
  ∧ length inspected = length scanned
  ∧ map (λ v, split v [LF]) inspected = map (λ v, split v CRLF) scanned
  ∧ map (contains (lit "DTSTART")) inspected = map (contains (lit "DTSTART")) scanned
  ∧ map (contains (lit "SUMMARY")) inspected = map (contains (lit "SUMMARY")) scanned
  ∧ count text (lit "BEGIN:VEVENT") = length (filter (λ l, is_begin l = true) lines)
  ∧ count text (lit "END:VEVENT") = length (filter (λ l, is_end l = true) lines).
Proof.
  intros lines. apply (validator_blocks_on_clean_documents lines).
  - discriminate.
  - unfold lines, small_calendar_lines. cbn [map].
    repeat (apply Forall_cons; split); try apply Forall_nil;
      unfold clean_line; apply (bool_decide_unpack _); vm_compute; exact I.
  - vm_compute. reflexivity.
Defined.

(** ** The dates in PJM's document *)

Lemma elem_of_concat {A} (x : A) (ls : list (list A)) :
  x ∈ concat ls → ∃ l, l ∈ ls ∧ x ∈ l.
Proof.
  induction ls as [|l ls IH]; cbn; [by intros ?%elem_of_nil|].
  rewrite elem_of_app. intros [H | H].
  - exists l. split; [by left|done].
  - destruct (IH H) as (l' & Hl' & Hx). exists l'. split; [by right|done].
Qed.

Lemma batches_extracted feeds v :
  v ∈ concat (batches feeds) → ∃ t, v ∈ Ercot.extract_vevents t.
Proof.
  intros H. apply elem_of_concat in H as (l & Hl & Hv).
  unfold batches in Hl. apply list_elem_of_fmap in Hl as (fetched & -> & _).
  by exists (default [] fetched).
Qed.

Lemma ascii_digits_is_digit d : ascii_digits d → forallb Pjm.is_digit d = true.
Proof.
  induction 1 as [|c d Hc _ IH]; [done|]. cbn [forallb]. rewrite IH, andb_true_r.
  unfold Pjm.is_digit. cbn zeta.
  apply andb_true_iff. split; apply Nat.leb_le; lia.
Qed.

(** X7: the dates in PJM's document.  When [main] writes a document, the
    document is [build_merged_ics] of the blocks the merge kept, a non-empty
    list, and parsing the document gives back exactly those blocks.  Every
    kept block for which [extract_dtstart_date] finds a start date has one of
    eight characters inside the window as strings; when the eight characters
    are the digits 0 to 9, the date read as a number lies between the first
    day of the current month (included) and the first day of the month
    [months] later (excluded): on such dates the comparison of strings in the
    merge is the comparison of the dates. *)
Theorem pjm_document_dates
  (today_year today_month months : Z) (feeds : list (option str)) (doc : str) :
  (1000 ≤ today_year ≤ 9999)%Z → (1 ≤ today_month ≤ 12)%Z → (0 ≤ months)%Z →
  Pjm.main today_year today_month months feeds = Some (Writes doc) →
  let total := (today_month + months - 1)%Z in
  let start_ := strftime_Ymd today_year today_month 1 in
  let end_ := strftime_Ymd (today_year + total / 12) (total mod 12 + 1) 1 in
  let kept := Pjm.all_vevents (Pjm.merge_feeds start_ end_ feeds) in
  kept ≠ []
  ∧ doc = Pjm.build_merged_ics kept
  ∧ Pjm.extract_vevents doc = kept
  ∧ ∀ ve d,
      ve ∈ kept → Pjm.extract_dtstart_date ve = Some d →
      length d = 8
      ∧ Pjm.in_window start_ end_ d = true
      ∧ (ascii_digits d →
         (yyyymmdd today_year today_month 1 ≤ decimal d
          < yyyymmdd (today_year + total / 12) (total mod 12 + 1) 1)%Z).
Proof.
  intros Hy Hm Hmonths Hmain total start_ end_ kept. unfold Pjm.main in Hmain.
  destruct (Pjm.date_range today_year today_month months)
    as [[s e]|] eqn:Hrange; [|done].
  unfold Pjm.date_range in Hrange.
  replace (today_month + months - 1)%Z with total in Hrange by done.
  destruct ((1 <=? today_year + total / 12) && (today_year + total / 12 <=? 9999))%Z
    eqn:Hyear; [|done].
  injection Hrange as <- <-. fold start_ end_ kept in Hmain.
  apply andb_true_iff in Hyear as [Hy1 Hy2].
  apply Z.leb_le in Hy1, Hy2.
  pose proof (Z.mod_pos_bound total 12 ltac:(lia)) as Hmod.
  destruct (strftime_Ymd_number today_year today_month 1)
    as (Hls & Hds & Hns); [lia..|].
  destruct (strftime_Ymd_number (today_year + total / 12) (total mod 12 + 1) 1)
    as (Hle & Hde & Hne); [lia..|].
  fold start_ in Hls, Hds, Hns. fold end_ in Hle, Hde, Hne.
  assert (Hall : kept = first_occurrences []
                          (filter (λ ve, passes_window start_ end_ ve = true)
                                  (concat (batches feeds)))).
  { subst kept. unfold Pjm.merge_feeds. by rewrite (pjm_add_feeds _ _ feeds _ []). }
  assert (Hsub : ∀ ve, ve ∈ kept →
            passes_window start_ end_ ve = true ∧ ve ∈ concat (batches feeds)).
  { intros ve Hin. rewrite Hall in Hin.
    apply (λ H, elem_of_sublist _ _ _ H (first_occurrences_sublist _ _)) in Hin.
    by apply list_elem_of_filter in Hin. }
  assert (Hdoc : doc = Pjm.build_merged_ics kept ∧ kept ≠ []).
  { destruct kept as [|v vs]; [done|]. by injection Hmain as <-. }
  destruct Hdoc as [-> Hkept].
  split; [done|]. split; [done|]. split.
  - assert (Hex : Forall (λ v, ∃ t, v ∈ Ercot.extract_vevents t) kept).
    { apply Forall_forall. intros v Hv.
      apply (batches_extracted feeds). by apply Hsub. }
    destruct (extracted_list kept Hex) as (blocks & -> & Hwd & Hsafe).
    unfold Pjm.build_merged_ics. cbn zeta.
    apply (layout_reparse Pjm.header_lines); reparse_header.
  - intros ve d Hin Hd.
    destruct (extract_dtstart_date_digits ve d Hd) as [Hlen _].
    destruct (Hsub ve Hin) as [Hpass _].
    unfold passes_window in Hpass. rewrite Hd in Hpass.
    rewrite (extract_dtstart_date_truthy ve d Hd) in Hpass.
    cbn [negb orb] in Hpass.
    split; [done|]. split; [done|]. intros Hascii.
    apply ascii_digits_is_digit in Hascii.
    unfold Pjm.in_window, str_le in Hpass.
    apply andb_true_iff in Hpass as [Hlo Hhi].
    apply negb_true_iff in Hlo.
    rewrite str_lt_decimal in Hlo by (done || congruence).
    rewrite str_lt_decimal in Hhi by (done || congruence).
    apply Z.ltb_ge in Hlo. apply Z.ltb_lt in Hhi. lia.
Qed.

Lemma pjm_document_dates_witness :
  let doc := Pjm.build_merged_ics [Examples.dated_event "x" "20261215"] in
  let total := (11 + 3 - 1)%Z in
  let start_ := strftime_Ymd 2026 11 1 in
  let end_ := strftime_Ymd (2026 + total / 12) (total mod 12 + 1) 1 in
  let kept := Pjm.all_vevents (Pjm.merge_feeds start_ end_ december_feeds) in
  kept ≠ []
  ∧ doc = Pjm.build_merged_ics kept
  ∧ Pjm.extract_vevents doc = kept
  ∧ ∀ ve d,
      ve ∈ kept → Pjm.extract_dtstart_date ve = Some d →
      length d = 8
      ∧ Pjm.in_window start_ end_ d = true
      ∧ (ascii_digits d →
         (yyyymmdd 2026 11 1 ≤ decimal d
          < yyyymmdd (2026 + total / 12) (total mod 12 + 1) 1)%Z).
Proof.
  intros doc.
  apply (pjm_document_dates 2026 11 3 december_feeds doc); try lia.
  vm_compute. reflexivity.
Defined.

(** ** Validating a built document as the validator receives it *)

Lemma rstrip_lf X : rstrip (X ++ [LF]) = rstrip X.
Proof. unfold rstrip. rewrite rev_app_distr. done. Qed.

Lemma calendar_marker_checks_lf P :
  startswith P (lit "BEGIN:VCALENDAR") = true →
  let text := P ++ lit "END:VCALENDAR" ++ [LF] in
  startswith (strip text) (lit "BEGIN:VCALENDAR") = true
  ∧ endswith (strip text) (lit "END:VCALENDAR") = true.
Proof.
  intros HP text.
  assert (Hstrip : strip text = P ++ lit "END:VCALENDAR").
  { unfold strip, text. destruct P as [|c P]; [done|].
    assert (Hc : is_space c = false).
    { change (lit "BEGIN:VCALENDAR") with ("B"%char :: lit "EGIN:VCALENDAR") in HP.
      cbn [startswith] in HP. apply andb_true_iff in HP as [HB _].
      apply Ascii.eqb_eq in HB. by subst c. }
    cbn [app lstrip]. rewrite Hc.
    change (c :: P ++ lit "END:VCALENDAR" ++ [LF])
      with ((c :: P) ++ lit "END:VCALENDAR" ++ [LF]).
    rewrite app_assoc, rstrip_lf.
    change (lit "END:VCALENDAR") with (lit "END:VCALENDA" ++ ["R"%char]).
    rewrite app_assoc, rstrip_nonspace by done. by rewrite <- app_assoc. }
  rewrite Hstrip. split; [by apply startswith_app_r|].
  unfold endswith. rewrite rev_app_distr. apply startswith_prefix.
Qed.

(** The search and the counts of the validator on a clean document whose
    lines are separated by LF. *)
Lemma validator_on_lf_lines lines :
  lines ≠ [] → Forall clean_line lines → well_nested false lines = true →
  Validate.findall_vevent (join [LF] lines)
  = map (join [LF]) (terminated_blocks lines)
  ∧ count (join [LF] lines) (lit "BEGIN:VEVENT")
    = length (filter (λ l, is_begin l = true) lines)
  ∧ count (join [LF] lines) (lit "END:VEVENT")
    = length (filter (λ l, is_end l = true) lines).
Proof.
  intros Hne Hclean Hwn.
  assert (Htail : tail_text [LF] lines = LF :: join [LF] lines).
  { destruct lines as [|l ls]; [done|]. by rewrite join_tail_text. }
  pose proof begin_text_facts as (Hbne & _ & Hblf & _).
  pose proof end_text_facts as (Hene & _ & Helf & _).
  split; [|split].
  - rewrite <- findall_lf, <- Htail. by apply findall_lf_lines.
  - unfold count. rewrite <- count_begin_lf_tail, Htail by done.
    symmetry. by apply count_lf.
  - unfold count. rewrite <- count_end_lf_tail, Htail by done.
    symmetry. by apply count_lf.
Qed.

Lemma no_block_misses_lf sub blocks :
  sub ≠ [] → (CR ∉ sub) → (LF ∉ sub) →
  Forall (λ b, contains sub (join CRLF b) = true) blocks →
  filter (λ v, contains sub v = false) (map (join [LF]) blocks) = [].
Proof.
  intros Hne Hcr Hlf. induction 1 as [|b blocks Hb _ IH]; [done|].
  cbn [map]. rewrite filter_cons, decide_False, IH; [done|].
  rewrite contains_join_crlf in Hb by done.
  by rewrite contains_join_lf, Hb.
Qed.

(** The validator on the text it reads of a document given by its lines: a
    header, further plain lines, event blocks, the calendar end marker and
    the empty last line. *)
Lemma validate_received_lines header extra blocks :
  header ≠ [] →
  Forall clean_line header → Forall plain_line header →
  Forall clean_line extra → Forall plain_line extra →
  startswith (join [LF] header) (lit "BEGIN:VCALENDAR") = true →
  contains (lit "VERSION:2.0") (join [LF] header) = true →
  contains (lit "PRODID:") (join [LF] header) = true →
  Forall clean_block blocks → Forall has_required_fields blocks →
  let raw :=
    join CRLF (header ++ extra ++ concat blocks ++ [lit "END:VCALENDAR"; []]) in
  Validate.validate (Validate.stdout_text raw)
  = Validate.Report (length blocks) (lit "PASS") [].
Proof.
  intros Hne Hhc Hhp Hec Hep Hstart Hver Hprod Hblocks Hreq raw.
  set (lines := header ++ extra ++ concat blocks ++ [lit "END:VCALENDAR"; []])
    in *.
  assert (Htc : Forall clean_line [lit "END:VCALENDAR"; []]).
  { repeat (apply Forall_cons; split); try (by apply Forall_nil);
      unfold clean_line; apply (bool_decide_unpack _); by vm_compute. }
  assert (Htp : Forall plain_line [lit "END:VCALENDAR"; []]).
  { repeat (apply Forall_cons; split); try (by apply Forall_nil); by vm_compute. }
  assert (Hbc : Forall clean_line (concat blocks)).
  { clear Hreq. induction Hblocks as [|b bs Hb _ IH]; [constructor|].
    destruct (clean_block_facts b Hb) as (_ & ? & _). cbn. by apply Forall_app. }
  assert (Hwd : Forall well_delimited blocks).
  { eapply Forall_impl; [exact Hblocks|]. intros b Hb.
    by destruct (clean_block_facts b Hb) as (? & _). }
  assert (Hlines_ne : lines ≠ []) by (subst lines; by destruct header).
  assert (Hclean : Forall clean_line lines)
    by (subst lines; by repeat (apply Forall_app; split)).
  assert (Hcr : Forall (λ l, CR ∉ l) lines)
    by (eapply Forall_impl; [exact Hclean|]; by intros l (? & _)).
  assert (Hwn : well_nested false lines = true).
  { subst lines. rewrite !well_nested_plain, well_nested_blocks by done.
    by rewrite <- (app_nil_r [_; _]), well_nested_plain. }
  assert (Htext : Validate.stdout_text raw = join [LF] lines)
    by (subst raw; by apply universal_newlines_crlf).
  rewrite Htext. clear Htext raw.
  destruct (validator_on_lf_lines lines Hlines_ne Hclean Hwn) as (Hfind & Hcb & Hce).
  set (doc := join [LF] lines) in *.
  assert (Htb : terminated_blocks lines = blocks)
    by (subst lines; by apply blocks_of_document).
  destruct (marker_lines_of_blocks blocks Hblocks) as [Hnb Hnend].
  assert (Hplain_begin : ∀ ls, Forall plain_line ls →
            filter (λ l, is_begin l = true) ls = []).
  { intros ls Hls. apply filter_false_nil.
    eapply Forall_impl; [exact Hls|]. by intros l [? _]. }
  assert (Hplain_end : ∀ ls, Forall plain_line ls →
            filter (λ l, is_end l = true) ls = []).
  { intros ls Hls. apply filter_false_nil.
    eapply Forall_impl; [exact Hls|]. by intros l [_ ?]. }
  assert (Hbegins : count doc (lit "BEGIN:VEVENT") = length blocks).
  { rewrite Hcb. subst lines. rewrite !filter_app, !length_app.
    rewrite (Hplain_begin header), (Hplain_begin extra),
      (Hplain_begin [lit "END:VCALENDAR"; []]) by done.
    cbn [length]. lia. }
  assert (Hends : count doc (lit "END:VEVENT") = length blocks).
  { rewrite Hce. subst lines. rewrite !filter_app, !length_app.
    rewrite (Hplain_end header), (Hplain_end extra),
      (Hplain_end [lit "END:VCALENDAR"; []]) by done.
    cbn [length]. lia. }
  assert (Hdoc : doc = (join [LF] header ++ tail_text [LF] (extra ++ concat blocks)
                        ++ [LF]) ++ lit "END:VCALENDAR" ++ [LF]).
  { subst doc lines. rewrite join_app_tail by done.
    rewrite (app_assoc extra), tail_text_app. cbn [tail_text].
    by rewrite <- !app_assoc, !app_nil_r. }
  destruct (calendar_marker_checks_lf
              (join [LF] header ++ tail_text [LF] (extra ++ concat blocks) ++ [LF]))
    as [Hs He]; [by apply startswith_app_r|].
  cbn zeta in Hs, He. rewrite <- Hdoc in Hs, He.
  assert (Hv : contains (lit "VERSION:2.0") doc = true)
    by (rewrite Hdoc, <- !app_assoc; by apply contains_app_l).
  assert (Hp : contains (lit "PRODID:") doc = true)
    by (rewrite Hdoc, <- !app_assoc; by apply contains_app_l).
  assert (Hissues : Validate.issues (Validate.validate doc) = []).
  { pose proof (validate_issues doc) as H. cbn zeta in H.
    rewrite Hfind, Htb, Hbegins, Hends, Hs, He, Hv, Hp in H.
    assert (Hd : filter (λ v, contains (lit "DTSTART") v = false)
                   (map (join [LF]) blocks) = []).
    { apply no_block_misses_lf.
      - discriminate.
      - apply (bool_decide_unpack _). by vm_compute.
      - apply (bool_decide_unpack _). by vm_compute.
      - eapply Forall_impl; [exact Hreq|]. by intros b [? _]. }
    assert (Hm : filter (λ v, contains (lit "SUMMARY") v = false)
                   (map (join [LF]) blocks) = []).
    { apply no_block_misses_lf.
      - discriminate.
      - apply (bool_decide_unpack _). by vm_compute.
      - apply (bool_decide_unpack _). by vm_compute.
      - eapply Forall_impl; [exact Hreq|]. by intros b [_ ?]. }
    rewrite Hd, Hm in H.
    by rewrite !decide_True in H by done. }
  assert (Heta : ∀ r n, Validate.events r = n ∧ Validate.status r = lit "PASS"
                        ∧ Validate.issues r = [] →
                        r = Validate.Report n (lit "PASS") []).
  { intros [e s i] n (He' & Hs' & Hi'). cbn in He', Hs', Hi'.
    by rewrite He', Hs', Hi'. }
  apply Heta. split; [exact Hbegins|]. split; [|done].
  by rewrite validate_status, Hissues.
Qed.

Lemma layout_received header_lines blocks :
  header_lines ≠ [] →
  Forall clean_line header_lines → Forall plain_line header_lines →
  startswith (join [LF] header_lines) (lit "BEGIN:VCALENDAR") = true →
  contains (lit "VERSION:2.0") (join [LF] header_lines) = true →
  contains (lit "PRODID:") (join [LF] header_lines) = true →
  Forall clean_block blocks → Forall has_required_fields blocks →
  Validate.validate
    (Validate.stdout_text
       (join CRLF header_lines ++ CRLF ++ join CRLF (map (join CRLF) blocks)
          ++ CRLF ++ lit "END:VCALENDAR" ++ CRLF))
  = Validate.Report (length blocks) (lit "PASS") [].
Proof.
  intros Hne Hhc Hhp Hs Hv Hp Hblocks Hreq.
  assert (Hbne : Forall (λ b : list str, b ≠ []) blocks).
  { eapply Forall_impl; [exact Hblocks|]. intros b Hb.
    destruct (clean_block_facts b Hb) as (Hwd & _).
    by apply well_delimited_nonempty. }
  assert (Hempty : Forall clean_line [[] : str] ∧ Forall plain_line [[] : str]).
  { split; repeat (apply Forall_cons; split); try (by apply Forall_nil);
      try (by vm_compute);
      unfold clean_line; apply (bool_decide_unpack _); by vm_compute. }
  destruct Hempty as [Hec Hep].
  rewrite layout_lines by done.
  destruct blocks as [|b blocks].
  - by apply (validate_received_lines header_lines [[]] []).
  - apply (validate_received_lines header_lines [] (b :: blocks));
      try done; constructor.
Qed.

(** X15: the validator on what it downloads.  It reads the document in text
    mode, so it holds the lines separated by LF.  For event blocks whose
    marker lines are exactly the marker texts, whose other lines hold no
    line-ending character and no event marker text, and which each contain
    DTSTART and SUMMARY, the report on the text read of the document that a
    builder makes of them has as many events as blocks, verdict PASS and no
    issue; this holds for the builders of ERCOT, CAISO, PJM, SPP, ISO-NE and
    MISO, and for NYISO's without a timezone block. *)
Theorem built_documents_pass_as_received (blocks : list (list str)) :
  Forall clean_block blocks → Forall has_required_fields blocks →
  Forall (λ build : list str → str,
            Validate.validate
              (Validate.stdout_text (build (map (join CRLF) blocks)))
            = Validate.Report (length blocks) (lit "PASS") [])
         [ Ercot.build_merged_ics; Caiso.build_merged_ics; Pjm.build_merged_ics;
           Spp.build_merged_ics; Isone.build_merged_ics; Miso.build_merged_ics;
           λ vs, Nyiso.build_merged_ics vs None ].
Proof.
  intros Hblocks Hreq.
  repeat (apply Forall_cons; split); try (by apply Forall_nil).
  - unfold Ercot.build_merged_ics. cbn zeta.
    apply (layout_received Ercot.header_lines); header_facts.
  - unfold Caiso.build_merged_ics. cbn zeta.
    apply (layout_received caiso_header_lines); header_facts.
  - unfold Pjm.build_merged_ics. cbn zeta.
    apply (layout_received Pjm.header_lines); header_facts.
  - unfold Spp.build_merged_ics. cbn zeta.
    apply (layout_received Spp.header_lines); header_facts.
  - unfold Isone.build_merged_ics. cbn zeta.
    apply (layout_received Isone.header_lines); header_facts.
  - unfold Miso.build_merged_ics. cbn zeta.
    apply (layout_received Miso.header_lines); header_facts.
  - assert (Hbne : Forall (λ b : list str, b ≠ []) blocks).
    { eapply Forall_impl; [exact Hblocks|]. intros b Hb.
      destruct (clean_block_facts b Hb) as (Hwd & _).
      by apply well_delimited_nonempty. }
    rewrite nyiso_document_lines_none by done.
    apply (validate_received_lines nyiso_header_lines [] blocks);
      first [ header_facts | constructor ].
Qed.

Lemma built_documents_pass_as_received_witness :
  let blocks := two_complete_blocks in
  Forall (λ build : list str → str,
            Validate.validate
              (Validate.stdout_text (build (map (join CRLF) blocks)))
            = Validate.Report (length blocks) (lit "PASS") [])
         [ Ercot.build_merged_ics; Caiso.build_merged_ics; Pjm.build_merged_ics;
           Spp.build_merged_ics; Isone.build_merged_ics; Miso.build_merged_ics;
           λ vs, Nyiso.build_merged_ics vs None ].
Proof.
  intros blocks. apply (built_documents_pass_as_received blocks).
  - unfold blocks, two_complete_blocks. cbn [map].
    apply Forall_cons; split; [|apply Forall_cons; split; [|by apply Forall_nil]].
    + exists [lit "UID:a"; lit "DTSTART:20260301T090000Z"; lit "SUMMARY:first"].
      split; [reflexivity|].
      repeat (apply Forall_cons; split); try (by apply Forall_nil);
        unfold clean_plain; apply (bool_decide_unpack _); vm_compute; exact I.
    + exists [lit "UID:b"; lit "DTSTART;VALUE=DATE:20260302"; lit "SUMMARY:second"].
      split; [reflexivity|].
      repeat (apply Forall_cons; split); try (by apply Forall_nil);
        unfold clean_plain; apply (bool_decide_unpack _); vm_compute; exact I.
  - unfold blocks, two_complete_blocks. cbn [map].
    repeat (apply Forall_cons; split); try (by apply Forall_nil);
      vm_compute; split; reflexivity.
Defined.
